(** * Invoice processor: customer resolution, reconciliation and ledger rows

    A shallow embedding of the decision logic of the invoice processor:
    - [knowledge_base/kb_manager.py]: the name normalizer
      ([clean_name_for_matching]), the fuzzy candidate lookup
      ([find_customer_matches], [search_similar_customers]) and the
      per-row part of the price-list loader ([load_from_excel]);
    - [models/client_models.py]: candidate scoring and ranking, the
      arbiter with its fallbacks and the final decision
      ([find_best_customer_match], [_ai_choose_best_match_with_price]),
      and the "Lain-lain" rewrite of an extracted record;
    - [api/main.py]: the per-record body of [process_invoices];
    - [excel/excel_creator.py]: one data row of the month sheet.

    Conventions.
    - A Python [str] is a list of code points.  The character tables
      ([is_space], [is_word], case mapping, NFKC) are tabulated on the
      ASCII range and on the CJK unified block U+4E00..U+9FFF that the
      normalizer's character class names; a statement whose truth depends
      on the tables carries the hypothesis [in_tables].
    - A Python [float] is a binary64 number and is modelled by the
      rational [Q] that is its value.  A rational that is no binary64
      number (a decimal literal of the source, a number of a sample)
      stands for the double nearest to it.  Every product, quotient and
      difference of the source reads its operands as doubles and rounds
      its result to the nearest double, ties to even ([Py.double],
      [Py.fmul], [Py.fdiv], [Py.fsub]); reading a double as a double
      changes nothing ([FloatFacts.double_idempotent]).  Comparisons
      are those of the rationals; the literals [0.01] and [0.6] the
      source compares with are read as doubles, [0] and [0.5] are
      doubles.  Magnitudes from [2^1024] on, where Python has [inf], and
      rationals below [2^-1075] that are not zero, which stand for the
      float zero, are not modelled.
    - A Python exception is a value [Raise e] of the result type [res];
      [try ... except] is [try_except].
    - Calls that leave the repository (the fuzzy scorer, the language
      model, [float()] on text, [str()] on numbers, the validation of
      the [is_count] field) are section variables. *)

From Stdlib Require Import ZArith QArith Qround Qabs List NArith Lia String Ascii Bool.
From Stdlib Require Import Permutation Sorted DecimalString DecimalNat Lqa.
From Stdlib Require Import Qpower Qfield.
From stdpp Require Import gmap strings.
Import ListNotations.

Set Implicit Arguments.
Unset Strict Implicit.

(* ================================================================== *)
(** ** Python values: strings, numbers, exceptions                     *)
(* ================================================================== *)

Module Py.

(** A [str]: the sequence of its code points. *)
Definition pystr : Type := list N.

(** A string literal of the source. *)
Definition lit (s : string) : pystr := map N_of_ascii (list_ascii_of_string s).

Definition cp_between (lo hi c : N) : bool := (lo <=? c)%N && (c <=? hi)%N.

(** Code points the character tables below are exact on. *)
Definition cjk (c : N) : bool := cp_between 0x4e00 0x9fff c.
Definition tabulated (c : N) : bool := (c <? 128)%N || cjk c.
Definition in_tables (s : pystr) : Prop := Forall (fun c => tabulated c = true) s.

(** [str.isspace] per code point: TAB..CR, FS..US and SPACE. *)
Definition is_space (c : N) : bool :=
  cp_between 9 13 c || cp_between 28 32 c.

(** The class [\w] of [re] on [str] patterns: alphanumeric or underscore. *)
Definition is_word (c : N) : bool :=
  cp_between 48 57 c || cp_between 65 90 c || cp_between 97 122 c
  || (c =? 95)%N || cjk c.

Definition lower_cp (c : N) : N := if cp_between 65 90 c then (c + 32)%N else c.
Definition upper_cp (c : N) : N := if cp_between 97 122 c then (c - 32)%N else c.

(** [s.lower()] and [s.upper()]. *)
Definition py_lower (s : pystr) : pystr := map lower_cp s.
Definition py_upper (s : pystr) : pystr := map upper_cp s.

(** [unicodedata.normalize('NFKC', s)]: every tabulated code point is its
    own NFKC form. *)
Definition nfkc (s : pystr) : pystr := s.

(** [s.lstrip()], [s.rstrip()], [s.strip()]. *)
Fixpoint py_lstrip (s : pystr) : pystr :=
  match s with
  | [] => []
  | c :: s' => if is_space c then py_lstrip s' else s
  end.

Fixpoint py_rstrip (s : pystr) : pystr :=
  match s with
  | [] => []
  | c :: s' =>
      match py_rstrip s' with
      | [] => if is_space c then [] else [c]
      | r => c :: r
      end
  end.

Definition py_strip (s : pystr) : pystr := py_rstrip (py_lstrip s).

(** [s.startswith(p)] and [s.endswith(p)]. *)
Fixpoint startswith (p s : pystr) : bool :=
  match p, s with
  | [], _ => true
  | _ :: _, [] => false
  | a :: p', b :: s' => (a =? b)%N && startswith p' s'
  end.

Definition endswith (p s : pystr) : bool := startswith (rev p) (rev s).

(** [s[n:]] and [s[:-n]] for [n = len(p)]; [s[:-0]] is empty. *)
Definition slice_from (n : nat) (s : pystr) : pystr := skipn n s.
Definition slice_to_neg (n : nat) (s : pystr) : pystr :=
  match n with
  | O => []
  | _ => firstn (length s - n) s
  end.

(** [a in s] on strings. *)
Fixpoint py_in (a s : pystr) : bool :=
  startswith a s ||
  match s with
  | [] => false
  | _ :: s' => py_in a s'
  end.

(** [s.split()]: the maximal runs of non-whitespace. *)
Fixpoint py_split (s : pystr) : list pystr :=
  match s with
  | [] => []
  | c :: s' =>
      if is_space c then py_split s'
      else match s' with
           | [] => [[c]]
           | d :: _ =>
               if is_space d then [c] :: py_split s'
               else match py_split s' with
                    | w :: ws => (c :: w) :: ws
                    | [] => [[c]]
                    end
           end
  end.

(** [sep.join(ws)]. *)
Fixpoint py_join (sep : pystr) (ws : list pystr) : pystr :=
  match ws with
  | [] => []
  | [w] => w
  | w :: ws' => w ++ sep ++ py_join sep ws'
  end.

(** Truth value of a string. *)
Definition nonempty (s : pystr) : bool :=
  match s with [] => false | _ => true end.

(** Exceptions, and results of code that may raise. *)
Inductive exn : Type :=
| TypeError | ValueError | IndexError | KeyError | AttributeError | ExternalError.

Inductive res (A : Type) : Type :=
| Ok (a : A)
| Raise (e : exn).
Arguments Raise {A} e.

Definition bind {A B : Type} (m : res A) (k : A -> res B) : res B :=
  match m with
  | Ok a => k a
  | Raise e => Raise e
  end.

(** [try: body / except Exception: handler]. *)
Definition try_except {A : Type} (body : res A) (handler : exn -> A) : A :=
  match body with
  | Ok a => a
  | Raise e => handler e
  end.

(** Booleans over [Q]. *)
Definition Qltb (x y : Q) : bool := negb (Qle_bool y x).
Definition Qnonzero (x : Q) : bool := negb (Qeq_bool x 0).

(** [int(x)] on a float: truncation towards zero. *)
Definition py_int (x : Q) : Z := Z.quot (Qnum x) (Zpos (Qden x)).

(** The nearest integer, a tie to the even one. *)
Definition round_half_even (x : Q) : Z :=
  let f := Qfloor x in
  let r := (x - inject_Z f)%Q in
  if Qltb r (1 # 2) then f
  else if Qltb (1 # 2) r then (f + 1)%Z
  else if Z.even f then f else (f + 1)%Z.

(** *** Floats *)

(** [floor(log2(a))] for a positive [a]. *)
Definition ilog2 (a : Q) : Z :=
  let k := (Z.log2 (Qnum a) - Z.log2 (Zpos (Qden a)))%Z in
  if Qle_bool (2 ^ k)%Q a then k else (k - 1)%Z.

(** The double nearest to a positive number: 53 bits from the leading
    one, or the subnormal grid of step [2^-1074] below [2^-1022]. *)
Definition round_magnitude (a : Q) : Q :=
  let e := Z.max (ilog2 a - 52) (-1074) in
  Qred (inject_Z (round_half_even (a / 2 ^ e)%Q) * 2 ^ e)%Q.

(** [float(x)]: the nearest binary64 number, ties to even. *)
Definition double (x : Q) : Q :=
  if Qeq_bool x 0 then 0%Q
  else if Qltb x 0 then (- round_magnitude (Qabs x))%Q
  else round_magnitude (Qabs x).

(** [x + y], [x - y], [x * y] and [x / y] on floats; where the source
    divides, the divisor is not zero. *)
Definition fadd (x y : Q) : Q := double (double x + double y)%Q.
Definition fsub (x y : Q) : Q := double (double x - double y)%Q.
Definition fmul (x y : Q) : Q := double (double x * double y)%Q.
Definition fdiv (x y : Q) : Q := double (double x / double y)%Q.

(** The relative error of one rounding, and the absolute error on the
    subnormal grid. *)
Definition unit_roundoff : Q := (2 ^ (-53))%Q.
Definition tiny : Q := (2 ^ (-1075))%Q.

Arguments round_magnitude : simpl never.
Arguments double : simpl never.
Arguments fadd : simpl never.
Arguments fsub : simpl never.
Arguments fmul : simpl never.
Arguments fdiv : simpl never.

(** [round(x, 2)]: the decimal with two places nearest to the value of
    the double [x], a tie to the even one; the result stands for the
    double nearest to that decimal. *)
Definition py_round2 (x : Q) : Q := Qmake (round_half_even (double x * 100)%Q) 100.

End Py.

Declare Scope res_scope.
Delimit Scope res_scope with res.
Notation "'do' x <- e ; k" := (Py.bind e (fun x => k))
  (at level 10, x name, e at level 100, k at level 200) : res_scope.

(* ================================================================== *)
(** ** models/data_models.py                                           *)
(* ================================================================== *)

(** [Customer]: the fields the loader sets. *)
Module Customer.
Record t : Type := mk {
  name : Py.pystr;
  price_per_ton : Q;
  formula : Py.pystr;
  company_amount : option Q;
  worker_amount : option Q
}.
End Customer.

(** [InvoiceData]. *)
Module InvoiceData.
Record t : Type := mk {
  date : Py.pystr;
  invoice_no : Py.pystr;
  customer_name : Py.pystr;
  weight_kg : Z;
  price_per_unit : Q;
  total_amount : Q;
  company_amount : option Q;
  worker_amount : option Q;
  source_file : Py.pystr;
  confidence : Q;
  is_count : bool
}.
End InvoiceData.

(* ================================================================== *)
(** ** knowledge_base/kb_manager.py                                    *)
(* ================================================================== *)

(** One entry of the list [find_customer_matches] returns (the
    [metadata] entry repeats the same values as text). *)
Module Match.
Record t : Type := mk {
  customer_name : Py.pystr;
  price_per_ton : Q;
  formula : Py.pystr;
  company_amount : option Q;
  worker_amount : option Q;
  confidence_score : Q
}.
End Match.

Module KnowledgeBase.
Import Py.
Local Open Scope res_scope.

Definition prefixes_to_remove : list pystr :=
  map lit ["mr."; "mrs."; "ms."; "en."; "pn."; "dr."; "prof."]%string.

Definition suffixes_to_remove : list pystr :=
  map lit ["sdn bhd"; "sdn.bhd."; "bhd"; "pte ltd"; "ltd"; "inc"; "corp"]%string.

(** One turn of the prefix loop:
    [if cleaned.startswith(prefix): cleaned = cleaned[len(prefix):].strip()]. *)
Definition remove_prefix (cleaned prefix : pystr) : pystr :=
  if startswith prefix cleaned
  then py_strip (slice_from (length prefix) cleaned)
  else cleaned.

(** One turn of the suffix loop:
    [if cleaned.endswith(suffix): cleaned = cleaned[:-len(suffix)].strip()]. *)
Definition remove_suffix (cleaned suffix : pystr) : pystr :=
  if endswith suffix cleaned
  then py_strip (slice_to_neg (length suffix) cleaned)
  else cleaned.

(** The characters the class [[^\w\s\u4e00-\u9fff@&().-]] does not match. *)
Definition kept (c : N) : bool :=
  is_word c || is_space c || cjk c
  || existsb (N.eqb c) (lit "@&().-"%string).

(** [re.sub(r'[^\w\s\u4e00-\u9fff@&().-]', ' ', cleaned)]. *)
Definition sub_special (cleaned : pystr) : pystr :=
  map (fun c => if kept c then c else 32%N) cleaned.

Definition clean_name_for_matching (name : pystr) : pystr :=
  if nonempty name then
    let cleaned := py_strip (py_lower name) in
    let cleaned := fold_left remove_prefix prefixes_to_remove cleaned in
    let cleaned := fold_left remove_suffix suffixes_to_remove cleaned in
    let cleaned := sub_special cleaned in
    let cleaned := nfkc cleaned in
    py_join (lit " "%string) (py_split cleaned)
  else [].

(** *** The fuzzy lookup *)

(** An entry of [customer_data]. *)
Record item : Type := {
  original_name : pystr;
  cleaned_name : pystr;
  customer : Customer.t
}.

Definition result_of (c : Customer.t) (score : Z) : Match.t :=
  {| Match.customer_name := Customer.name c;
     Match.price_per_ton := Customer.price_per_ton c;
     Match.formula := Customer.formula c;
     Match.company_amount := Customer.company_amount c;
     Match.worker_amount := Customer.worker_amount c;
     Match.confidence_score := fdiv (inject_Z score) 100 |}.

(** The inner loop of [find_customer_matches]: the first entry whose
    cleaned name is the match string, then [break]. *)
Definition first_with_cleaned_name (match_name : pystr) (customer_data : list item)
  : option item :=
  List.find (fun it => bool_decide (cleaned_name it = match_name)) customer_data.

Section Lookup.

(** [process.extract(query, choices, scorer=fuzz.ratio, limit=k)] of
    fuzzywuzzy: pairs of a choice and its score out of 100. *)
Variable extract : pystr -> list pystr -> nat -> res (list (pystr * Z)).

Definition customer_data_of (customers : list Customer.t) : list item :=
  map (fun c => {| original_name := Customer.name c;
                   cleaned_name := clean_name_for_matching (Customer.name c);
                   customer := c |}) customers.

Definition results_of_matches (customer_data : list item) (matches : list (pystr * Z))
  : list Match.t :=
  flat_map (fun m : pystr * Z =>
              match first_with_cleaned_name (fst m) customer_data with
              | Some it => [result_of (customer it) (snd m)]
              | None => []
              end) matches.

Definition find_customer_matches (customers : list Customer.t)
    (extracted_name : pystr) (k : nat) : list Match.t :=
  try_except
    (match customers with
     | [] => Ok []
     | _ =>
         let cleaned_extracted := clean_name_for_matching extracted_name in
         let customer_data := customer_data_of customers in
         let cleaned_names := map cleaned_name customer_data in
         do matches <- extract cleaned_extracted cleaned_names k;
         Ok (results_of_matches customer_data matches)
     end)
    (fun _ => []).

(** Every entry [find_customer_matches] builds has its price and its
    score, so the loop that fills in missing fields changes nothing. *)
Definition search_similar_customers (customers : list Customer.t)
    (query : pystr) (top_k : nat) : list Match.t :=
  try_except
    (match customers with
     | [] => Ok []
     | _ => Ok (find_customer_matches customers query top_k)
     end)
    (fun _ => []).

End Lookup.

(** *** Loading the price list *)

(** The value of a worksheet cell: empty, a number or text. *)
Inductive cell : Type :=
| CEmpty
| CNum (q : Q)
| CText (s : pystr).

(** [col_mappings]: the column of each recognised header. *)
Record col_mappings : Type := {
  col_name : option nat;
  col_price_per_ton : option nat;
  col_formula : option nat;
  col_company_amount : option nat;
  col_worker_amount : option nat
}.

Definition cell_truthy (v : cell) : bool :=
  match v with
  | CEmpty => false
  | CNum q => Qnonzero q
  | CText s => nonempty s
  end.

(** [row[i]]. *)
Definition index (row : list cell) (i : nat) : res cell :=
  match nth_error row i with
  | Some v => Ok v
  | None => Raise IndexError
  end.

Section Loader.
Local Open Scope Q_scope.

(** [float(s)] on text ([None]: [ValueError]) and [str(x)] on a number. *)
Variable float_of_text : pystr -> option Q.
Variable str_of_num : Q -> pystr.

Definition cell_float (v : cell) : res Q :=
  match v with
  | CEmpty => Raise TypeError
  | CNum q => Ok q
  | CText s => match float_of_text s with
               | Some q => Ok q
               | None => Raise ValueError
               end
  end.

Definition cell_str (v : cell) : pystr :=
  match v with
  | CEmpty => lit "None"%string
  | CNum q => str_of_num q
  | CText s => s
  end.

Definition read_price (cols : col_mappings) (row : list cell) : res Q :=
  match col_price_per_ton cols with
  | None => Ok 0
  | Some j =>
      do price_cell <- index row j;
      Ok (match price_cell with
          | CEmpty => 0
          | v => try_except (cell_float v) (fun _ => 0)
          end)
  end.

Definition read_formula (cols : col_mappings) (row : list cell) : res pystr :=
  match col_formula cols with
  | None => Ok (lit "WEIGHT_PRICE"%string)
  | Some j =>
      do formula_cell <- index row j;
      Ok (if cell_truthy formula_cell
          then py_strip (cell_str formula_cell)
          else lit "WEIGHT_PRICE"%string)
  end.

Definition read_company (cols : col_mappings) (row : list cell) : res (option Q) :=
  match col_company_amount cols with
  | None => Ok None
  | Some j =>
      do company_cell <- index row j;
      Ok (match company_cell with
          | CEmpty => None
          | v => try_except
                   (do company_value <- cell_float v;
                    Ok (if Qltb 0 company_value then Some company_value else None))
                   (fun _ => None)
          end)
  end.

(** [round(price_per_ton - company_amount, 2)] when the price is positive
    and the company amount is known. *)
Definition derived_worker (price_per_ton : Q) (company_amount : option Q) : option Q :=
  match company_amount with
  | Some ca =>
      if Qltb 0 price_per_ton then Some (py_round2 (fsub price_per_ton ca)) else None
  | None => None
  end.

Definition read_worker (cols : col_mappings) (row : list cell)
    (price_per_ton : Q) (company_amount : option Q) : res (option Q) :=
  match col_worker_amount cols with
  | None => Ok None
  | Some j =>
      do worker_cell <- index row j;
      Ok (match worker_cell with
          | CEmpty => None
          | v => try_except
                   (do worker_value <- cell_float v;
                    Ok (if Qltb 0 worker_value then Some (py_round2 worker_value) else None))
                   (fun _ => derived_worker price_per_ton company_amount)
          end)
  end.

(** The body of the row loop; [None] is [continue]. *)
Definition customer_of_row (cols : col_mappings) (row : list cell) : option Customer.t :=
  try_except
    (match col_name cols with
     | None => Ok None
     | Some i =>
         do name_cell <- index row i;
         if negb (cell_truthy name_cell)
            || negb (nonempty (py_strip (cell_str name_cell)))
         then Ok None
         else
           let name := py_strip (cell_str name_cell) in
           do price_per_ton <- read_price cols row;
           do formula <- read_formula cols row;
           do company_amount <- read_company cols row;
           do worker_amount <- read_worker cols row price_per_ton company_amount;
           let worker_amount :=
             match worker_amount with
             | None => derived_worker price_per_ton company_amount
             | Some w => Some w
             end in
           Ok (Some (Customer.mk name price_per_ton formula company_amount worker_amount))
     end)
    (fun _ => None).

(** The customers of the data rows; no customer at all is an error. *)
Definition load_rows (cols : col_mappings) (rows : list (list cell)) : res (list Customer.t) :=
  let customers := flat_map (fun row => match customer_of_row cols row with
                                        | Some c => [c]
                                        | None => []
                                        end) rows in
  match customers with
  | [] => Raise ValueError
  | _ => Ok customers
  end.

End Loader.

(** *** The worksheet of the price list and its header row *)

(** A worksheet: its rows from the first one; a workbook: its sheets with
    their names, in order. *)
Definition worksheet : Type := list (list cell).
Definition workbook : Type := list (pystr * worksheet).

(** The first sheet whose lower-cased name holds 'price' or 'formula'. *)
Definition find_worksheet (wb : workbook) : option worksheet :=
  match List.find (fun sh : pystr * worksheet =>
                     existsb (fun keyword => py_in keyword (py_lower (fst sh)))
                       [lit "price"%string; lit "formula"%string]) wb with
  | Some sh => Some (snd sh)
  | None => None
  end.

(** The keys of [col_mappings]. *)
Inductive field : Type :=
| f_name | f_price_per_ton | f_formula | f_company_amount | f_worker_amount.

Definition no_columns : col_mappings :=
  {| col_name := None; col_price_per_ton := None; col_formula := None;
     col_company_amount := None; col_worker_amount := None |}.

(** [col_mappings[f] = col_idx] and [col_mappings.get(f)]. *)
Definition set_column (cols : col_mappings) (f : field) (col_idx : nat) : col_mappings :=
  match f with
  | f_name =>
      {| col_name := Some col_idx; col_price_per_ton := col_price_per_ton cols;
         col_formula := col_formula cols; col_company_amount := col_company_amount cols;
         col_worker_amount := col_worker_amount cols |}
  | f_price_per_ton =>
      {| col_name := col_name cols; col_price_per_ton := Some col_idx;
         col_formula := col_formula cols; col_company_amount := col_company_amount cols;
         col_worker_amount := col_worker_amount cols |}
  | f_formula =>
      {| col_name := col_name cols; col_price_per_ton := col_price_per_ton cols;
         col_formula := Some col_idx; col_company_amount := col_company_amount cols;
         col_worker_amount := col_worker_amount cols |}
  | f_company_amount =>
      {| col_name := col_name cols; col_price_per_ton := col_price_per_ton cols;
         col_formula := col_formula cols; col_company_amount := Some col_idx;
         col_worker_amount := col_worker_amount cols |}
  | f_worker_amount =>
      {| col_name := col_name cols; col_price_per_ton := col_price_per_ton cols;
         col_formula := col_formula cols; col_company_amount := col_company_amount cols;
         col_worker_amount := Some col_idx |}
  end.

Definition column (cols : col_mappings) (f : field) : option nat :=
  match f with
  | f_name => col_name cols
  | f_price_per_ton => col_price_per_ton cols
  | f_formula => col_formula cols
  | f_company_amount => col_company_amount cols
  | f_worker_amount => col_worker_amount cols
  end.

(** The [if]/[elif] chain on the text of a header. *)
Definition header_field (header_text : pystr) : option field :=
  if existsb (fun keyword => py_in keyword header_text)
       [lit "customer"%string; lit "name"%string]
  then Some f_name
  else if existsb (fun keyword => py_in keyword header_text)
            [lit "price"%string; lit "ton"%string]
  then Some f_price_per_ton
  else if py_in (lit "formula"%string) header_text
  then Some f_formula
  else if py_in (lit "company"%string) header_text
          && negb (py_in (lit "worker"%string) header_text)
  then Some f_company_amount
  else if py_in (lit "worker"%string) header_text
  then Some f_worker_amount
  else None.

(** A cell of the first row: only non-empty text is looked at. *)
Definition cell_field (v : cell) : option field :=
  match v with
  | CText s => if nonempty s then header_field (py_strip (py_lower s)) else None
  | _ => None
  end.

(** The loop over the cells of row [row_idx], from column [col_idx] on. *)
Fixpoint scan_cells (row : list cell) (row_idx col_idx : nat)
    (acc : col_mappings * option nat) : col_mappings * option nat :=
  match row with
  | [] => acc
  | v :: row' =>
      scan_cells row' row_idx (S col_idx)
        (match cell_field v with
         | Some f => (set_column (fst acc) f col_idx, Some row_idx)
         | None => acc
         end)
  end.

(** Only the first row is scanned: [iter_rows(min_row=1, max_row=1)],
    numbered from 1. *)
Definition scan_header (ws : worksheet) : col_mappings * option nat :=
  scan_cells (hd [] ws) 1 0 (no_columns, None).

(** How [load_from_excel] ends on an opened workbook: normally, or with
    [Exception("Error loading Excel: ...")] around the error raised. *)
Inductive load_outcome : Type :=
| Loaded
| Error_loading_Excel (e : exn).

Section Workbook.

Variable float_of_text : pystr -> option Q.
Variable str_of_num : Q -> pystr.

(** [load_from_excel] from the opened workbook on: the customers of the
    manager before and after, and the outcome.  The list of customers is
    cleared once the header row is found. *)
Definition load_from_workbook (wb : workbook) (customers : list Customer.t)
  : list Customer.t * load_outcome :=
  match find_worksheet wb with
  | None => (customers, Error_loading_Excel ValueError)
  | Some ws =>
      let (cols, header_row) := scan_header ws in
      match header_row with
      | None => (customers, Error_loading_Excel ValueError)
      | Some header_row =>
          match load_rows float_of_text str_of_num cols (skipn header_row ws) with
          | Ok loaded => (loaded, Loaded)
          | Raise e => ([], Error_loading_Excel e)
          end
      end
  end.

End Workbook.

(** *** Customers by name *)

Definition get_customer_by_name (customers : list Customer.t) (customer_name : pystr)
  : option Customer.t :=
  List.find (fun customer => bool_decide (Customer.name customer = customer_name)) customers.

(** The customers afterwards and the value returned. *)
Definition add_customer_variant (customers : list Customer.t)
    (customer_name : pystr) (price_per_ton : Q) (formula : pystr)
  : list Customer.t * bool :=
  match get_customer_by_name customers customer_name with
  | Some _ => (customers, false)
  | None =>
      (customers ++ [Customer.mk customer_name price_per_ton formula None None], true)
  end.


End KnowledgeBase.

(* ================================================================== *)
(** ** models/client_models.py: matching                               *)
(* ================================================================== *)

(** The [candidate] dictionary of [find_best_customer_match]. *)
Module Candidate.
Record t : Type := mk {
  customer_name : Py.pystr;
  similarity_score : Q;
  customer_price : Q;
  extracted_price : option Q;
  exact_price_match : bool;
  combined_confidence : Q
}.
End Candidate.

(** The dictionary [find_best_customer_match] returns, by its [status]. *)
Inductive decision : Type :=
| no_name_provided (confidence : Q)
| new_customer_detected (confidence : Q)
| match_found (matched_customer_name : Py.pystr) (confidence_score : Q)
    (original_name : Py.pystr) (price_match : bool)
    (extracted_price : option Q) (customer_price : Q).

Module Matcher.
Import Py.
Local Open Scope Q_scope.

(** [extracted_price and extracted_price > 0 and customer_price > 0]
    and [abs(extracted_price - customer_price) < 0.01]. *)
Definition is_exact_price (extracted_price : option Q) (customer_price : Q) : bool :=
  match extracted_price with
  | None => false
  | Some p =>
      Qnonzero p && Qltb 0 p && Qltb 0 customer_price
      && Qltb (Qabs (fsub p customer_price)) (double 0.01)
  end.

Definition candidate_of (extracted_price : option Q) (m : Match.t) : Candidate.t :=
  let customer_name := Match.customer_name m in
  let similarity_score := Match.confidence_score m in
  let customer_price := Match.price_per_ton m in
  let exact_price_match := is_exact_price extracted_price customer_price in
  Candidate.mk customer_name similarity_score customer_price extracted_price
    exact_price_match
    (if exact_price_match
     then fmul similarity_score 0.95
     else fmul similarity_score 0.7).

(** Step 2: the loop that fills [exact_price_matches] and
    [name_only_matches]. *)
Fixpoint separate (extracted_price : option Q) (vector_results : list Match.t)
  : list Candidate.t * list Candidate.t :=
  match vector_results with
  | [] => ([], [])
  | m :: rest =>
      let (exact_price_matches, name_only_matches) := separate extracted_price rest in
      let candidate := candidate_of extracted_price m in
      if Candidate.exact_price_match candidate
      then (candidate :: exact_price_matches, name_only_matches)
      else (exact_price_matches, candidate :: name_only_matches)
  end.

(** [l.sort(key=lambda x: x['combined_confidence'], reverse=True)]: the
    stable sort, largest key first. *)
Fixpoint insert_desc (c : Candidate.t) (l : list Candidate.t) : list Candidate.t :=
  match l with
  | [] => [c]
  | d :: l' =>
      if Qltb (Candidate.combined_confidence c) (Candidate.combined_confidence d)
      then d :: insert_desc c l'
      else c :: l
  end.

Definition sort_desc (l : list Candidate.t) : list Candidate.t :=
  fold_right insert_desc [] l.

Definition good_name_match (c : Candidate.t) : bool :=
  Qltb (double 0.6) (Candidate.combined_confidence c).

(** Step 3: [all_candidates]. *)
Definition all_candidates (vector_results : list Match.t) (extracted_price : option Q)
  : list Candidate.t :=
  let (exact_price_matches, name_only_matches) := separate extracted_price vector_results in
  sort_desc exact_price_matches
  ++ List.filter good_name_match (sort_desc name_only_matches).

(** The fallback of the arbiter when there is no model or the call
    raised: the first exact-price candidate, else the first candidate. *)
Definition first_exact (candidates : list Candidate.t) : option pystr :=
  match List.filter Candidate.exact_price_match candidates with
  | c :: _ => Some (Candidate.customer_name c)
  | [] => None
  end.

Definition fallback (candidates : list Candidate.t) : option pystr :=
  match first_exact candidates with
  | Some n => Some n
  | None =>
      match candidates with
      | c :: _ => Some (Candidate.customer_name c)
      | [] => None
      end
  end.

(** [self.model.generate_content(prompt)] followed by [response.text]:
    the prompt is written from the query name, the candidates and the
    extracted price. *)
Definition generate : Type := pystr -> list Candidate.t -> option Q -> res pystr.

Section Client.

(** [self.model] ([None] when the set-up failed), the customers of
    [self.kb_manager] and the fuzzy scorer behind it. *)
Variable model : option generate.
Variable customers : list Customer.t.
Variable extract : pystr -> list pystr -> nat -> res (list (pystr * Z)).

(** The answer of the model, read against the candidates. *)
Definition read_answer (candidates : list Candidate.t) (text : pystr) : option pystr :=
  let ai_response := py_strip text in
  if bool_decide (py_upper ai_response = lit "NONE"%string) then None
  else
    match List.find (fun c => py_in (py_lower (Candidate.customer_name c))
                                    (py_lower ai_response)) candidates with
    | Some c => Some (Candidate.customer_name c)
    | None => first_exact candidates
    end.

Definition _ai_choose_best_match_with_price (original_name : pystr)
    (candidates : list Candidate.t) (extracted_price : option Q) : option pystr :=
  match model, candidates with
  | None, _ | _, [] => fallback candidates
  | Some generate_content, _ =>
      try_except
        (do text <- generate_content original_name candidates extracted_price;
         Ok (read_answer candidates text))%res
        (fun _ => fallback candidates)
  end.

(** [next((c for c in top_candidates if c['customer_name'] == ai_choice), None)] *)
Definition chosen_by_name (top_candidates : list Candidate.t) (ai_choice : pystr)
  : option Candidate.t :=
  List.find (fun c => bool_decide (Candidate.customer_name c = ai_choice)) top_candidates.

Definition find_best_customer_match (extracted_name : pystr) (extracted_price : option Q)
  : res decision :=
  if negb (nonempty extracted_name) then Ok (no_name_provided 0)
  else
    match KnowledgeBase.search_similar_customers extract customers extracted_name 10 with
    | [] => Ok (new_customer_detected 0)
    | vector_results =>
        match all_candidates vector_results extracted_price with
        | [] => Ok (new_customer_detected 0)
        | all =>
            let top_candidates := firstn 3 all in
            match _ai_choose_best_match_with_price extracted_name top_candidates
                    extracted_price with
            | None => Ok (new_customer_detected 0)
            | Some ai_choice =>
                if nonempty ai_choice then
                  match chosen_by_name top_candidates ai_choice with
                  | Some chosen_candidate =>
                      if Qle_bool 0.5 (Candidate.combined_confidence chosen_candidate)
                      then Ok (match_found ai_choice
                                 (Candidate.combined_confidence chosen_candidate)
                                 extracted_name
                                 (Candidate.exact_price_match chosen_candidate)
                                 extracted_price
                                 (Candidate.customer_price chosen_candidate))
                      else Ok (new_customer_detected 0)
                  | None =>
                      (* the rejection message subscripts [chosen_candidate] *)
                      Raise TypeError
                  end
                else Ok (new_customer_detected 0)
            end
        end
    end.

End Client.

End Matcher.

(* ================================================================== *)
(** ** Extracted records                                               *)
(* ================================================================== *)

(** A value of a record read from JSON, and the record itself: a
    dictionary from keys to values. *)
Inductive pyval : Type :=
| PyNone
| PyBool (b : bool)
| PyNum (q : Q)
| PyStr (s : Py.pystr).

Module Dict.
Import Py.
Local Open Scope Q_scope.

(** [data.get(key)]: [None] for a missing key. *)
Definition get (data : gmap string pyval) (key : string) : pyval :=
  match data !! key with
  | Some v => v
  | None => PyNone
  end.

(** [data.get(key, default)]. *)
Definition get_default (data : gmap string pyval) (key : string) (default : pyval) : pyval :=
  match data !! key with
  | Some v => v
  | None => default
  end.

Definition truthy (v : pyval) : bool :=
  match v with
  | PyNone => false
  | PyBool b => b
  | PyNum q => Qnonzero q
  | PyStr s => nonempty s
  end.

Definition is_none (v : pyval) : bool :=
  match v with PyNone => true | _ => false end.

(** [v == n] for a number [n]. *)
Definition eq_num (v : pyval) (n : Q) : bool :=
  match v with
  | PyNum q => Qeq_bool q n
  | PyBool b => Qeq_bool (if b then 1 else 0) n
  | _ => false
  end.

(** [v == s] for a string [s]. *)
Definition eq_str (v : pyval) (s : pystr) : bool :=
  match v with
  | PyStr t => bool_decide (t = s)
  | _ => false
  end.

End Dict.

(* ================================================================== *)
(** ** models/client_models.py: the extraction client                  *)
(* ================================================================== *)

Module Ocr.
Import Py Dict.
Local Open Scope Q_scope.

Definition weight_based_keywords : list pystr :=
  map lit ["memetik"; "tandan"; "sawit"; "pengangkutan"; "sewa"; "lori"]%string.

Definition _determine_is_count (service_type : pystr) : bool :=
  let service_lower := if nonempty service_type then py_lower service_type else [] in
  if existsb (fun keyword => py_in keyword service_lower) weight_based_keywords
  then false
  else true.

(** [record.get('service_type', '')] where a string is expected. *)
Definition service_type_of (record : gmap string pyval) : res pystr :=
  match get_default record "service_type" (PyStr []) with
  | PyStr s => Ok s
  | _ => Raise AttributeError
  end.

(** The body of the loop over the parsed records of one image. *)
Definition post_process (record : gmap string pyval) : res (gmap string pyval) :=
  (do service_type <- service_type_of record;
   let record :=
     match record !! "is_count" with
     | Some _ => record
     | None => <["is_count" := PyBool (_determine_is_count service_type)]> record
     end in
   if py_in (lit "lain"%string) (py_lower service_type) then
     if negb (eq_num (get_default record "weight_kg" (PyNum 0)) 1) then
       let extracted_price := get_default record "weight_kg" (PyNum 10) in
       let record := <["weight_kg" := PyNum 1]> record in
       let record :=
         if eq_num (get_default record "price_per_ton" (PyNum 0)) 0
         then <["price_per_ton" := extracted_price]> record
         else record in
       do price <- match record !! "price_per_ton" with
                   | Some v => Ok v
                   | None => Raise KeyError
                   end;
       Ok (<["total" := price]> record)
     else Ok record
   else Ok record)%res.

End Ocr.

(* ================================================================== *)
(** ** api/main.py: the record loop of process_invoices                *)
(* ================================================================== *)

Module Api.
Import Py Dict.
Local Open Scope Q_scope.

(** The three lists the loop fills. *)
Record lists : Type := {
  invoice_objects : list InvoiceData.t;
  fuzzy_matches : list (pystr * pystr * Q);
  new_customers : list pystr
}.

Section Loop.

(** [float(s)] on text ([None]: [ValueError]), [str(x)] on a number, and
    the validation of the field [is_count: bool] by the data model. *)
Variable float_of_text : pystr -> option Q.
Variable str_of_num : Q -> pystr.
Variable validate_bool : pyval -> option bool.

(** [float(v)]. *)
Definition py_float (v : pyval) : res Q :=
  match v with
  | PyNone => Raise TypeError
  | PyBool b => Ok (if b then 1 else 0)
  | PyNum q => Ok q
  | PyStr s => match float_of_text s with
               | Some q => Ok q
               | None => Raise ValueError
               end
  end.

(** [str(v)]. *)
Definition py_str (v : pyval) : pystr :=
  match v with
  | PyNone => lit "None"%string
  | PyBool true => lit "True"%string
  | PyBool false => lit "False"%string
  | PyNum q => str_of_num q
  | PyStr s => s
  end.

Definition final_customer_name_of (original_name matched_name : pystr) : pystr :=
  if nonempty matched_name && negb (bool_decide (matched_name = original_name))
  then matched_name
  else original_name.

(** The fallback: a zero weight is computed back from total and price. *)
Definition resolve_weight (is_count : pyval) (weight_kg : Z)
    (price_per_unit total_amount : Q) : Z :=
  if (weight_kg =? 0)%Z && Qltb 0 total_amount && Qltb 0 price_per_unit then
    let calculated_weight :=
      if truthy is_count
      then fdiv total_amount price_per_unit
      else fdiv (fmul total_amount 1000) price_per_unit in
    py_int calculated_weight
  else weight_kg.

(** [float(data.get(key))] inside its own [try], [None] on failure. *)
Definition optional_amount (data : gmap string pyval) (key : string) : option Q :=
  if is_none (get data key) then None
  else try_except (do x <- py_float (get data key); Ok (Some x))%res (fun _ => None).

(** The inner [try] block: weight, price, total and the two amounts. *)
Definition numeric_fields (data : gmap string pyval) (is_count : pyval)
  : res (Z * Q * Q * option Q * option Q) :=
  (do weight_kg <-
      (if is_none (get data "weight_kg") then Ok 0%Z
       else do w <- py_float (get_default data "weight_kg" (PyNum 0)); Ok (py_int w));
   do price_per_unit <-
      (if is_none (get data "price_per_ton") then Ok 0
       else py_float (get_default data "price_per_ton" (PyNum 0)));
   do total_amount <-
      (if truthy (get data "total") || truthy (get data "calculated_total")
       then py_float (get_default data "total"
                        (get_default data "calculated_total" (PyNum 0)))
       else Ok 0);
   let weight_kg := resolve_weight is_count weight_kg price_per_unit total_amount in
   let company_amount := optional_amount data "company_amount" in
   let worker_amount := optional_amount data "worker_amount" in
   Ok (weight_kg, price_per_unit, total_amount, company_amount, worker_amount))%res.

(** The body of [for data in processed_data]; an exception or a
    [continue] leaves the lists as they are at that point. *)
Definition process_record (acc : lists) (data : gmap string pyval) : lists :=
  let original_name := py_strip (py_str (get_default data "customer_name" (PyStr []))) in
  let matched_name := py_strip (py_str (get_default data "matched_customer_name" (PyStr []))) in
  let invoice_no := py_strip (py_str (get_default data "invoice_no" (PyStr []))) in
  let date := py_strip (py_str (get_default data "date" (PyStr []))) in
  let is_count := get_default data "is_count" (PyBool true) in
  let final_customer_name := final_customer_name_of original_name matched_name in
  if negb (nonempty final_customer_name)
     || bool_decide (final_customer_name = lit "Unknown"%string)
  then acc
  else
    let acc :=
      if eq_str (get data "status") (lit "new_customer_detected"%string)
      then {| invoice_objects := invoice_objects acc;
              fuzzy_matches := fuzzy_matches acc;
              new_customers := new_customers acc ++ [original_name] |}
      else acc in
    let tracked : res lists :=
      if nonempty matched_name && negb (bool_decide (matched_name = original_name))
         && nonempty original_name
      then (do confidence <- py_float (get_default data "confidence_score" (PyNum 0.85));
            Ok {| invoice_objects := invoice_objects acc;
                  fuzzy_matches := fuzzy_matches acc
                                   ++ [(original_name, matched_name, confidence)];
                  new_customers := new_customers acc |})%res
      else Ok acc in
    match tracked with
    | Raise _ => acc
    | Ok acc =>
        match numeric_fields data is_count with
        | Raise _ => acc
        | Ok (weight_kg, price_per_unit, total_amount, company_amount, worker_amount) =>
            match validate_bool is_count with
            | None => acc
            | Some is_count_field =>
                let invoice_obj :=
                  InvoiceData.mk date invoice_no final_customer_name weight_kg
                    price_per_unit total_amount company_amount worker_amount
                    (py_str (get_default data "source_file" (PyStr [])))
                    0.95 is_count_field in
                {| invoice_objects := invoice_objects acc ++ [invoice_obj];
                   fuzzy_matches := fuzzy_matches acc;
                   new_customers := new_customers acc |}
            end
        end
    end.

Definition process_records (processed_data : list (gmap string pyval)) : lists :=
  fold_left process_record processed_data
    {| invoice_objects := []; fuzzy_matches := []; new_customers := [] |}.

End Loop.

End Api.

(* ================================================================== *)
(** ** models/client_models.py: the records of one image               *)
(* ================================================================== *)

Module Processor.
Import Py Dict Matcher.
Local Open Scope Q_scope.

(** An optional price as a value of a dict. *)
Definition price_value (extracted_price : option Q) : pyval :=
  match extracted_price with
  | Some q => PyNum q
  | None => PyNone
  end.

(** The dict [find_best_customer_match] returns. *)
Definition match_result_of (d : decision) : gmap string pyval :=
  match d with
  | no_name_provided c =>
      <["status" := PyStr (lit "no_name_provided"%string)]>
      (<["confidence" := PyNum c]> ∅)
  | new_customer_detected c =>
      <["status" := PyStr (lit "new_customer_detected"%string)]>
      (<["confidence" := PyNum c]> ∅)
  | match_found n s original flag price cp =>
      <["status" := PyStr (lit "match_found"%string)]>
      (<["matched_customer_name" := PyStr n]>
      (<["confidence_score" := PyNum s]>
      (<["original_name" := PyStr original]>
      (<["price_match" := PyBool flag]>
      (<["extracted_price" := price_value price]>
      (<["customer_price" := PyNum cp]> ∅))))))
  end.

Section Image.

(** [float(s)] on text, the model, the customers and the scorer of the
    matcher, and [os.path.basename(image_path)]. *)
Variable float_of_text : pystr -> option Q.
Variable model : option generate.
Variable customers : list Customer.t.
Variable extract : pystr -> list pystr -> nat -> res (list (pystr * Z)).
Variable source_file : pystr.

(** [record.get("customer_name", "").strip()]. *)
Definition customer_name_of (record : gmap string pyval) : res pystr :=
  match get_default record "customer_name" (PyStr []) with
  | PyStr s => Ok (py_strip s)
  | _ => Raise AttributeError
  end.

(** [float(record.get("price_per_ton", 0)) if record.get("price_per_ton") else 0]. *)
Definition price_per_ton_of (record : gmap string pyval) : res Q :=
  if truthy (get record "price_per_ton")
  then Api.py_float float_of_text (get_default record "price_per_ton" (PyNum 0))
  else Ok 0.

(** The body of the loop over the records of an image, for the record
    numbered [i]; [None] is [continue].  The decision is merged over the
    record: [{**record, **match_result}]. *)
Definition process_record_of_image (i : nat) (record : gmap string pyval)
  : option (gmap string pyval) :=
  try_except
    (do customer_name <- customer_name_of record;
     do price_per_ton <- price_per_ton_of record;
     if negb (nonempty customer_name) then Ok None
     else
       do match_result <- find_best_customer_match model customers extract
                            customer_name (Some price_per_ton);
       let final_result := match_result_of match_result ∪ record in
       let final_result := <["source_file" := PyStr source_file]> final_result in
       let final_result :=
         <["record_index" := PyNum (inject_Z (Z.of_nat i))]> final_result in
       Ok (Some final_result))%res
    (fun _ => None).

(** [for i, record in enumerate(extracted_records, 1)]. *)
Fixpoint process_records_from (i : nat) (extracted_records : list (gmap string pyval))
  : list (gmap string pyval) :=
  match extracted_records with
  | [] => []
  | record :: rest =>
      match process_record_of_image i record with
      | Some final_result => final_result :: process_records_from (S i) rest
      | None => process_records_from (S i) rest
      end
  end.

Definition process_extracted_records (extracted_records : list (gmap string pyval))
  : list (gmap string pyval) :=
  process_records_from 1 extracted_records.

End Image.

End Processor.


(* ================================================================== *)
(** ** excel/excel_creator.py: the rows of the month sheet             *)
(* ================================================================== *)

Module Excel.
Import Py.

(** The value written to a cell: text (formulas are text that starts
    with [=]) or an integer. *)
Inductive value : Type :=
| VStr (s : pystr)
| VInt (z : Z).

(** [str(n)] for a row number. *)
Definition str_of_row (n : nat) : pystr :=
  lit (NilEmpty.string_of_uint (Nat.to_uint n)).

Definition is_digit (c : N) : bool := cp_between 48 57 c.

(** [re.findall(r'\d+', s)[0]] read as a number, [0] without digits. *)
Fixpoint read_digits (acc : Z) (s : pystr) : Z :=
  match s with
  | [] => acc
  | c :: s' => if is_digit c then read_digits (10 * acc + (Z.of_N c - 48)) s' else acc
  end.

Fixpoint _get_invoice_no_value_of (invoice_no : pystr) : Z :=
  match invoice_no with
  | [] => 0
  | c :: s' => if is_digit c then read_digits 0 invoice_no else _get_invoice_no_value_of s'
  end.

Definition _get_invoice_no_value (invoice : InvoiceData.t) : Z :=
  _get_invoice_no_value_of (InvoiceData.invoice_no invoice).

(** [sorted(invoices, key=self._get_invoice_no_value)]: stable, smallest
    key first. *)
Fixpoint insert_asc (x : InvoiceData.t) (l : list InvoiceData.t) : list InvoiceData.t :=
  match l with
  | [] => [x]
  | y :: l' =>
      if (_get_invoice_no_value y <? _get_invoice_no_value x)%Z
      then y :: insert_asc x l'
      else x :: l
  end.

Definition sorted_invoices (invoices : list InvoiceData.t) : list InvoiceData.t :=
  fold_right insert_asc [] invoices.

(** The weight written to column D: 1 for a "lain" customer. *)
Definition written_weight (invoice : InvoiceData.t) : Z :=
  let weight_kg := InvoiceData.weight_kg invoice in
  let customer_name := InvoiceData.customer_name invoice in
  if negb (weight_kg =? 1)%Z && py_in (lit "lain"%string) (py_lower customer_name)
  then 1%Z
  else weight_kg.

(** [row_data] of one invoice, written to row [current_row]. *)
Definition row_data (invoice : InvoiceData.t) (current_row : nat) : list value :=
  let r := str_of_row current_row in
  let per_1000 := if InvoiceData.is_count invoice then [] else lit "/1000"%string in
  let total_bills_formula := lit "=D"%string ++ r ++ lit "*E"%string ++ r ++ per_1000 in
  let company_formula := lit "=D"%string ++ r ++ lit "*G"%string ++ r ++ per_1000 in
  let worker_formula := lit "=D"%string ++ r ++ lit "*I"%string ++ r ++ per_1000 in
  [ VStr (InvoiceData.date invoice);
    VStr (InvoiceData.invoice_no invoice);
    VStr (InvoiceData.customer_name invoice);
    VInt (written_weight invoice);
    VStr (lit "=VLOOKUP(C"%string ++ r ++ lit ",'Price & Formula'!A:E,2,FALSE)"%string);
    VStr total_bills_formula;
    VStr (lit "=VLOOKUP(C"%string ++ r ++ lit ",'Price & Formula'!$A:$E,4,FALSE)"%string);
    VStr company_formula;
    VStr (lit "=VLOOKUP(C"%string ++ r ++ lit ",'Price & Formula'!$A:$E,5,FALSE)"%string);
    VStr worker_formula ].

(** The data rows of the sheet, from row 2 on. *)
Fixpoint rows_from (current_row : nat) (invoices : list InvoiceData.t) : list (list value) :=
  match invoices with
  | [] => []
  | invoice :: rest => row_data invoice current_row :: rows_from (S current_row) rest
  end.

Definition data_rows (invoices : list InvoiceData.t) : list (list value) :=
  rows_from 2 (sorted_invoices invoices).

(** *** The sheet "Price & Formula" *)

(** [formula_mapping]: formula codes and display texts to display texts. *)
Definition formula_mapping : list (pystr * pystr) :=
    (map (fun kv : string * string => (lit (fst kv), lit (snd kv)))
       [ ("WEIGHT_PRICE", "Weight x Price per ton/1000kg");
         ("Weight x Price per ton/1000kg", "Weight x Price per ton/1000kg");
         ("ADDITIONAL", "Additional");
         ("Additional", "Additional");
         ("BAJA", "Baja");
         ("Baja", "Baja");
         ("JCB", "JCB");
         ("LAIN_LAIN", "Lain Lain");
         ("Lain Lain", "Lain Lain");
         ("BAYARAN_GREDIR", "Lain Lain (Bayaran Gredir)");
         ("Lain Lain (Bayaran Gredir)", "Lain Lain (Bayaran Gredir)");
         ("MEMBAJA", "Membaja");
         ("Membaja", "Membaja");
         ("MEMOTONG_PELEPAH", "Memotong pelepah sawit");
         ("Memotong pelepah sawit", "Memotong pelepah sawit");
         ("MEMOTONG_PELEPAH_T", "Memotong pelepah sawit");
         ("Memotong pelepah sawit (T)", "Memotong pelepah sawit");
         ("MERACUN", "Meracun");
         ("Meracun", "Meracun");
         ("PAY_TO_GREDER", "Pay to Greder");
         ("Pay to Greder", "Pay to Greder");
         ("PENGANGKUTAN_LORI", "Pengangkutan Lori");
         ("Pengangkutan Lori", "Pengangkutan Lori");
         ("UPAH", "Upah");
         ("Upah", "Upah") ]%string).

(** [formula_mapping.get(key)]: the keys of the mapping are distinct. *)
Fixpoint mapping_get (items : list (pystr * pystr)) (key : pystr) : option pystr :=
  match items with
  | [] => None
  | (k, text) :: items' =>
      if bool_decide (k = key) then Some text else mapping_get items' key
  end.

(** [s.lstrip("=")]. *)
Fixpoint lstrip_equals (s : pystr) : pystr :=
  match s with
  | [] => []
  | c :: s' => if (c =? 61)%N then lstrip_equals s' else s
  end.

Definition _get_formula_display (formula : pystr) : pystr :=
  let clean_formula := if nonempty formula then lstrip_equals formula else [] in
  let result :=
    match mapping_get formula_mapping formula with
    | Some text => text
    | None =>
        match mapping_get formula_mapping clean_formula with
        | Some text => text
        | None =>
            if nonempty clean_formula then clean_formula
            else lit "Weight x Price per ton/1000kg"%string
        end
    end in
  if startswith (lit "="%string) result then slice_from 1 result else result.

Definition price_formula_headers : list pystr :=
  map lit ["Customer Name"; "Prices Per Ton"; "Formula"; "Company"; "Worker"]%string.

(** The cells of the row of one customer; text in the formula column
    that starts with [=] gets an apostrophe in front. *)
Definition price_formula_row (customer : Customer.t) : list KnowledgeBase.cell :=
  let formula_text := _get_formula_display (Customer.formula customer) in
  [ KnowledgeBase.CText (Customer.name customer);
    KnowledgeBase.CNum (if Qnonzero (Customer.price_per_ton customer)
                        then Customer.price_per_ton customer else 0%Q);
    KnowledgeBase.CText (if startswith (lit "="%string) formula_text
                         then lit "'"%string ++ formula_text
                         else formula_text);
    KnowledgeBase.CNum (match Customer.company_amount customer with
                        | Some q => q
                        | None => 0%Q
                        end);
    KnowledgeBase.CNum (match Customer.worker_amount customer with
                        | Some q => q
                        | None => 0%Q
                        end) ].

(** The sheet [_create_price_formula_sheet] adds, with its name: the
    header row, then a row for each customer. *)
Definition _create_price_formula_sheet (customers : list Customer.t)
  : pystr * KnowledgeBase.worksheet :=
  (lit "Price & Formula"%string,
   map KnowledgeBase.CText price_formula_headers :: map price_formula_row customers).


End Excel.

(* ================================================================== *)
(** * Notions the statements use                                       *)
(* ================================================================== *)

Module Spec.
Import Py KnowledgeBase Matcher Dict.
Local Open Scope Q_scope.

(** A character that is no whitespace. *)
Definition nonspace (c : N) : Prop := is_space c = false.

(** A word of [split]: not empty, without whitespace. *)
Definition word (w : pystr) : Prop := w <> [] /\ Forall nonspace w.

(** A character of a cleaned name: kept by the character class and its
    own lower case. *)
Definition settled (c : N) : Prop := kept c = true /\ lower_cp c = c.

(** What [clean_name_for_matching] returns: words of settled characters
    with single spaces between them. *)
Definition cleaned_shape (y : pystr) : Prop :=
  exists ws, y = py_join [32%N] ws
             /\ Forall (fun w => word w /\ Forall settled w) ws.

(** No listed title starts the string and no listed suffix ends it. *)
Definition without_title_or_suffix (y : pystr) : Prop :=
  Forall (fun prefix => startswith prefix y = false) prefixes_to_remove
  /\ Forall (fun suffix => endswith suffix y = false) suffixes_to_remove.

(** 1 for a string that starts with whitespace. *)
Definition leading_space (s : pystr) : nat :=
  match s with
  | c :: _ => if is_space c then 1%nat else 0%nat
  | [] => 0%nat
  end.

(** The entry of [customer_data] for a customer. *)
Definition item_of (c : Customer.t) : item :=
  {| original_name := Customer.name c;
     cleaned_name := clean_name_for_matching (Customer.name c);
     customer := c |}.

(** The customer at position [i] is the first of the catalogue with its
    cleaned name. *)
Definition first_of_cleaned_name (customers : list Customer.t) (i : nat) (c : Customer.t)
  : Prop :=
  nth_error customers i = Some c
  /\ forall j c', nth_error customers j = Some c' ->
       clean_name_for_matching (Customer.name c')
       = clean_name_for_matching (Customer.name c) ->
       (i <= j)%nat.

(** The highest-ranked exact-price match: the candidate at the least
    position among those with an exact price. *)
Definition highest_ranked_exact (candidates : list Candidate.t) (c : Candidate.t) : Prop :=
  exists i, nth_error candidates i = Some c
            /\ Candidate.exact_price_match c = true
            /\ forall j d, (j < i)%nat -> nth_error candidates j = Some d ->
                           Candidate.exact_price_match d = false.

(** No candidate has an exact price. *)
Definition no_exact (candidates : list Candidate.t) : Prop :=
  forall c, In c candidates -> Candidate.exact_price_match c = false.

(** The answer of the model names no candidate and is not "NONE". *)
Definition unreadable (candidates : list Candidate.t) (text : pystr) : Prop :=
  py_upper (py_strip text) <> lit "NONE"
  /\ forall c, In c candidates ->
       py_in (py_lower (Candidate.customer_name c)) (py_lower (py_strip text)) = false.

(** The fallback that ends on the top-ranked candidate: the
    highest-ranked exact-price candidate if there is one, else the
    top-ranked candidate. *)
Definition prefers_exact_else_top (candidates : list Candidate.t) (choice : option pystr)
  : Prop :=
  (exists c, highest_ranked_exact candidates c
             /\ choice = Some (Candidate.customer_name c))
  \/ (no_exact candidates
      /\ choice = option_map Candidate.customer_name (hd_error candidates)).

(** The fallback that ends on no candidate: the highest-ranked
    exact-price candidate if there is one, else nothing. *)
Definition prefers_exact_else_none (candidates : list Candidate.t) (choice : option pystr)
  : Prop :=
  (exists c, highest_ranked_exact candidates c
             /\ choice = Some (Candidate.customer_name c))
  \/ (no_exact candidates /\ choice = None).

(** The candidate the decision is taken on: the one the arbiter, or its
    fallback, named. *)
Definition selected (top_candidates : list Candidate.t) (ai_choice : option pystr)
  : option Candidate.t :=
  match ai_choice with
  | Some n => chosen_by_name top_candidates n
  | None => None
  end.

(** The decision, read off the selected candidate. *)
Definition decision_on (extracted_name : pystr) (extracted_price : option Q)
    (sel : option Candidate.t) : decision :=
  match sel with
  | Some c =>
      if Qle_bool 0.5 (Candidate.combined_confidence c)
      then match_found (Candidate.customer_name c) (Candidate.combined_confidence c)
             extracted_name (Candidate.exact_price_match c) extracted_price
             (Candidate.customer_price c)
      else new_customer_detected 0
  | None => new_customer_detected 0
  end.

(** The positive number the worker cell of a row holds, if it holds one. *)
Definition worker_cell_number (float_of_text : pystr -> option Q)
    (cols : col_mappings) (row : list cell) : option Q :=
  match col_worker_amount cols with
  | None => None
  | Some j =>
      match nth_error row j with
      | None | Some CEmpty => None
      | Some v =>
          match cell_float float_of_text v with
          | Ok q => if Qltb 0 q then Some q else None
          | Raise _ => None
          end
      end
  end.

(** The extracted weight is missing, null or a number that [int] sends
    to zero. *)
Definition weight_reads_zero (data : gmap string pyval) : Prop :=
  data !! "weight_kg" = None
  \/ data !! "weight_kg" = Some PyNone
  \/ exists w, data !! "weight_kg" = Some (PyNum w) /\ py_int w = 0%Z.

(** [a] ranks at least as high as [b] by combined confidence. *)
Definition outranks (a b : Candidate.t) : Prop :=
  Candidate.combined_confidence b <= Candidate.combined_confidence a.


(** The extracted price cannot match any customer price: it is missing,
    zero or negative. *)
Definition unusable_price (extracted_price : option Q) : Prop :=
  match extracted_price with
  | None => True
  | Some q => q <= 0
  end.

(** The call [process.extract] makes for a query against a catalogue. *)
Definition scorer_call (extract : pystr -> list pystr -> nat -> res (list (pystr * Z)))
    (customers : list Customer.t) (query : pystr) (k : nat) : res (list (pystr * Z)) :=
  extract (clean_name_for_matching query)
    (map (fun c => clean_name_for_matching (Customer.name c)) customers) k.

(** Cleaning a name [n] times in a row. *)
Definition clean_times (n : nat) (x : pystr) : pystr :=
  Nat.iter n clean_name_for_matching x.

(** [f] is the field a header cell stands for. *)
Definition is_header_of (f : field) (v : cell) : bool :=
  match cell_field v, f with
  | Some f_name, f_name
  | Some f_price_per_ton, f_price_per_ton
  | Some f_formula, f_formula
  | Some f_company_amount, f_company_amount
  | Some f_worker_amount, f_worker_amount => true
  | _, _ => false
  end.

(** The position of the last header of field [f] in a row. *)
Fixpoint last_header (f : field) (row : list cell) : option nat :=
  match row with
  | [] => None
  | v :: row' =>
      match last_header f row' with
      | Some i => Some (S i)
      | None => if is_header_of f v then Some 0%nat else None
      end
  end.

(** A name cell the row loop goes on with: a value that is true and
    whose text is not blank. *)
Definition usable_name (str_of_num : Q -> pystr) (v : cell) : bool :=
  cell_truthy v && nonempty (py_strip (cell_str str_of_num v)).

(** Every column of [cols] is a position of the row. *)
Definition columns_within (cols : col_mappings) (row : list cell) : Prop :=
  forall f j, column cols f = Some j -> (j < length row)%nat.

(** A number with at most two decimals. *)
Definition hundredths (q : Q) : Prop := exists z : Z, q = Qmake z 100.


(** An invoice the record loop may append: it has a name that is not
    empty, not "Unknown" and without white space at either end, and the
    fixed confidence. *)
Definition valid_invoice (inv : InvoiceData.t) : Prop :=
  InvoiceData.customer_name inv <> []
  /\ InvoiceData.customer_name inv <> lit "Unknown"%string
  /\ py_strip (InvoiceData.customer_name inv) = InvoiceData.customer_name inv
  /\ InvoiceData.confidence inv = 0.95.

(** A tracked fuzzy match: two different names, neither empty. *)
Definition proper_match (m : pystr * pystr * Q) : Prop :=
  fst (fst m) <> [] /\ snd (fst m) <> [] /\ snd (fst m) <> fst (fst m).


(** The names the record loop reads from a record, and the name it
    settles on. *)
Definition original_name_of (str_of_num : Q -> pystr) (data : gmap string pyval) : pystr :=
  py_strip (Api.py_str str_of_num (get_default data "customer_name" (PyStr []))).

Definition matched_name_of (str_of_num : Q -> pystr) (data : gmap string pyval) : pystr :=
  py_strip (Api.py_str str_of_num (get_default data "matched_customer_name" (PyStr []))).

Definition final_name_of (str_of_num : Q -> pystr) (data : gmap string pyval) : pystr :=
  Api.final_customer_name_of (original_name_of str_of_num data)
    (matched_name_of str_of_num data).


(** The order of the month sheet: by the number read from the invoice
    number. *)
Definition invoice_no_le (a b : InvoiceData.t) : Prop :=
  (Excel._get_invoice_no_value a <= Excel._get_invoice_no_value b)%Z.

(** The invoices with a given number, in the order they have in a list. *)
Definition with_invoice_no_value (k : Z) (l : list InvoiceData.t) : list InvoiceData.t :=
  List.filter (fun inv => (Excel._get_invoice_no_value inv =? k)%Z) l.

(** Text that does not start with a digit. *)
Definition no_leading_digit (s : pystr) : Prop :=
  match s with
  | [] => True
  | c :: _ => Excel.is_digit c = false
  end.


(** A customer as the loader leaves it: a name that is not empty and has
    no white space at either end, and a company amount that is positive
    when present. *)
Definition well_formed_customer (c : Customer.t) : Prop :=
  Customer.name c <> []
  /\ py_strip (Customer.name c) = Customer.name c
  /\ forall ca, Customer.company_amount c = Some ca -> 0 < ca.

(** What is read back of a customer written to the price sheet.  A
    positive worker amount comes back rounded to two decimals; for an
    amount of at most two decimals that is the same float, and below
    [2 ^ 46] the same decimal. *)
Definition read_back (c c' : Customer.t) : Prop :=
  Customer.name c' = Customer.name c
  /\ Customer.price_per_ton c' == Customer.price_per_ton c
  /\ Customer.formula c' = py_strip (Excel._get_formula_display (Customer.formula c))
  /\ Customer.company_amount c' = Customer.company_amount c
  /\ forall w, Customer.worker_amount c = Some w -> 0 < w ->
       exists w', Customer.worker_amount c' = Some w'
                  /\ w' = py_round2 w
                  /\ (hundredths w ->
                      double w' = double w /\ (w < 2 ^ 46 -> w' = w)).


End Spec.

(* ================================================================== *)
(** * Sample data                                                      *)
(* ================================================================== *)

Module Sample.
Import Py KnowledgeBase Matcher Dict.
Local Open Scope Q_scope.

(** A catalogue entry scored 95 with another price and one scored 60 with
    the extracted price. *)
Definition scored_95_other_price : Match.t :=
  Match.mk (lit "ahmad trading") 50 (lit "WEIGHT_PRICE") None None (Qmake 95 100).

Definition scored_60_same_price : Match.t :=
  Match.mk (lit "ahmad") 100 (lit "WEIGHT_PRICE") None None (Qmake 60 100).

Definition ahmad : Customer.t :=
  Customer.mk (lit "Ahmad Sdn Bhd") 100 (lit "WEIGHT_PRICE") None None.

Definition ahmad_bhd : Customer.t :=
  Customer.mk (lit "Ahmad Bhd") 120 (lit "WEIGHT_PRICE") None None.

Definition catalogue : list Customer.t := [ahmad; ahmad_bhd].

(** A scorer that gives 100 to a choice equal to the query and 40 to any
    other, and keeps the first [k] pairs. *)
Definition scorer (query : pystr) (choices : list pystr) (k : nat)
  : res (list (pystr * Z)) :=
  Ok (firstn k (map (fun c => (c, if bool_decide (c = query) then 100%Z else 40%Z))
                  choices)).

(** A model that does not decide. *)
Definition undecided : generate := fun _ _ _ => Ok (lit "I cannot decide").

(** A model whose call fails. *)
Definition failing : generate := fun _ _ _ => Raise ExternalError.

(** A query at price 50 against one customer at price 80 with a similar
    name: one candidate, without an exact price. *)
Definition abc_trading : Customer.t :=
  Customer.mk (lit "ABC Trading") 80 (lit "WEIGHT_PRICE") None None.

Definition close_scorer (query : pystr) (choices : list pystr) (k : nat)
  : res (list (pystr * Z)) :=
  Ok (firstn k (map (fun c => (c, 90%Z)) choices)).

Definition abc_candidates : list Candidate.t :=
  firstn 3 (all_candidates
              (search_similar_customers close_scorer [abc_trading] (lit "abc tradin") 10)
              (Some 50)).

(** A price list with the columns name, price, company and worker. *)
Definition four_columns : col_mappings :=
  {| col_name := Some 0%nat; col_price_per_ton := Some 1%nat; col_formula := None;
     col_company_amount := Some 2%nat; col_worker_amount := Some 3%nat |}.

(** Outside calls for the samples: no text reads as a number, a number
    prints as the empty text, and only booleans validate as [is_count]. *)
Definition no_float : pystr -> option Q := fun _ => None.

Definition no_str : Q -> pystr := fun _ => [].

Definition only_bool (v : pyval) : option bool :=
  match v with PyBool b => Some b | _ => None end.

(** A row whose two amounts do not add up to its price, and one without
    a worker amount. *)
Definition row_60_30 : list cell := [CText (lit "Ali"); CNum 100; CNum 60; CNum 30].

Definition row_60_none : list cell := [CText (lit "Abu"); CNum 100; CNum 60.333; CEmpty].

(** Two records with weight 0, total 100 and price 20: one count-based,
    one weight-based. *)
Definition count_based_record : gmap string pyval :=
  <["customer_name" := PyStr (lit "Ali")]>
  (<["weight_kg" := PyNum 0]>
  (<["total" := PyNum 100]>
  (<["price_per_ton" := PyNum 20]>
  (<["is_count" := PyBool true]> ∅)))).

Definition weight_based_record : gmap string pyval :=
  <["is_count" := PyBool false]> count_based_record.

(** A record of a "Lain-lain" customer with the weight 7. *)
Definition lain_record : gmap string pyval :=
  <["customer_name" := PyStr (lit "Lain-lain")]>
  (<["invoice_no" := PyStr (lit "5354")]>
  (<["weight_kg" := PyNum 7]>
  (<["total" := PyNum 70]>
  (<["price_per_ton" := PyNum 10]>
  (<["is_count" := PyBool true]> ∅))))).

(** An invoice of a "Lain-lain" customer that carries the weight 7. *)
Definition lain_invoice : InvoiceData.t :=
  InvoiceData.mk (lit "14/12/2023") (lit "5354") (lit "En Lain-Lain") 7 10 70
    None None (lit "a.jpg") 0.95 true.

(** Two candidates, "Khalid" ranked above "Ali", and a model that
    answers "Khalid": the name "ali" occurs inside it. *)
Definition khalid_then_ali : list Candidate.t :=
  [Candidate.mk (lit "Khalid") (90 # 100) 80 (Some 50) false (fmul (90 # 100) 0.7);
   Candidate.mk (lit "Ali") (88 # 100) 70 (Some 50) false (fmul (88 # 100) 0.7)].

Definition ali_then_khalid : list Candidate.t := rev khalid_then_ali.

Definition answers_khalid : generate := fun _ _ _ => Ok (lit " Khalid ").

(** A workbook whose second sheet is a price list with two customers, and
    one whose price list has no header for the name. *)
Definition price_list : workbook :=
  [ (lit "Sheet1", [[CText (lit "Notes")]]);
    (lit "Price List",
     [ [CText (lit "Customer Name"); CText (lit "Price per ton");
        CText (lit "Company"); CText (lit "Worker")];
       row_60_30;
       [CEmpty; CNum 100; CNum 60; CNum 30];
       row_60_none ]) ].

Definition nameless_price_list : workbook :=
  [ (lit "Formula",
     [ [CText (lit "Client"); CText (lit "Price per ton")];
       [CText (lit "Ali"); CNum 100] ]) ].


(** Two invoices whose numbers compare one way as text and the other way
    as numbers. *)
Definition invoice_10 : InvoiceData.t :=
  InvoiceData.mk (lit "01/02/2024") (lit "INV-10/A") (lit "Ali") 5 20 100 None None
    (lit "a.jpg") 0.95 true.

Definition invoice_9 : InvoiceData.t :=
  InvoiceData.mk (lit "02/02/2024") (lit "INV-9") (lit "Abu") 7 20 140 None None
    (lit "b.jpg") 0.95 false.


(** An extracted record of a "Lain-lain" service that carries its price
    as weight, and the record after post-processing. *)
Definition lain_service_record : gmap string pyval :=
  <["customer_name" := PyStr (lit "Kebun A")]>
  (<["service_type" := PyStr (lit "Lain-lain")]>
  (<["weight_kg" := PyNum 50]>
  (<["price_per_ton" := PyNum 0]> ∅))).

Definition lain_service_processed : gmap string pyval :=
  <["total" := PyNum 50]>
  (<["price_per_ton" := PyNum 50]>
  (<["weight_kg" := PyNum 1]>
  (<["is_count" := PyBool true]> lain_service_record))).


(** An extracted record for "abc tradin" at the price of ABC Trading,
    from the first image, and the record after matching. *)
Definition abc_record : gmap string pyval :=
  <["customer_name" := PyStr (lit " abc tradin ")]>
  (<["invoice_no" := PyStr (lit "A-17")]>
  (<["price_per_ton" := PyNum 80]>
  (<["total" := PyNum 160]>
  (<["weight_kg" := PyNum 2000]>
  (<["is_count" := PyBool false]> ∅))))).

Definition abc_decision : decision :=
  match_found (lit "ABC Trading") (fmul (Qmake 90 100) 0.95) (lit "abc tradin") true
    (Some 80) 80.

Definition abc_processed : gmap string pyval :=
  <["record_index" := PyNum 1]>
  (<["source_file" := PyStr (lit "scan1.jpg")]>
  (Processor.match_result_of abc_decision ∪ abc_record)).


End Sample.

(* ================================================================== *)
(** * Properties                                                       *)
(* ================================================================== *)

Unset Implicit Arguments.

(** ** Comparisons and rounding over [Q] *)

Module PyFacts.
Import Py.
Local Open Scope Q_scope.

(** The string functions on small inputs. *)
Example strip_both_ends : py_strip (lit "  a b  ") = lit "a b".
Proof. vm_compute. reflexivity. Qed.

Example split_on_runs : py_split (lit " a  b c ") = [lit "a"; lit "b"; lit "c"].
Proof. vm_compute. reflexivity. Qed.

Example join_with_space : py_join (lit " ") [lit "a"; lit "b"; lit "c"] = lit "a b c".
Proof. vm_compute. reflexivity. Qed.

Example suffix_and_slice :
  endswith (lit "bhd") (lit "x bhd") = true
  /\ slice_to_neg 3 (lit "x bhd") = lit "x "
  /\ slice_from 3 (lit "mr.x") = lit "x".
Proof. repeat split; vm_compute; reflexivity. Qed.

Example substring_any_case : py_in (lit "lain") (py_lower (lit "En LAIN-lain")) = true.
Proof. vm_compute. reflexivity. Qed.

(** [int] cuts towards zero; [round] sends a tie to the even hundredth,
    and a tie is a tie of the double: 2.675 is read as a double below
    the tie. *)
Example int_cuts_towards_zero : py_int (7 # 2) = 3%Z /\ py_int (-7 # 2) = (-3)%Z.
Proof. split; reflexivity. Qed.

Example round_ties_to_even :
  py_round2 0.125 == 0.12 /\ py_round2 0.375 == 0.38 /\ py_round2 39.667 == 39.67.
Proof. repeat split; vm_compute; reflexivity. Qed.

Example round_reads_the_double :
  py_round2 2.675 = 2.67 /\ py_round2 (fsub 10 7.325) = 2.67.
Proof. split; vm_compute; reflexivity. Qed.

Lemma Qltb_lt (x y : Q) : Qltb x y = true <-> x < y.
Proof.
  unfold Qltb. rewrite negb_true_iff. split.
  - intros H. apply Qnot_le_lt. intros Hle.
    apply Qle_bool_iff in Hle. congruence.
  - intros H. destruct (Qle_bool y x) eqn:E; [|reflexivity].
    apply Qle_bool_iff in E. exfalso. exact (Qlt_not_le _ _ H E).
Qed.

Lemma Qltb_ge (x y : Q) : Qltb x y = false <-> y <= x.
Proof.
  unfold Qltb. rewrite negb_false_iff. apply Qle_bool_iff.
Qed.

(** Rounding to the nearest integer moves a number by at most a half. *)
Lemma round_half_even_close (x : Q) :
  Qabs (inject_Z (round_half_even x) - x) <= 1 # 2.
Proof.
  unfold round_half_even.
  pose proof (Qfloor_le x) as Hlo. pose proof (Qlt_floor x) as Hhi.
  set (f := Qfloor x) in *.
  rewrite inject_Z_plus in Hhi. change (inject_Z 1) with 1 in Hhi.
  apply Qabs_Qle_condition.
  destruct (Qltb (x - inject_Z f) (1 # 2)) eqn:E1.
  { apply Qltb_lt in E1. split; lra. }
  apply Qltb_ge in E1.
  destruct (Qltb (1 # 2) (x - inject_Z f)) eqn:E2.
  { apply Qltb_lt in E2. rewrite inject_Z_plus. change (inject_Z 1) with 1.
    split; lra. }
  apply Qltb_ge in E2.
  destruct (Z.even f).
  - split; lra.
  - rewrite inject_Z_plus. change (inject_Z 1) with 1. split; lra.
Qed.

(** [round(x, 2)] is within half a hundredth of the double [x]. *)
Lemma py_round2_close (x : Q) : Qabs (py_round2 x - double x) <= 1 # 200.
Proof.
  pose proof (round_half_even_close (double x * 100)) as H.
  apply Qabs_Qle_condition in H. apply Qabs_Qle_condition.
  unfold py_round2. set (d := double x) in *.
  assert (E : Qmake (round_half_even (d * 100)) 100
              == inject_Z (round_half_even (d * 100)) / 100).
  { rewrite Qmake_Qdiv. reflexivity. }
  rewrite E. set (r := inject_Z (round_half_even (d * 100))) in *.
  assert (E' : r / 100 == r * (1 # 100)) by (unfold Qdiv; reflexivity).
  rewrite E'. split; lra.
Qed.

End PyFacts.

(** ** Rounding to the nearest double *)

Module FloatFacts.
Import Py PyFacts.
Local Open Scope Q_scope.

(** The rounding agrees with binary64 on decimal literals, on a product
    and a difference, on a subnormal number and below the least one. *)
Example double_of_literals :
  double 0.1 = 3602879701896397 # 36028797018963968
  /\ double 0.01 = 5764607523034235 # 576460752303423488
  /\ double 100 = 100
  /\ double (-7 # 3) = -5254199565265579 # 2251799813685248.
Proof. repeat split; vm_compute; reflexivity. Qed.

Example product_and_difference :
  fmul 0.95 0.7 = 5989787504402759 # 9007199254740992
  /\ fsub 10.01 10 = 5629499534213 # 562949953421312.
Proof. split; vm_compute; reflexivity. Qed.

Example subnormal_and_underflow :
  double (2 ^ (-1074) * (3 # 2)) = Qred (2 ^ (-1073))
  /\ double (2 ^ (-1076)) = 0.
Proof. split; vm_compute; reflexivity. Qed.

Lemma pow2_pos (e : Z) : 0 < 2 ^ e.
Proof. apply Qpower_0_lt. reflexivity. Qed.

Lemma ilog2_le (a : Q) : 0 < a -> 2 ^ ilog2 a <= a.
Proof.
  intros Ha. unfold ilog2.
  set (k := (Z.log2 (Qnum a) - Z.log2 (Zpos (Qden a)))%Z).
  destruct (Qle_bool (2 ^ k) a) eqn:E; [apply Qle_bool_iff; exact E|].
  destruct a as [n d]. unfold k. cbn [Qnum Qden].
  assert (Hn : (0 < n)%Z) by (unfold Qlt in Ha; simpl in Ha; lia).
  pose proof (Z.log2_spec n Hn) as [Hn1 _].
  pose proof (Z.log2_spec (Zpos d) (Pos2Z.is_pos d)) as [_ Hd2].
  pose proof (Z.log2_nonneg n) as Ln.
  pose proof (Z.log2_nonneg (Zpos d)) as Ld.
  replace (Z.log2 n - Z.log2 (Z.pos d) - 1)%Z
    with (Z.log2 n - Z.succ (Z.log2 (Z.pos d)))%Z by lia.
  rewrite Qpower_minus by discriminate.
  rewrite <- (Zpower_Qpower 2 (Z.log2 n)) by exact Ln.
  rewrite <- (Zpower_Qpower 2 (Z.succ (Z.log2 (Z.pos d)))) by lia.
  set (A := (2 ^ Z.log2 n)%Z) in *. set (B := (2 ^ Z.succ (Z.log2 (Z.pos d)))%Z) in *.
  assert (HB : (0 < B)%Z) by lia.
  apply Qle_shift_div_r.
  - unfold Qlt. simpl. lia.
  - unfold Qle, Qmult, inject_Z. simpl. nia.
Qed.

Lemma round_half_even_nonneg (y : Q) : 0 <= y -> (0 <= round_half_even y)%Z.
Proof.
  intros Hy. unfold round_half_even.
  assert (Hf : (0 <= Qfloor y)%Z).
  { change 0%Z with (Qfloor 0). apply Qfloor_resp_le. exact Hy. }
  destruct (Qltb _ _); [exact Hf|].
  destruct (Qltb _ _); [lia|]. destruct (Z.even _); lia.
Qed.

(** A number within less than a half of an integer rounds to it. *)
Lemma round_half_even_near (y : Q) (z : Z) :
  Qabs (y - inject_Z z) < 1 # 2 -> round_half_even y = z.
Proof.
  intros H. pose proof (round_half_even_close y) as Hc.
  set (r := round_half_even y) in *.
  assert (Hlt : Qabs (inject_Z r - inject_Z z) < 1).
  { assert (E : inject_Z r - inject_Z z == (inject_Z r - y) + (y - inject_Z z)) by ring.
    rewrite E. eapply Qle_lt_trans; [apply Qabs_triangle|]. lra. }
  apply Qabs_Qlt_condition in Hlt. destruct Hlt as [H1 H2].
  unfold Qlt, Qminus, Qplus, Qopp, inject_Z in H1, H2. simpl in H1, H2. lia.
Qed.

Lemma round_magnitude_nonneg (a : Q) : 0 < a -> 0 <= round_magnitude a.
Proof.
  intros Ha. unfold round_magnitude. rewrite Qred_correct.
  set (e := Z.max (ilog2 a - 52) (-1074)).
  apply Qmult_le_0_compat.
  - assert (H : (0 <= round_half_even (a / 2 ^ e))%Z).
    { apply round_half_even_nonneg. apply Qlt_le_weak.
      apply Qlt_shift_div_l; [apply pow2_pos|]. rewrite Qmult_0_l. exact Ha. }
    unfold Qle. simpl. lia.
  - apply Qlt_le_weak. apply pow2_pos.
Qed.

Lemma scaled_error (m y P : Q) :
  0 < P -> Qabs (m - y / P) <= 1 # 2 -> Qabs (m * P - y) <= P * (1 # 2).
Proof.
  intros HP H.
  assert (E : m * P - y == (m - y / P) * P)
    by (field; intros E0; rewrite E0 in HP; inversion HP).
  rewrite E, Qabs_Qmult, (Qabs_pos P) by (apply Qlt_le_weak; exact HP).
  rewrite (Qmult_comm P). apply Qmult_le_compat_r; [exact H | apply Qlt_le_weak; exact HP].
Qed.

(** One rounding moves a positive number by at most its [2^-53]th part,
    or by [2^-1075] on the subnormal grid. *)
Lemma round_magnitude_error (a : Q) :
  0 < a -> Qabs (round_magnitude a - a) <= a * unit_roundoff + tiny.
Proof.
  intros Ha. unfold round_magnitude. rewrite Qred_correct.
  set (e := Z.max (ilog2 a - 52) (-1074)).
  pose proof (pow2_pos e) as HP.
  pose proof (scaled_error _ a _ HP (round_half_even_close (a / 2 ^ e))) as H.
  eapply Qle_trans; [exact H|].
  assert (Hu : 0 <= a * unit_roundoff).
  { apply Qmult_le_0_compat; [apply Qlt_le_weak; exact Ha | discriminate]. }
  assert (Ht : 0 <= tiny) by discriminate.
  destruct (Z.max_spec (ilog2 a - 52) (-1074)) as [[_ E]|[_ E]]; fold e in E; rewrite E.
  - assert (E2 : 2 ^ (-1074) * (1 # 2) == tiny) by reflexivity.
    rewrite E2. lra.
  - rewrite Qpower_minus by discriminate.
    pose proof (ilog2_le a Ha) as Hl.
    assert (E2 : 2 ^ ilog2 a / 2 ^ 52 * (1 # 2) == 2 ^ ilog2 a * unit_roundoff).
    { unfold Qdiv. rewrite <- Qmult_assoc. apply Qmult_comp; [reflexivity|].
      reflexivity. }
    rewrite E2.
    assert (H3 : 2 ^ ilog2 a * unit_roundoff <= a * unit_roundoff).
    { apply Qmult_le_compat_r; [exact Hl | discriminate]. }
    lra.
Qed.

Lemma Qabs_pos_of_nonzero (x : Q) : ~ x == 0 -> 0 < Qabs x.
Proof.
  intros Hx. destruct (Qlt_le_dec x 0) as [Hn|Hp].
  - rewrite Qabs_neg by lra. lra.
  - rewrite Qabs_pos by exact Hp.
    destruct (Qle_lt_or_eq _ _ Hp) as [H|H]; [exact H|].
    exfalso. apply Hx. symmetry. exact H.
Qed.

Lemma double_error (x : Q) :
  Qabs (double x - x) <= Qabs x * unit_roundoff + tiny.
Proof.
  unfold double. destruct (Qeq_bool x 0) eqn:E0.
  - apply Qeq_bool_iff in E0. rewrite E0. vm_compute. discriminate.
  - assert (Hx : ~ x == 0) by (intros E; apply Qeq_bool_iff in E; congruence).
    pose proof (round_magnitude_error (Qabs x) (Qabs_pos_of_nonzero x Hx)) as H.
    set (R := round_magnitude (Qabs x)) in *.
    destruct (Qltb x 0) eqn:En.
    + apply Qltb_lt in En.
      assert (Eabs : Qabs x == - x) by (apply Qabs_neg; lra).
      assert (E : - R - x == - (R - Qabs x)) by (rewrite Eabs; ring).
      rewrite E, Qabs_opp. exact H.
    + assert (Hp : 0 <= x).
      { destruct (Qlt_le_dec x 0) as [Hn|Hp]; [|exact Hp].
        apply Qltb_lt in Hn. congruence. }
      assert (Eabs : Qabs x == x) by (apply Qabs_pos; exact Hp).
      assert (E : R - x == R - Qabs x) by (rewrite Eabs; ring).
      rewrite E. exact H.
Qed.

Lemma double_nonneg (x : Q) : 0 <= x -> 0 <= double x.
Proof.
  intros Hp. unfold double. destruct (Qeq_bool x 0) eqn:E0; [discriminate|].
  assert (Hx : ~ x == 0) by (intros E; apply Qeq_bool_iff in E; congruence).
  destruct (Qltb x 0) eqn:En; [apply Qltb_lt in En; lra|].
  apply round_magnitude_nonneg. exact (Qabs_pos_of_nonzero x Hx).
Qed.

Lemma double_nonpos (x : Q) : x <= 0 -> double x <= 0.
Proof.
  intros Hn. unfold double. destruct (Qeq_bool x 0) eqn:E0; [discriminate|].
  assert (Hx : ~ x == 0) by (intros E; apply Qeq_bool_iff in E; congruence).
  pose proof (round_magnitude_nonneg _ (Qabs_pos_of_nonzero x Hx)) as H.
  destruct (Qltb x 0) eqn:En; [lra|].
  assert (Hp : 0 <= x).
  { destruct (Qlt_le_dec x 0) as [H0|H0]; [|exact H0]. apply Qltb_lt in H0. congruence. }
  exfalso. apply Hx. lra.
Qed.

(** Bounds from above and below for a number that is not negative. *)
Lemma double_bounds (x : Q) :
  0 <= x ->
  x * (1 - unit_roundoff) - tiny <= double x <= x * (1 + unit_roundoff) + tiny.
Proof.
  intros Hp. pose proof (double_error x) as H.
  rewrite (Qabs_pos x) in H by exact Hp.
  apply Qabs_Qle_condition in H. destruct H as [H1 H2]. split; lra.
Qed.

Lemma ilog2_lt (a : Q) : 0 < a -> a < 2 ^ (ilog2 a + 1).
Proof.
  intros Ha. unfold ilog2.
  set (k := (Z.log2 (Qnum a) - Z.log2 (Zpos (Qden a)))%Z).
  destruct (Qle_bool (2 ^ k) a) eqn:E.
  - destruct a as [n d]. unfold k. cbn [Qnum Qden].
    assert (Hn : (0 < n)%Z) by (unfold Qlt in Ha; simpl in Ha; lia).
    pose proof (Z.log2_spec n Hn) as [_ Hn2].
    pose proof (Z.log2_spec (Zpos d) (Pos2Z.is_pos d)) as [Hd1 _].
    pose proof (Z.log2_nonneg n) as Ln.
    pose proof (Z.log2_nonneg (Zpos d)) as Ld.
    replace (Z.log2 n - Z.log2 (Z.pos d) + 1)%Z
      with (Z.succ (Z.log2 n) - Z.log2 (Z.pos d))%Z by lia.
    rewrite Qpower_minus by discriminate.
    rewrite <- (Zpower_Qpower 2 (Z.succ (Z.log2 n))) by lia.
    rewrite <- (Zpower_Qpower 2 (Z.log2 (Z.pos d))) by exact Ld.
    set (A := (2 ^ Z.succ (Z.log2 n))%Z) in *. set (B := (2 ^ Z.log2 (Z.pos d))%Z) in *.
    assert (HB : (0 < B)%Z) by (unfold B; apply Z.pow_pos_nonneg; lia).
    apply Qlt_shift_div_l.
    + unfold Qlt. simpl. lia.
    + unfold Qlt, Qmult, inject_Z. simpl. nia.
  - replace (k - 1 + 1)%Z with k by lia.
    destruct (Qlt_le_dec a (2 ^ k)) as [H|H]; [exact H|].
    apply Qle_bool_iff in H. congruence.
Qed.

Lemma ilog2_unique (a : Q) (k : Z) : 2 ^ k <= a -> a < 2 ^ (k + 1) -> ilog2 a = k.
Proof.
  intros H1 H2.
  assert (Ha : 0 < a) by (eapply Qlt_le_trans; [apply pow2_pos | exact H1]).
  pose proof (ilog2_le a Ha) as H3. pose proof (ilog2_lt a Ha) as H4.
  assert (K1 : (k < ilog2 a + 1)%Z).
  { apply (Qpower_lt_compat_l_inv 2); [|reflexivity].
    eapply Qle_lt_trans; eassumption. }
  assert (K2 : (ilog2 a < k + 1)%Z).
  { apply (Qpower_lt_compat_l_inv 2); [|reflexivity].
    eapply Qle_lt_trans; eassumption. }
  lia.
Qed.

Lemma ilog2_of_scaled (q : Q) (m e : Z) :
  (0 < m)%Z -> q == inject_Z m * 2 ^ e -> ilog2 q = (Z.log2 m + e)%Z.
Proof.
  intros Hm Hq. pose proof (Z.log2_spec m Hm) as [L1 L2].
  pose proof (Z.log2_nonneg m) as L0. pose proof (pow2_pos e) as He.
  apply ilog2_unique; rewrite Hq.
  - rewrite Qpower_plus by discriminate.
    apply Qmult_le_compat_r; [|apply Qlt_le_weak; exact He].
    rewrite <- (Zpower_Qpower 2 (Z.log2 m)) by exact L0.
    rewrite <- Zle_Qle. exact L1.
  - replace (Z.log2 m + e + 1)%Z with (Z.succ (Z.log2 m) + e)%Z by lia.
    rewrite Qpower_plus by discriminate.
    apply Qmult_lt_compat_r; [exact He|].
    rewrite <- (Zpower_Qpower 2 (Z.succ (Z.log2 m))) by lia.
    rewrite <- Zlt_Qlt. exact L2.
Qed.

(** A point of the binary64 grid, [m * 2^e] with [m] of at most 53 bits
    and [e] from [-1074] on, of exactly 53 bits above the subnormal
    range, is its own rounding. *)
Lemma round_magnitude_fixed (q : Q) (m e : Z) :
  (0 < m <= 2 ^ 53)%Z -> (-1074 <= e)%Z -> ((m < 2 ^ 52)%Z -> e = (-1074)%Z) ->
  q == inject_Z m * 2 ^ e -> round_magnitude q == q.
Proof.
  intros [Hm0 Hm] He Hsub Hq.
  unfold round_magnitude. rewrite Qred_correct.
  rewrite (ilog2_of_scaled q m e Hm0 Hq).
  pose proof (Z.log2_spec m Hm0) as [L1 L2].
  pose proof (Z.log2_nonneg m) as L0.
  destruct (Z.eq_dec m (2 ^ 53)%Z) as [E|E].
  - subst m. change (Z.log2 (2 ^ 53)%Z) with 53%Z.
    replace (Z.max (53 + e - 52) (-1074)) with (e + 1)%Z by lia.
    assert (Ey : q / 2 ^ (e + 1) == inject_Z (2 ^ 52)).
    { rewrite Hq, Qpower_plus by discriminate.
      change (inject_Z (2 ^ 52)) with (4503599627370496 # 1).
      change (inject_Z (2 ^ 53)) with (9007199254740992 # 1).
      change (2 ^ 1) with 2.
      pose proof (pow2_pos e) as H. set (P := 2 ^ e) in *. clearbody P.
      field. intros E0. rewrite E0 in H. inversion H. }
    rewrite (round_half_even_near (q / 2 ^ (e + 1)) (2 ^ 52)%Z).
    + rewrite Hq, Qpower_plus by discriminate. 
      change (inject_Z (2 ^ 52)) with (4503599627370496 # 1).
      change (inject_Z (2 ^ 53)) with (9007199254740992 # 1).
      change (2 ^ 1) with 2. set (P := 2 ^ e). ring.
    + rewrite Ey. reflexivity.
  - assert (Hlt : (m < 2 ^ 53)%Z) by lia.
    assert (HL' : (Z.log2 m < 53)%Z) by (apply Z.log2_lt_pow2; assumption).
    assert (Ee : Z.max (Z.log2 m + e - 52) (-1074) = e).
    { destruct (Z.lt_ge_cases m (2 ^ 52)%Z) as [Hs|Hs].
      - rewrite (Hsub Hs).
        assert (Z.log2 m < 52)%Z by (apply Z.log2_lt_pow2; assumption). lia.
      - assert (52 <= Z.log2 m)%Z by (apply Z.log2_le_pow2; assumption). lia. }
    rewrite Ee.
    assert (Ey : q / 2 ^ e == inject_Z m).
    { rewrite Hq.
      pose proof (pow2_pos e) as H. set (P := 2 ^ e) in *. clearbody P.
      field. intros E0. rewrite E0 in H. inversion H. }
    rewrite (round_half_even_near (q / 2 ^ e) m).
    + symmetry. exact Hq.
    + rewrite Ey. 
      assert (E0 : inject_Z m - inject_Z m == 0) by ring.
      rewrite E0. reflexivity.
Qed.

(** Every rounding is a point of the grid. *)
Lemma round_magnitude_grid (a : Q) :
  0 < a ->
  let e := Z.max (ilog2 a - 52) (-1074) in
  let m := round_half_even (a / 2 ^ e) in
  (0 <= m <= 2 ^ 53)%Z
  /\ ((m < 2 ^ 52)%Z -> e = (-1074)%Z)
  /\ round_magnitude a == inject_Z m * 2 ^ e.
Proof.
  intros Ha e m. unfold round_magnitude. fold e. fold m. unfold m.
  pose proof (pow2_pos e) as HP.
  pose proof (round_half_even_close (a / 2 ^ e)) as Hc.
  apply Qabs_Qle_condition in Hc. destruct Hc as [C1 C2].
  assert (Hy0 : 0 <= a / 2 ^ e).
  { apply Qle_shift_div_l; [exact HP|]. rewrite Qmult_0_l. apply Qlt_le_weak. exact Ha. }
  pose proof (round_half_even_nonneg _ Hy0) as Hm0.
  split; [split; [exact Hm0|]|split].
  - assert (Hy : a / 2 ^ e < inject_Z (2 ^ 53)).
    { apply Qlt_shift_div_r; [exact HP|].
      eapply Qlt_le_trans; [apply ilog2_lt; exact Ha|].
      change (inject_Z (2 ^ 53)) with (2 ^ 53).
      rewrite <- Qpower_plus by discriminate.
      apply Qpower_le_compat_l; [lia | discriminate]. }
    set (r := round_half_even (a / 2 ^ e)) in *.
    assert (H : inject_Z r < inject_Z (2 ^ 53) + (1 # 2)) by lra.
    unfold Qlt, Qplus, inject_Z in H. simpl in H. lia.
  - intros Hm. destruct (Z.max_spec (ilog2 a - 52) (-1074)) as [[_ E]|[_ E]];
      [exact E|].
    exfalso.
    assert (Hy : inject_Z (2 ^ 52) <= a / 2 ^ e).
    { apply Qle_shift_div_l; [exact HP|].
      eapply Qle_trans; [|apply ilog2_le; exact Ha].
      change (inject_Z (2 ^ 52)) with (2 ^ 52).
      rewrite <- Qpower_plus by discriminate.
      apply Qpower_le_compat_l; [lia | discriminate]. }
    set (r := round_half_even (a / 2 ^ e)) in *.
    assert (H : inject_Z (2 ^ 52) - (1 # 2) <= inject_Z r) by lra.
    unfold Qle, Qminus, Qplus, Qopp, inject_Z in H. simpl in H. lia.
  - apply Qred_correct.
Qed.

Lemma round_magnitude_eq (a b : Q) :
  round_magnitude a == round_magnitude b -> round_magnitude a = round_magnitude b.
Proof.
  unfold round_magnitude. intros H. rewrite !Qred_correct in H.
  apply Qred_complete. exact H.
Qed.

(** Rounding a double gives the double back: reading a computed operand
    as a double changes nothing. *)
Lemma double_idempotent (x : Q) : double (double x) = double x.
Proof.
  assert (D : double x = if Qeq_bool x 0 then 0
                         else if Qltb x 0 then - round_magnitude (Qabs x)
                              else round_magnitude (Qabs x)) by reflexivity.
  rewrite D. clear D. destruct (Qeq_bool x 0) eqn:E0; [reflexivity|].
  assert (Hx : ~ x == 0) by (intros E; apply Qeq_bool_iff in E; congruence).
  pose proof (Qabs_pos_of_nonzero _ Hx) as Ha.
  pose proof (round_magnitude_grid _ Ha) as G. cbv zeta in G.
  set (e := Z.max (ilog2 (Qabs x) - 52) (-1074)) in G.
  set (m := round_half_even (Qabs x / 2 ^ e)) in G.
  destruct G as [[Hm0 Hm] [Hsub Hg]].
  assert (He : (-1074 <= e)%Z) by (unfold e; lia).
  clearbody m. clearbody e.
  assert (Hfix : forall q, q == round_magnitude (Qabs x) -> (0 < m)%Z ->
                           round_magnitude q = round_magnitude (Qabs x)).
  { intros q Hq Hpos.
    assert (Hq' : q == inject_Z m * 2 ^ e) by (rewrite Hq; exact Hg).
    pose proof (round_magnitude_fixed q m e (conj Hpos Hm) He Hsub Hq') as H.
    apply round_magnitude_eq. rewrite H. exact Hq. }
  destruct (Z.eq_dec m 0%Z) as [Em|Em].
  - assert (Ez : round_magnitude (Qabs x) = 0).
    { unfold round_magnitude in *. change 0 with (Qred 0). apply Qred_complete.
      rewrite Qred_correct in Hg. rewrite Hg, Em. apply Qmult_0_l. }
    rewrite Ez. destruct (Qltb x 0); reflexivity.
  - assert (Hpos : (0 < m)%Z) by lia.
    assert (HR : 0 < round_magnitude (Qabs x)).
    { rewrite Hg. apply Qmult_lt_0_compat; [|apply pow2_pos].
      unfold Qlt. simpl. lia. }
    set (R := round_magnitude (Qabs x)) in *.
    destruct (Qltb x 0).
    + unfold double.
      assert (N0 : Qeq_bool (- R) 0 = false).
      { destruct (Qeq_bool (- R) 0) eqn:E; [|reflexivity].
        apply Qeq_bool_iff in E. lra. }
      assert (N1 : Qltb (- R) 0 = true) by (apply Qltb_lt; lra).
      rewrite N0, N1. f_equal. apply Hfix; [|exact Hpos].
      rewrite Qabs_opp. apply Qabs_pos. lra.
    + unfold double.
      assert (N0 : Qeq_bool R 0 = false).
      { destruct (Qeq_bool R 0) eqn:E; [|reflexivity].
        apply Qeq_bool_iff in E. lra. }
      assert (N1 : Qltb R 0 = false).
      { destruct (Qltb R 0) eqn:E; [|reflexivity]. apply Qltb_lt in E. lra. }
      rewrite N0, N1. apply Hfix; [|exact Hpos]. apply Qabs_pos. lra.
Qed.

(** One rounding moves a positive number by at most half a step of the
    grid. *)
Lemma round_magnitude_half_step (a : Q) :
  0 < a ->
  Qabs (round_magnitude a - a) <= 2 ^ Z.max (ilog2 a - 52) (-1074) * (1 # 2).
Proof.
  intros Ha. unfold round_magnitude. rewrite Qred_correct.
  set (e := Z.max (ilog2 a - 52) (-1074)).
  exact (scaled_error _ a _ (pow2_pos e) (round_half_even_close (a / 2 ^ e))).
Qed.

Lemma ilog2_below (a : Q) (k : Z) : 0 < a -> a < 2 ^ k -> (ilog2 a < k)%Z.
Proof.
  intros Ha H. apply (Qpower_lt_compat_l_inv 2); [|reflexivity].
  eapply Qle_lt_trans; [apply ilog2_le; exact Ha | exact H].
Qed.

Lemma ilog2_above (a : Q) (k : Z) : 2 ^ k <= a -> (k <= ilog2 a)%Z.
Proof.
  intros H.
  assert (Ha : 0 < a) by (eapply Qlt_le_trans; [apply pow2_pos | exact H]).
  assert (K : (k < ilog2 a + 1)%Z).
  { apply (Qpower_lt_compat_l_inv 2); [|reflexivity].
    eapply Qle_lt_trans; [exact H | apply ilog2_lt; exact Ha]. }
  lia.
Qed.

(** Below [2 ^ 46] the float of an amount of at most two decimals rounds
    back to the amount. *)
Lemma round2_of_small_hundredths (p : positive) :
  Zpos p # 100 < 2 ^ 46 -> py_round2 (Zpos p # 100) = Zpos p # 100.
Proof.
  intros Hlt. unfold py_round2. f_equal. apply round_half_even_near.
  change (double (Zpos p # 100)) with (round_magnitude (Zpos p # 100)).
  assert (Ha : 0 < Zpos p # 100) by reflexivity.
  pose proof (round_magnitude_half_step _ Ha) as H.
  pose proof (ilog2_below _ _ Ha Hlt) as Hk.
  set (e := Z.max (ilog2 (Zpos p # 100) - 52) (-1074)) in *.
  assert (He : 2 ^ e <= 2 ^ (-7)).
  { apply Qpower_le_compat_l; [lia | discriminate]. }
  change (2 ^ (-7)) with (1 # 128) in He.
  assert (E : inject_Z (Zpos p) == (Zpos p # 100) * 100).
  { unfold Qeq, Qmult, inject_Z. simpl. lia. }
  apply Qabs_Qle_condition in H. destruct H as [H1 H2].
  apply Qabs_Qlt_condition.
  set (x := Zpos p # 100) in *. clearbody x.
  set (d := round_magnitude x) in *. clearbody d.
  set (P := 2 ^ e) in *. clearbody P.
  split; lra.
Qed.

Lemma round_magnitude_at (y : Q) (m e : Z) :
  (-1074 <= e)%Z -> ilog2 y = (52 + e)%Z -> round_half_even (y / 2 ^ e) = m ->
  round_magnitude y == inject_Z m * 2 ^ e.
Proof.
  intros He Hk Hm. unfold round_magnitude. rewrite Qred_correct, Hk.
  replace (Z.max (52 + e - 52) (-1074)) with e by lia.
  rewrite Hm. reflexivity.
Qed.

(** A number within half a hundredth of a double [m * 2^e] of 53 bits
    that is no power of two, with [e] from [-6] to [-1], rounds to it. *)
Lemma near_double_rounds_to_it (y : Q) (m e : Z) :
  (-6 <= e <= -1)%Z -> (2 ^ 52 < m < 2 ^ 53)%Z ->
  Qabs (y - inject_Z m * 2 ^ e) <= 1 # 200 ->
  round_magnitude y == inject_Z m * 2 ^ e.
Proof.
  intros He [Hm1 Hm2] Hy.
  assert (M1 : inject_Z (2 ^ 52 + 1) <= inject_Z m) by (rewrite <- Zle_Qle; lia).
  assert (M2 : inject_Z m <= inject_Z (2 ^ 53 - 1)) by (rewrite <- Zle_Qle; lia).
  change (inject_Z (2 ^ 52 + 1)) with 4503599627370497 in M1.
  change (inject_Z (2 ^ 53 - 1)) with 9007199254740991 in M2.
  apply Qabs_Qle_condition in Hy. destruct Hy as [Y1 Y2].
  set (M := inject_Z m) in *.
  assert (Hc : e = (-6)%Z \/ e = (-5)%Z \/ e = (-4)%Z \/ e = (-3)%Z
               \/ e = (-2)%Z \/ e = (-1)%Z) by lia.
  destruct Hc as [E|[E|[E|[E|[E|E]]]]]; subst e;
    (apply round_magnitude_at;
     [ lia
     | apply ilog2_unique;
       [ match goal with |- 2 ^ ?k <= _ =>
           let c := eval vm_compute in (2 ^ k) in change (2 ^ k) with c end
       | match goal with |- _ < 2 ^ ?k =>
           let c := eval vm_compute in (2 ^ k) in change (2 ^ k) with c end ];
       match type of Y1 with context [2 ^ ?k] =>
         let c := eval vm_compute in (2 ^ k) in change (2 ^ k) with c in Y1, Y2 end;
       lra
     | apply round_half_even_near; fold M;
       match goal with |- context [y / 2 ^ ?k] =>
         let c := eval vm_compute in (/ 2 ^ k) in change (y / 2 ^ k) with (y * c) end;
       match type of Y1 with context [2 ^ ?k] =>
         let c := eval vm_compute in (2 ^ k) in change (2 ^ k) with c in Y1, Y2 end;
       apply Qabs_Qlt_condition; split; lra ]).
Qed.

(** From [2 ^ 46] on the rounding to two decimals of the float of an
    amount may be another decimal, which stands for the same float. *)
Lemma round2_of_large_hundredths (p : positive) :
  2 ^ 46 <= Zpos p # 100 ->
  double (py_round2 (Zpos p # 100)) = double (Zpos p # 100).
Proof.
  intros Hge. unfold py_round2.
  change (double (Zpos p # 100)) with (round_magnitude (Zpos p # 100)).
  set (x := Zpos p # 100) in *.
  assert (Ha : 0 < x) by reflexivity.
  pose proof (round_magnitude_grid x Ha) as G. cbv zeta in G.
  pose proof (ilog2_above _ _ Hge) as Hk.
  replace (Z.max (ilog2 x - 52) (-1074)) with (ilog2 x - 52)%Z in G by lia.
  set (e := (ilog2 x - 52)%Z) in G. set (m := round_half_even (x / 2 ^ e)) in G.
  destruct G as [[_ Hm] [Hsub Hg]].
  assert (He : (-6 <= e)%Z) by (unfold e; lia).
  assert (Hm52 : (2 ^ 52 <= m)%Z).
  { destruct (Z.lt_ge_cases m (2 ^ 52)%Z) as [H|H]; [specialize (Hsub H); lia | exact H]. }
  clearbody m. clearbody e. clear Hsub Hk.
  pose proof (pow2_pos e) as HP.
  assert (Hd : 2 ^ 46 <= inject_Z m * 2 ^ e).
  { apply Qle_trans with (inject_Z (2 ^ 52) * 2 ^ e).
    - assert (E46 : 2 ^ 46 == inject_Z (2 ^ 52) * 2 ^ (-6)) by reflexivity.
      rewrite E46. apply Qmult_le_l; [reflexivity|].
      apply Qpower_le_compat_l; [exact He | discriminate].
    - apply Qmult_le_compat_r; [|apply Qlt_le_weak; exact HP].
      rewrite <- Zle_Qle. exact Hm52. }
  change (2 ^ 46) with 70368744177664 in Hd.
  set (d := round_magnitude x) in *.
  pose proof (round_half_even_close (d * 100)) as Hc.
  apply Qabs_Qle_condition in Hc. destruct Hc as [C1 C2].
  destruct (round_half_even (d * 100)) as [|q|q] eqn:Ez.
  - exfalso. change (inject_Z 0) with 0 in C1, C2. lra.
  - change (double (Zpos q # 100)) with (round_magnitude (Zpos q # 100)).
    apply round_magnitude_eq. fold d. rewrite Hg.
    set (y := Zpos q # 100) in *.
    assert (Ey : inject_Z (Zpos q) == y * 100).
    { unfold y, Qeq, Qmult, inject_Z. simpl. lia. }
    assert (Hint : forall N : Z, d * 100 == inject_Z N ->
                                 round_magnitude y == inject_Z m * 2 ^ e).
    { intros N HN.
      assert (EN : round_half_even (d * 100) = N).
      { apply round_half_even_near. rewrite HN.
        assert (E0 : inject_Z N - inject_Z N == 0) by ring.
        rewrite E0. reflexivity. }
      rewrite Ez in EN.
      assert (Hq : y == inject_Z m * 2 ^ e).
      { rewrite <- Hg. rewrite <- EN in HN. lra. }
      rewrite (round_magnitude_fixed y m e); [exact Hq | lia | lia | lia | exact Hq]. }
    destruct (Z_le_gt_dec 0 e) as [E0|E0].
    { apply (Hint (m * 2 ^ e * 100)%Z).
      rewrite !inject_Z_mult, (Zpower_Qpower 2 e E0), Hg. reflexivity. }
    destruct (Z.eq_dec m (2 ^ 52)%Z) as [E1|E1].
    { apply (Hint (2 ^ (52 + e) * 100)%Z).
      rewrite inject_Z_mult, (Zpower_Qpower 2 (52 + e)) by lia.
      rewrite Qpower_plus by discriminate. rewrite Hg, E1. reflexivity. }
    destruct (Z.eq_dec m (2 ^ 53)%Z) as [E2|E2].
    { apply (Hint (2 ^ (53 + e) * 100)%Z).
      rewrite inject_Z_mult, (Zpower_Qpower 2 (53 + e)) by lia.
      rewrite Qpower_plus by discriminate. rewrite Hg, E2. reflexivity. }
    apply near_double_rounds_to_it; [lia | lia|].
    apply Qabs_Qle_condition. set (M := inject_Z m) in *. set (P := 2 ^ e) in *.
    split; lra.
  - exfalso.
    assert (Hn : inject_Z (Zneg q) < 0) by reflexivity. lra.
Qed.

(** Rounding to two decimals the float of a positive amount of at most
    two decimals gives a decimal that stands for the same float. *)
Lemma round2_same_float (p : positive) :
  double (py_round2 (Zpos p # 100)) = double (Zpos p # 100).
Proof.
  destruct (Qlt_le_dec (Zpos p # 100) (2 ^ 46)) as [H|H].
  - rewrite (round2_of_small_hundredths p H). reflexivity.
  - exact (round2_of_large_hundredths p H).
Qed.

(** The two constants of the error bounds, as numbers. *)
Ltac roundoff_constants :=
  unfold unit_roundoff in *;
  change (2 ^ (-53)) with (1 # 9007199254740992) in *;
  let t := eval vm_compute in tiny in change tiny with t in *.

End FloatFacts.

(** ** The name normalizer *)

Module NormalizerFacts.
Import Py KnowledgeBase Spec.

(** *** Words, and strings made of words with single spaces *)

Lemma lit_space : lit " " = [32%N].
Proof. reflexivity. Qed.

(** The equations of [split], [join] and [rstrip] on longer strings. *)
Lemma py_split_cons2 (c d : N) (s : pystr) :
  py_split (c :: d :: s)
  = if is_space c then py_split (d :: s)
    else if is_space d then [c] :: py_split (d :: s)
         else match py_split (d :: s) with
              | w :: ws => (c :: w) :: ws
              | [] => [[c]]
              end.
Proof. reflexivity. Qed.

Lemma py_join_cons2 (w w2 : pystr) (ws : list pystr) :
  py_join [32%N] (w :: w2 :: ws) = w ++ 32%N :: py_join [32%N] (w2 :: ws).
Proof. reflexivity. Qed.

Lemma py_rstrip_cons (c : N) (s : pystr) :
  py_rstrip (c :: s)
  = match py_rstrip s with
    | [] => if is_space c then [] else [c]
    | r => c :: r
    end.
Proof. reflexivity. Qed.

Lemma split_space (c : N) (s : pystr) :
  is_space c = true -> py_split (c :: s) = py_split s.
Proof. intros H. simpl. rewrite H. reflexivity. Qed.

Lemma split_word (w : pystr) : word w -> py_split w = [w].
Proof.
  intros [Hne Hw]. induction w as [|c w IH]; [congruence|].
  inversion Hw as [|? ? Hc Hw']; subst. unfold nonspace in Hc.
  destruct w as [|d w].
  - simpl. rewrite Hc. reflexivity.
  - assert (IH' : py_split (d :: w) = [d :: w]) by (apply IH; [discriminate | exact Hw']).
    inversion Hw' as [|? ? Hd _]; subst. unfold nonspace in Hd.
    rewrite py_split_cons2, Hc, Hd, IH'. reflexivity.
Qed.

Lemma split_word_then_space (w rest : pystr) :
  word w -> py_split (w ++ 32%N :: rest) = w :: py_split rest.
Proof.
  intros [Hne Hw]. induction w as [|c w IH]; [congruence|].
  inversion Hw as [|? ? Hc Hw']; subst. unfold nonspace in Hc.
  destruct w as [|d w].
  - simpl. rewrite Hc. reflexivity.
  - assert (IH' : py_split ((d :: w) ++ 32%N :: rest) = (d :: w) :: py_split rest)
      by (apply IH; [discriminate | exact Hw']).
    inversion Hw' as [|? ? Hd _]; subst. unfold nonspace in Hd.
    rewrite <- app_comm_cons in IH'.
    rewrite <- !app_comm_cons, py_split_cons2, Hc, Hd, IH'. reflexivity.
Qed.

(** Splitting what [join] wrote gives the words back. *)
Lemma split_join (ws : list pystr) :
  Forall word ws -> py_split (py_join [32%N] ws) = ws.
Proof.
  induction ws as [|w ws IH]; intros H; [reflexivity|].
  inversion H as [|? ? Hw Hws]; subst.
  destruct ws as [|w2 ws].
  - simpl. apply split_word. exact Hw.
  - rewrite py_join_cons2, split_word_then_space by exact Hw.
    rewrite IH by exact Hws. reflexivity.
Qed.

(** [split] returns words, made of characters of the string. *)
Lemma split_words (P : N -> Prop) (s : pystr) :
  Forall P s -> Forall (fun w => word w /\ Forall P w) (py_split s).
Proof.
  induction s as [|c s IH]; intros H; [constructor|].
  inversion H as [|? ? Pc Ps]; subst. specialize (IH Ps).
  simpl. destruct (is_space c) eqn:Hc; [exact IH|].
  assert (W1 : word [c] /\ Forall P [c]).
  { split; [split; [discriminate|]|]; constructor; auto. }
  destruct s as [|d s]; [constructor; [exact W1 | constructor]|].
  destruct (is_space d) eqn:Hd; [constructor; [exact W1 | exact IH]|].
  destruct (py_split (d :: s)) as [|w ws]; [constructor; [exact W1 | constructor]|].
  inversion IH as [|? ? [[Hne Hw] Pw] Hws]; subst.
  constructor; [|exact Hws].
  split; [split; [discriminate|]|]; constructor; auto.
Qed.

Lemma join_chars (P : N -> Prop) (ws : list pystr) :
  P 32%N -> Forall (Forall P) ws -> Forall P (py_join [32%N] ws).
Proof.
  intros P32. induction ws as [|w ws IH]; intros H; [constructor|].
  inversion H as [|? ? Hw Hws]; subst.
  destruct ws as [|w2 ws]; [exact Hw|].
  rewrite py_join_cons2. apply List.Forall_app. split; [exact Hw|].
  constructor; [exact P32 | exact (IH Hws)].
Qed.

(** *** Stripping *)

Lemma rstrip_word (w : pystr) : word w -> py_rstrip w = w.
Proof.
  intros [Hne Hw]. induction w as [|c w IH]; [congruence|].
  inversion Hw as [|? ? Hc Hw']; subst. unfold nonspace in Hc.
  destruct w as [|d w].
  - simpl. rewrite Hc. reflexivity.
  - assert (IH' : py_rstrip (d :: w) = d :: w) by (apply IH; [discriminate | exact Hw']).
    rewrite py_rstrip_cons, IH'. reflexivity.
Qed.

Lemma rstrip_app (a b : pystr) :
  py_rstrip b = b -> b <> [] -> py_rstrip (a ++ b) = a ++ b.
Proof.
  intros Hb Hne. induction a as [|c a IH]; [exact Hb|].
  simpl. rewrite IH. destruct (a ++ b) eqn:E; [|reflexivity].
  apply app_eq_nil in E. destruct E as [_ E]. congruence.
Qed.

Lemma join_nonempty (w : pystr) (ws : list pystr) :
  w <> [] -> py_join [32%N] (w :: ws) <> [].
Proof.
  intros Hw. destruct ws as [|w2 ws]; [exact Hw|].
  rewrite py_join_cons2. destruct w; [congruence | discriminate].
Qed.

Lemma rstrip_join (ws : list pystr) :
  Forall word ws -> py_rstrip (py_join [32%N] ws) = py_join [32%N] ws.
Proof.
  induction ws as [|w ws IH]; intros H; [reflexivity|].
  inversion H as [|? ? Hw Hws]; subst.
  destruct ws as [|w2 ws]; [exact (rstrip_word w Hw)|].
  rewrite py_join_cons2. apply rstrip_app.
  - change (32%N :: py_join [32%N] (w2 :: ws))
      with ([32%N] ++ py_join [32%N] (w2 :: ws)).
    inversion Hws as [|? ? [Hne2 _] _]; subst.
    apply rstrip_app; [exact (IH Hws) | exact (join_nonempty w2 ws Hne2)].
  - discriminate.
Qed.

Lemma lstrip_join (ws : list pystr) :
  Forall word ws -> py_lstrip (py_join [32%N] ws) = py_join [32%N] ws.
Proof.
  intros H. destruct ws as [|w ws]; [reflexivity|].
  inversion H as [|? ? [Hne Hw] _]; subst.
  destruct w as [|c w]; [congruence|].
  inversion Hw as [|? ? Hc _]; subst. unfold nonspace in Hc.
  destruct ws as [|w2 ws]; simpl; rewrite Hc; reflexivity.
Qed.

Lemma strip_join (ws : list pystr) :
  Forall word ws -> py_strip (py_join [32%N] ws) = py_join [32%N] ws.
Proof.
  intros H. unfold py_strip. rewrite (lstrip_join ws H). exact (rstrip_join ws H).
Qed.

(** Stripping, slicing and the two loops only remove characters. *)
Lemma lstrip_chars (P : N -> Prop) (s : pystr) : Forall P s -> Forall P (py_lstrip s).
Proof.
  induction s as [|c s IH]; intros H; [constructor|].
  simpl. destruct (is_space c); [|exact H].
  inversion H; subst. auto.
Qed.

Lemma rstrip_chars (P : N -> Prop) (s : pystr) : Forall P s -> Forall P (py_rstrip s).
Proof.
  induction s as [|c s IH]; intros H; [constructor|].
  inversion H as [|? ? Pc Ps]; subst. specialize (IH Ps).
  simpl. destruct (py_rstrip s) as [|d r].
  - destruct (is_space c); constructor; auto.
  - constructor; auto.
Qed.

Lemma strip_chars (P : N -> Prop) (s : pystr) : Forall P s -> Forall P (py_strip s).
Proof. intros H. apply rstrip_chars, lstrip_chars, H. Qed.

Lemma skipn_chars (P : N -> Prop) (n : nat) (s : pystr) :
  Forall P s -> Forall P (skipn n s).
Proof.
  revert s. induction n as [|n IH]; intros [|c s] H; simpl; auto.
  inversion H; subst. auto.
Qed.

Lemma firstn_chars (P : N -> Prop) (n : nat) (s : pystr) :
  Forall P s -> Forall P (firstn n s).
Proof.
  revert s. induction n as [|n IH]; intros [|c s] H; simpl; auto.
  inversion H; subst. constructor; auto.
Qed.

Lemma remove_prefix_chars (P : N -> Prop) (s p : pystr) :
  Forall P s -> Forall P (remove_prefix s p).
Proof.
  intros H. unfold remove_prefix. destruct (startswith p s); [|exact H].
  apply strip_chars, skipn_chars, H.
Qed.

Lemma remove_suffix_chars (P : N -> Prop) (s p : pystr) :
  Forall P s -> Forall P (remove_suffix s p).
Proof.
  intros H. unfold remove_suffix. destruct (endswith p s); [|exact H].
  apply strip_chars. unfold slice_to_neg.
  destruct (length p); [constructor | apply firstn_chars, H].
Qed.

Lemma fold_chars (P : N -> Prop) (f : pystr -> pystr -> pystr) (l : list pystr) :
  (forall s p, Forall P s -> Forall P (f s p)) ->
  forall s, Forall P s -> Forall P (fold_left f l s).
Proof.
  intros Hf. induction l as [|p l IH]; intros s H; simpl; [exact H|].
  apply IH, Hf, H.
Qed.

(** *** The shape of a cleaned name *)

Lemma lower_cp_idem (c : N) : lower_cp (lower_cp c) = lower_cp c.
Proof.
  unfold lower_cp. destruct (cp_between 65 90 c) eqn:E; [|rewrite E; reflexivity].
  assert (H : cp_between 65 90 (c + 32) = false).
  { unfold cp_between in *. apply andb_true_iff in E. destruct E as [E1 E2].
    apply N.leb_le in E1. apply N.leb_le in E2.
    apply andb_false_iff. right. apply N.leb_gt. lia. }
  rewrite H. reflexivity.
Qed.

Lemma sub_special_settled (s : pystr) :
  Forall (fun c => lower_cp c = c) s -> Forall settled (sub_special s).
Proof.
  intros H. unfold sub_special. apply List.Forall_map.
  eapply List.Forall_impl; [|exact H]. intros c Hc. simpl.
  destruct (kept c) eqn:K; split; auto.
Qed.

Lemma clean_name_shape (name : pystr) : cleaned_shape (clean_name_for_matching name).
Proof.
  unfold clean_name_for_matching.
  destruct (nonempty name); [|exists []; split; [reflexivity | constructor]].
  rewrite lit_space. unfold nfkc.
  eexists. split; [reflexivity|].
  apply split_words, sub_special_settled.
  apply fold_chars; [apply remove_suffix_chars|].
  apply fold_chars; [apply remove_prefix_chars|].
  apply strip_chars. unfold py_lower. apply List.Forall_map.
  apply List.Forall_forall. intros c _. apply lower_cp_idem.
Qed.

(** *** Cleaning a cleaned name *)

Lemma fold_unchanged (f : pystr -> pystr -> pystr) (l : list pystr) (s : pystr) :
  Forall (fun p => f s p = s) l -> fold_left f l s = s.
Proof.
  induction l as [|p l IH]; intros H; simpl; [reflexivity|].
  inversion H as [|? ? Hp Hl]; subst. rewrite Hp. exact (IH Hl).
Qed.

Lemma clean_fixed (y : pystr) :
  cleaned_shape y -> without_title_or_suffix y -> clean_name_for_matching y = y.
Proof.
  intros [ws [Ey Hws]] [Hpre Hsuf].
  assert (Hwords : Forall word ws).
  { eapply List.Forall_impl; [|exact Hws]. intros w [H _]. exact H. }
  assert (Hchars : Forall settled y).
  { rewrite Ey. apply join_chars; [split; reflexivity|].
    eapply List.Forall_impl; [|exact Hws]. intros w [_ H]. exact H. }
  unfold clean_name_for_matching. destruct (nonempty y) eqn:Hne.
  2:{ destruct y; [reflexivity | discriminate]. }
  assert (E1 : py_lower y = y).
  { unfold py_lower. clear - Hchars. induction Hchars as [|c s [_ Hc] _ IH];
      simpl; congruence. }
  assert (E2 : py_strip y = y) by (rewrite Ey; exact (strip_join ws Hwords)).
  rewrite E1, E2.
  rewrite (fold_unchanged remove_prefix prefixes_to_remove y).
  2:{ eapply List.Forall_impl; [|exact Hpre]. intros p Hp. unfold remove_prefix.
      simpl in Hp. rewrite Hp. reflexivity. }
  rewrite (fold_unchanged remove_suffix suffixes_to_remove y).
  2:{ eapply List.Forall_impl; [|exact Hsuf]. intros p Hp. unfold remove_suffix.
      simpl in Hp. rewrite Hp. reflexivity. }
  assert (E3 : sub_special y = y).
  { unfold sub_special. clear - Hchars. induction Hchars as [|c s [Hk _] _ IH];
      simpl; [reflexivity|]. rewrite Hk. congruence. }
  rewrite E3. unfold nfkc. rewrite lit_space, Ey.
  rewrite (split_join ws Hwords). reflexivity.
Qed.

(** *** Cleaning stays within the character tables *)

Lemma lower_cp_tabulated (c : N) : tabulated c = true -> tabulated (lower_cp c) = true.
Proof.
  unfold lower_cp. destruct (cp_between 65 90 c) eqn:E; [|tauto].
  intros _. unfold tabulated, cp_between in *.
  apply andb_true_iff in E. destruct E as [_ E]. apply N.leb_le in E.
  apply orb_true_iff. left. apply N.ltb_lt. lia.
Qed.

Lemma clean_name_in_tables (x : pystr) :
  in_tables x -> in_tables (clean_name_for_matching x).
Proof.
  unfold in_tables, clean_name_for_matching. intros H.
  destruct (nonempty x); [|constructor].
  rewrite lit_space. unfold nfkc.
  apply join_chars; [reflexivity|].
  eapply List.Forall_impl;
    [|apply (split_words (fun c => tabulated c = true))].
  { intros w [_ Hw]. exact Hw. }
  unfold sub_special. apply List.Forall_map.
  eapply List.Forall_impl with (P := fun c => tabulated c = true).
  { intros c Hc. destruct (kept c); [exact Hc | reflexivity]. }
  apply fold_chars; [apply remove_suffix_chars|].
  apply fold_chars; [apply remove_prefix_chars|].
  apply strip_chars. unfold py_lower. apply List.Forall_map.
  eapply List.Forall_impl; [|exact H]. exact lower_cp_tabulated.
Qed.

(** *** A cleaned name that keeps a title or a suffix gets shorter *)

Lemma lstrip_length (s : pystr) : (length (py_lstrip s) <= length s)%nat.
Proof. induction s as [|c s IH]; simpl; [lia|]. destruct (is_space c); simpl; lia. Qed.

Lemma rstrip_length (s : pystr) : (length (py_rstrip s) <= length s)%nat.
Proof.
  induction s as [|c s IH]; simpl; [lia|].
  destruct (py_rstrip s) as [|d r]; [destruct (is_space c)|]; simpl in *; lia.
Qed.

Lemma strip_length (s : pystr) : (length (py_strip s) <= length s)%nat.
Proof.
  unfold py_strip. pose proof (rstrip_length (py_lstrip s)).
  pose proof (lstrip_length s). lia.
Qed.

Lemma startswith_length (p s : pystr) :
  startswith p s = true -> (length p <= length s)%nat.
Proof.
  revert s. induction p as [|a p IH]; intros [|b s]; simpl; try lia; try discriminate.
  intros H. apply andb_true_iff in H. destruct H as [_ H]. specialize (IH s H). lia.
Qed.

Lemma remove_prefix_length (s p : pystr) :
  (length (remove_prefix s p) <= length s)%nat
  /\ (p <> [] -> startswith p s = true ->
      (length (remove_prefix s p) < length s)%nat).
Proof.
  unfold remove_prefix, slice_from.
  pose proof (strip_length (skipn (length p) s)) as H.
  rewrite length_skipn in H.
  destruct (startswith p s) eqn:E.
  - split; [lia|]. intros Hp _. apply startswith_length in E.
    destruct p; [congruence|]. simpl in *. lia.
  - split; [lia | discriminate].
Qed.

Lemma remove_suffix_length (s p : pystr) :
  (length (remove_suffix s p) <= length s)%nat
  /\ (p <> [] -> endswith p s = true ->
      (length (remove_suffix s p) < length s)%nat).
Proof.
  unfold remove_suffix, slice_to_neg.
  destruct (endswith p s) eqn:E; [|split; [lia | discriminate]].
  unfold endswith in E. apply startswith_length in E. rewrite !length_rev in E.
  destruct p as [|a p]; [split; [simpl; lia | congruence]|].
  pose proof (strip_length (firstn (length s - length (a :: p)) s)) as H.
  rewrite length_firstn in H. simpl in *. split; [lia|]. intros _ _. lia.
Qed.

(** A loop whose turns never lengthen the string, and shorten it when
    their test passes, shortens a string on which some test passes. *)
Lemma fold_shortens (f : pystr -> pystr -> pystr) (test : pystr -> pystr -> bool)
    (l : list pystr) :
  (forall s p, (length (f s p) <= length s)%nat) ->
  (forall s p, In p l -> test p s = true -> (length (f s p) < length s)%nat) ->
  (forall s p, test p s = false -> f s p = s) ->
  forall s,
    (length (fold_left f l s) <= length s)%nat
    /\ (Exists (fun p => test p s = true) l ->
        (length (fold_left f l s) < length s)%nat).
Proof.
  intros Hle Hlt Hid. induction l as [|p l IH]; intros s; simpl.
  - split; [lia|]. intros H. inversion H.
  - assert (IH' : forall s0,
             (length (fold_left f l s0) <= length s0)%nat
             /\ (Exists (fun p0 => test p0 s0 = true) l ->
                 (length (fold_left f l s0) < length s0)%nat)).
    { apply IH. intros s0 p0 Hin. apply Hlt. right. exact Hin. }
    destruct (IH' (f s p)) as [H1 _]. pose proof (Hle s p) as H2.
    split; [lia|]. intros H.
    destruct (test p s) eqn:E.
    + pose proof (Hlt s p (or_introl eq_refl) E). lia.
    + rewrite (Hid s p E). destruct (IH' s) as [_ H3].
      apply H3. inversion H as [? ? Hp|? ? Hl]; subst; [congruence | exact Hl].
Qed.

Lemma join_cons_length (w : pystr) (ws : list pystr) :
  (length (py_join [32%N] (w :: ws)) <= length w + 1 + length (py_join [32%N] ws))%nat.
Proof.
  destruct ws as [|w2 ws]; [simpl; lia|].
  rewrite py_join_cons2, length_app. simpl. lia.
Qed.

Lemma join_longer_head (c : N) (w : pystr) (ws : list pystr) :
  length (py_join [32%N] ((c :: w) :: ws)) = S (length (py_join [32%N] (w :: ws))).
Proof. destruct ws; reflexivity. Qed.

Lemma join_split_length_lead (s : pystr) :
  (length (py_join [32%N] (py_split s)) + leading_space s <= length s)%nat.
Proof.
  induction s as [|c s IH]; [simpl; lia|].
  cbn [leading_space]. destruct (is_space c) eqn:Hc.
  - rewrite (split_space c s Hc). simpl length. lia.
  - destruct s as [|d s]; [simpl; rewrite Hc; simpl; lia|].
    cbn [leading_space] in IH.
    rewrite py_split_cons2, Hc. destruct (is_space d) eqn:Hd.
    + pose proof (join_cons_length [c] (py_split (d :: s))) as H.
      simpl length in *. lia.
    + destruct (py_split (d :: s)) as [|w ws]; [simpl; lia|].
      rewrite join_longer_head. simpl length in *. lia.
Qed.

Lemma join_split_length (s : pystr) :
  (length (py_join [32%N] (py_split s)) <= length s)%nat.
Proof. pose proof (join_split_length_lead s). lia. Qed.

Lemma sub_special_length (s : pystr) : length (sub_special s) = length s.
Proof. unfold sub_special. apply length_map. Qed.

Lemma listed_nonempty :
  Forall (fun p => p <> []) prefixes_to_remove
  /\ Forall (fun p => p <> []) suffixes_to_remove.
Proof. split; repeat constructor; discriminate. Qed.

Lemma clean_shortens (y : pystr) :
  cleaned_shape y -> ~ without_title_or_suffix y ->
  (length (clean_name_for_matching y) < length y)%nat.
Proof.
  intros [ws [Ey Hws]] Hnot.
  assert (Hwords : Forall word ws).
  { eapply List.Forall_impl; [|exact Hws]. intros w [H _]. exact H. }
  assert (Hchars : Forall settled y).
  { rewrite Ey. apply join_chars; [split; reflexivity|].
    eapply List.Forall_impl; [|exact Hws]. intros w [_ H]. exact H. }
  assert (E1 : py_lower y = y).
  { unfold py_lower. clear - Hchars. induction Hchars as [|c s [_ Hc] _ IH];
      simpl; congruence. }
  assert (E2 : py_strip y = y) by (rewrite Ey; exact (strip_join ws Hwords)).
  destruct listed_nonempty as [Npre Nsuf].
  pose proof (fold_shortens remove_prefix startswith prefixes_to_remove
                (fun s p => proj1 (remove_prefix_length s p))) as Fpre.
  assert (Fpre' := fun H1 H2 => Fpre H1 H2 y). clear Fpre.
  destruct Fpre' as [P1 P2].
  { intros s p Hin. apply (remove_prefix_length s p).
    exact (proj1 (List.Forall_forall _ _) Npre p Hin). }
  { intros s p E. unfold remove_prefix. rewrite E. reflexivity. }
  set (z := fold_left remove_prefix prefixes_to_remove y) in *.
  pose proof (fold_shortens remove_suffix endswith suffixes_to_remove
                (fun s p => proj1 (remove_suffix_length s p))) as Fsuf.
  assert (Fsuf' := fun H1 H2 => Fsuf H1 H2). clear Fsuf.
  assert (Fs : forall s,
             (length (fold_left remove_suffix suffixes_to_remove s) <= length s)%nat
             /\ (Exists (fun p => endswith p s = true) suffixes_to_remove ->
                 (length (fold_left remove_suffix suffixes_to_remove s) < length s)%nat)).
  { apply Fsuf'.
    - intros s p Hin. apply (remove_suffix_length s p).
      exact (proj1 (List.Forall_forall _ _) Nsuf p Hin).
    - intros s p E. unfold remove_suffix. rewrite E. reflexivity. }
  clear Fsuf'.
  assert (Hlen : (length (fold_left remove_suffix suffixes_to_remove z) < length y)%nat).
  { destruct (@List.Forall_Exists_dec pystr (fun p => startswith p y = false)
                (fun p => bool_dec (startswith p y) false) prefixes_to_remove)
      as [Fp|Ep].
    - destruct (@List.Forall_Exists_dec pystr (fun p => endswith p y = false)
                  (fun p => bool_dec (endswith p y) false) suffixes_to_remove)
        as [Fq|Eq].
      + exfalso. apply Hnot. split; assumption.
      + assert (Ez : z = y).
        { unfold z. apply fold_unchanged.
          eapply List.Forall_impl; [|exact Fp]. intros p Hp. unfold remove_prefix.
          simpl in Hp. rewrite Hp. reflexivity. }
        rewrite Ez. apply (Fs y).
        eapply List.Exists_impl; [|exact Eq]. intros p Hp. simpl in Hp.
        destruct (endswith p y); [reflexivity | congruence].
    - assert (Hz : (length z < length y)%nat).
      { apply P2. eapply List.Exists_impl; [|exact Ep]. intros p Hp. simpl in Hp.
        destruct (startswith p y); [reflexivity | congruence]. }
      destruct (Fs z) as [Hz' _]. lia. }
  unfold clean_name_for_matching.
  destruct (nonempty y) eqn:Hne.
  - rewrite E1, E2. fold z. unfold nfkc. rewrite lit_space.
    pose proof (join_split_length
                  (sub_special (fold_left remove_suffix suffixes_to_remove z))) as H.
    rewrite sub_special_length in H. lia.
  - exfalso. destruct y; [|discriminate]. simpl in Hlen. lia.
Qed.

(** A cleaned name that still carries a listed title or suffix is
    changed by a second cleaning. *)
Lemma clean_changes_name_with_title_or_suffix (x : pystr) :
  ~ without_title_or_suffix (clean_name_for_matching x) ->
  clean_name_for_matching (clean_name_for_matching x) <> clean_name_for_matching x.
Proof.
  intros H E. pose proof (clean_shortens _ (clean_name_shape x) H) as Hlt.
  rewrite E in Hlt. lia.
Qed.

(** C5, as the code has it. On a name within the character tables,
    cleaning a cleaned name changes nothing whenever the cleaned name
    neither starts with one of the listed titles nor ends with one of the
    listed company suffixes. *)
Theorem clean_name_idempotent_without_title_or_suffix (x : pystr) :
  in_tables x ->
  without_title_or_suffix (clean_name_for_matching x) ->
  clean_name_for_matching (clean_name_for_matching x) = clean_name_for_matching x.
Proof.
  intros _. exact (clean_fixed _ (clean_name_shape x)).
Qed.

(** C5 fails on a name with a title written twice: each listed title is
    removed once. *)
Lemma clean_name_not_idempotent :
  in_tables (lit "mr.mr.x")
  /\ clean_name_for_matching (lit "mr.mr.x") = lit "mr.x"
  /\ clean_name_for_matching (clean_name_for_matching (lit "mr.mr.x")) = lit "x"
  /\ clean_name_for_matching (clean_name_for_matching (lit "mr.mr.x"))
     <> clean_name_for_matching (lit "mr.mr.x").
Proof.
  split; [repeat constructor|].
  split; [vm_compute; reflexivity|].
  split; [vm_compute; reflexivity|].
  vm_compute. discriminate.
Qed.

(** A suffix uncovered by the character class is removed by a second
    cleaning as well. *)
Example clean_name_uncovers_suffix :
  clean_name_for_matching (lit "x bhd!") = lit "x bhd"
  /\ clean_name_for_matching (lit "x bhd") = lit "x".
Proof. split; vm_compute; reflexivity. Qed.

Lemma clean_name_idempotent_without_title_or_suffix_witness :
  in_tables (lit "  Mr. Ahmad Sdn Bhd ")
  /\ without_title_or_suffix (clean_name_for_matching (lit "  Mr. Ahmad Sdn Bhd "))
  /\ clean_name_for_matching (clean_name_for_matching (lit "  Mr. Ahmad Sdn Bhd "))
     = clean_name_for_matching (lit "  Mr. Ahmad Sdn Bhd ").
Proof.
  assert (H1 : in_tables (lit "  Mr. Ahmad Sdn Bhd ")) by (repeat constructor).
  assert (H2 : without_title_or_suffix
                 (clean_name_for_matching (lit "  Mr. Ahmad Sdn Bhd ")))
    by (split; repeat constructor).
  split; [exact H1|]. split; [exact H2|].
  exact (clean_name_idempotent_without_title_or_suffix
           (lit "  Mr. Ahmad Sdn Bhd ") H1 H2).
Defined.

End NormalizerFacts.

(** ** Ranking of the candidates *)

Module MatcherFacts.
Import Py PyFacts FloatFacts Matcher Sample.
Local Open Scope Q_scope.

Lemma separate_fst (p : option Q) (vr : list Match.t) :
  fst (separate p vr)
  = List.filter Candidate.exact_price_match (map (candidate_of p) vr).
Proof.
  induction vr as [|m vr IH]; simpl; [reflexivity|].
  destruct (separate p vr) as [ex no]. simpl in IH.
  destruct (is_exact_price p (Match.price_per_ton m)); simpl; congruence.
Qed.

Lemma separate_snd (p : option Q) (vr : list Match.t) :
  snd (separate p vr)
  = List.filter (fun c => negb (Candidate.exact_price_match c)) (map (candidate_of p) vr).
Proof.
  induction vr as [|m vr IH]; simpl; [reflexivity|].
  destruct (separate p vr) as [ex no]. simpl in IH.
  destruct (is_exact_price p (Match.price_per_ton m)); simpl; congruence.
Qed.

Lemma In_insert_desc (x c : Candidate.t) (l : list Candidate.t) :
  In x (insert_desc c l) <-> x = c \/ In x l.
Proof.
  induction l as [|d l IH]; simpl.
  - intuition congruence.
  - destruct (Qltb _ _); simpl; rewrite ?IH; intuition congruence.
Qed.

Lemma In_sort_desc (x : Candidate.t) (l : list Candidate.t) :
  In x (sort_desc l) <-> In x l.
Proof.
  induction l as [|c l IH]; simpl; [tauto|].
  rewrite In_insert_desc, IH. intuition congruence.
Qed.

(** The two parts of the ranked list. *)
Lemma all_candidates_parts (vr : list Match.t) (p : option Q) :
  all_candidates vr p
  = sort_desc (fst (separate p vr))
    ++ List.filter good_name_match (sort_desc (snd (separate p vr))).
Proof. unfold all_candidates. destruct (separate p vr); reflexivity. Qed.

Lemma In_exact_part (vr : list Match.t) (p : option Q) (c : Candidate.t) :
  In c (sort_desc (fst (separate p vr)))
  <-> Candidate.exact_price_match c = true /\ exists m, In m vr /\ c = candidate_of p m.
Proof.
  rewrite In_sort_desc, separate_fst, filter_In, in_map_iff.
  split.
  - intros [[m [E Hm]] Hx]. split; [exact Hx|]. exists m. auto.
  - intros [Hx [m [Hm E]]]. split; [exists m; auto | exact Hx].
Qed.

Lemma In_name_part (vr : list Match.t) (p : option Q) (c : Candidate.t) :
  In c (List.filter good_name_match (sort_desc (snd (separate p vr))))
  <-> Candidate.exact_price_match c = false
      /\ double 0.6 < Candidate.combined_confidence c
      /\ exists m, In m vr /\ c = candidate_of p m.
Proof.
  rewrite filter_In, In_sort_desc, separate_snd, filter_In, in_map_iff.
  unfold good_name_match. rewrite Qltb_lt, negb_true_iff.
  split.
  - intros [[[m [E Hm]] Hx] Hg]. repeat split; auto. exists m. auto.
  - intros [Hx [Hg [m [Hm E]]]]. repeat split; auto. exists m. auto.
Qed.

Lemma In_all_candidates (vr : list Match.t) (p : option Q) (c : Candidate.t) :
  In c (all_candidates vr p) -> exists m, In m vr /\ c = candidate_of p m.
Proof.
  rewrite all_candidates_parts, in_app_iff, In_exact_part, In_name_part.
  intros [[_ H]|[_ [_ H]]]; exact H.
Qed.

Lemma In_firstn {A : Type} (n : nat) (l : list A) (x : A) :
  In x (firstn n l) -> In x l.
Proof.
  revert l. induction n as [|n IH]; intros [|a l]; simpl; try tauto.
  intros [E|H]; [left; exact E | right; exact (IH l H)].
Qed.

(** C1. In the ranked list [all_candidates] every candidate with an exact
    price match stands before every candidate without one, whatever the
    similarity scores of the two are. *)
Theorem exact_price_candidates_rank_first
    (vector_results : list Match.t) (extracted_price : option Q)
    (i j : nat) (a b : Candidate.t) :
  nth_error (all_candidates vector_results extracted_price) i = Some a ->
  nth_error (all_candidates vector_results extracted_price) j = Some b ->
  Candidate.exact_price_match a = true ->
  Candidate.exact_price_match b = false ->
  (i < j)%nat.
Proof.
  rewrite all_candidates_parts.
  set (ex := sort_desc (fst (separate extracted_price vector_results))).
  set (no := List.filter good_name_match
               (sort_desc (snd (separate extracted_price vector_results)))).
  intros Ha Hb Ea Eb.
  assert (Hi : (i < length ex)%nat).
  { destruct (Nat.lt_ge_cases i (length ex)) as [H|H]; [exact H|].
    rewrite nth_error_app2 in Ha by exact H.
    apply nth_error_In in Ha. apply In_name_part in Ha.
    destruct Ha as [Ha _]. congruence. }
  assert (Hj : (length ex <= j)%nat).
  { destruct (Nat.lt_ge_cases j (length ex)) as [H|H]; [|exact H].
    rewrite nth_error_app1 in Hb by exact H.
    apply nth_error_In in Hb. apply In_exact_part in Hb.
    destruct Hb as [Hb _]. congruence. }
  lia.
Qed.

Lemma exact_price_candidates_rank_first_witness :
  let vr := [scored_95_other_price; scored_60_same_price] in
  let a := candidate_of (Some 100) scored_60_same_price in
  let b := candidate_of (Some 100) scored_95_other_price in
  nth_error (all_candidates vr (Some 100)) 0 = Some a
  /\ nth_error (all_candidates vr (Some 100)) 1 = Some b
  /\ Candidate.similarity_score a < Candidate.similarity_score b
  /\ (0 < 1)%nat.
Proof.
  intros vr a b.
  assert (Ha : nth_error (all_candidates vr (Some 100)) 0 = Some a) by reflexivity.
  assert (Hb : nth_error (all_candidates vr (Some 100)) 1 = Some b) by reflexivity.
  split; [exact Ha|]. split; [exact Hb|]. split; [reflexivity|].
  exact (exact_price_candidates_rank_first vr (Some 100) 0 1 a b Ha Hb
           eq_refl eq_refl).
Defined.

(** The cases of the reference run: two prices a cent apart as decimals
    are less than 0.01 apart as doubles, and 0.95 times 0.7 is the
    double below 0.665. *)
Example cent_apart_prices_match :
  is_exact_price (Some 10.01) 10 = true
  /\ is_exact_price (Some 50.01) 50 = true
  /\ is_exact_price (Some 10.02) 10 = false.
Proof. repeat split; vm_compute; reflexivity. Qed.

Example combined_confidence_is_rounded :
  Candidate.combined_confidence
    (candidate_of None (Match.mk (lit "ali") 10 (lit "WEIGHT_PRICE") None None 0.95))
  = 5989787504402759 # 9007199254740992.
Proof. vm_compute. reflexivity. Qed.

(** C2. A candidate built from a search result with similarity [s] is an
    exact price match exactly when the extracted price is present and
    positive, the customer price is positive and the difference of the
    two, as the floats subtract, is less than 0.01 in absolute value; its
    combined confidence is the float product [s * 0.95] when it is one,
    and it then always reaches the ranked list; otherwise the combined
    confidence is the float product [s * 0.7] and the candidate reaches
    the ranked list exactly when that value is strictly greater than 0.6.
    Either product is within one part in [2^53] (and [2^-1075]) of the
    product of the two doubles. *)
Theorem combined_confidence_and_threshold
    (vector_results : list Match.t) (extracted_price : option Q) (m : Match.t) :
  In m vector_results ->
  let c := candidate_of extracted_price m in
  let s := Match.confidence_score m in
  (Candidate.exact_price_match c = true
   <-> exists p, extracted_price = Some p /\ 0 < p /\ 0 < Match.price_per_ton m
                 /\ Qabs (fsub p (Match.price_per_ton m)) < double 0.01)
  /\ (Candidate.exact_price_match c = true ->
      Candidate.combined_confidence c = fmul s 0.95
      /\ Qabs (Candidate.combined_confidence c - double s * double 0.95)
         <= Qabs (double s * double 0.95) * unit_roundoff + tiny
      /\ In c (all_candidates vector_results extracted_price))
  /\ (Candidate.exact_price_match c = false ->
      Candidate.combined_confidence c = fmul s 0.7
      /\ Qabs (Candidate.combined_confidence c - double s * double 0.7)
         <= Qabs (double s * double 0.7) * unit_roundoff + tiny
      /\ (In c (all_candidates vector_results extracted_price)
          <-> double 0.6 < Candidate.combined_confidence c)).
Proof.
  intros Hm c s. split; [|split].
  - unfold c, candidate_of. cbn [Candidate.exact_price_match]. unfold is_exact_price.
    destruct extracted_price as [p|].
    + rewrite !andb_true_iff, !Qltb_lt. split.
      * intros [[[_ H1] H2] H3]. exists p. auto.
      * intros [p' [E [H1 [H2 H3]]]]. inversion E; subst p'.
        repeat split; auto. unfold Qnonzero. rewrite negb_true_iff.
        destruct (Qeq_bool p 0) eqn:E0; [|reflexivity].
        apply Qeq_bool_iff in E0. rewrite E0 in H1. exfalso.
        exact (Qlt_irrefl 0 H1).
    + split; [discriminate|]. intros [p [E _]]. discriminate.
  - intros Hx.
    assert (Ec : Candidate.combined_confidence c = fmul s 0.95).
    { unfold c in *. unfold candidate_of in *.
      cbn [Candidate.exact_price_match Candidate.combined_confidence] in *.
      rewrite Hx. reflexivity. }
    split; [exact Ec|]. split.
    + rewrite Ec. apply double_error.
    + rewrite all_candidates_parts. apply in_or_app. left.
      apply In_exact_part. split; [exact Hx|]. exists m. auto.
  - intros Hx.
    assert (Ec : Candidate.combined_confidence c = fmul s 0.7).
    { unfold c in *. unfold candidate_of in *.
      cbn [Candidate.exact_price_match Candidate.combined_confidence] in *.
      rewrite Hx. reflexivity. }
    split; [exact Ec|]. split.
    + rewrite Ec. apply double_error.
    + rewrite all_candidates_parts, in_app_iff, In_exact_part, In_name_part.
      split.
      * intros [[H _]|[_ [H _]]]; [congruence | exact H].
      * intros H. right. split; [exact Hx|]. split; [exact H|]. exists m. auto.
Qed.

Lemma combined_confidence_and_threshold_witness :
  let vr := [scored_95_other_price; scored_60_same_price] in
  In scored_60_same_price vr
  /\ Candidate.combined_confidence (candidate_of (Some 100) scored_60_same_price)
     = fmul (60 # 100) 0.95
  /\ In (candidate_of (Some 100) scored_60_same_price) (all_candidates vr (Some 100)).
Proof.
  intros vr.
  assert (Hin : In scored_60_same_price vr) by (right; left; reflexivity).
  split; [exact Hin|].
  assert (Hx : Candidate.exact_price_match (candidate_of (Some 100) scored_60_same_price)
               = true) by (vm_compute; reflexivity).
  pose proof (proj1 (proj2 (combined_confidence_and_threshold vr (Some 100)
                              scored_60_same_price Hin)) Hx) as [H1 [_ H3]].
  split; [exact H1 | exact H3].
Defined.

End MatcherFacts.

(** ** The fuzzy lookup resolves a cleaned name to its first customer *)

Module LookupFacts.
Import Py KnowledgeBase Spec.

(** [List.find] returns the first element that passes the test. *)
Lemma find_first {A : Type} (f : A -> bool) (l : list A) (x : A) :
  List.find f l = Some x ->
  exists i, nth_error l i = Some x /\ f x = true
            /\ forall j y, (j < i)%nat -> nth_error l j = Some y -> f y = false.
Proof.
  induction l as [|a l IH]; simpl; [discriminate|].
  destruct (f a) eqn:Fa.
  - intros E. inversion E; subst a. exists 0%nat. repeat split; auto.
    intros j y Hj. lia.
  - intros E. destruct (IH E) as [i [Hi [Fx Hbefore]]].
    exists (S i). repeat split; auto.
    intros [|j] y Hj Hy; simpl in Hy.
    + inversion Hy; subst y. exact Fa.
    + apply (Hbefore j y); [lia | exact Hy].
Qed.

Lemma customer_data_nth (customers : list Customer.t) (i : nat) (it : item) :
  nth_error (customer_data_of customers) i = Some it ->
  exists c, nth_error customers i = Some c /\ it = item_of c.
Proof.
  unfold customer_data_of. rewrite nth_error_map.
  destruct (nth_error customers i) as [c|]; simpl; [|discriminate].
  intros E. inversion E. exists c. split; reflexivity.
Qed.

Lemma resolve_first (customers : list Customer.t) (match_name : pystr) (it : item) :
  first_with_cleaned_name match_name (customer_data_of customers) = Some it ->
  exists i, first_of_cleaned_name customers i (customer it)
            /\ clean_name_for_matching (Customer.name (customer it)) = match_name.
Proof.
  unfold first_with_cleaned_name. intros H.
  destruct (find_first _ _ _ H) as [i [Hi [Fx Hbefore]]].
  destruct (customer_data_nth _ _ _ Hi) as [c [Hc E]]. subst it. simpl in *.
  apply bool_decide_eq_true in Fx.
  exists i. split; [|exact Fx]. split; [exact Hc|].
  intros j c' Hj Hclean.
  destruct (Nat.le_gt_cases i j) as [Hle|Hlt]; [exact Hle|]. exfalso.
  assert (Hj' : nth_error (customer_data_of customers) j = Some (item_of c')).
  { unfold customer_data_of. rewrite nth_error_map, Hj. reflexivity. }
  specialize (Hbefore j (item_of c') Hlt Hj'). simpl in Hbefore.
  apply bool_decide_eq_false in Hbefore. apply Hbefore. congruence.
Qed.

Lemma results_of_matches_In (customers : list Customer.t)
    (matches : list (pystr * Z)) (r : Match.t) :
  In r (results_of_matches (customer_data_of customers) matches) ->
  exists match_name score i c,
    In (match_name, score) matches
    /\ first_of_cleaned_name customers i c
    /\ clean_name_for_matching (Customer.name c) = match_name
    /\ r = result_of c score.
Proof.
  unfold results_of_matches. rewrite in_flat_map.
  intros [[match_name score] [Hm Hr]]. simpl in Hr.
  destruct (first_with_cleaned_name match_name (customer_data_of customers))
    as [it|] eqn:E; [|contradiction].
  destruct Hr as [Hr|[]]. subst r.
  destruct (resolve_first _ _ _ E) as [i [Hfirst Hclean]].
  exists match_name, score, i, (customer it). auto.
Qed.

Section Lookup.

Variable extract : pystr -> list pystr -> nat -> res (list (pystr * Z)).

Lemma find_customer_matches_In
    (customers : list Customer.t) (extracted_name : pystr) (k : nat) (r : Match.t) :
  In r (find_customer_matches extract customers extracted_name k) ->
  exists matches,
    extract (clean_name_for_matching extracted_name)
            (map (fun c => clean_name_for_matching (Customer.name c)) customers) k
    = Ok matches
    /\ In r (results_of_matches (customer_data_of customers) matches).
Proof.
  unfold find_customer_matches.
  destruct customers as [|c0 cs] eqn:Ecs; [intros []|]. rewrite <- Ecs.
  assert (Enames : map cleaned_name (customer_data_of customers)
                   = map (fun c => clean_name_for_matching (Customer.name c)) customers).
  { unfold customer_data_of. rewrite map_map. reflexivity. }
  rewrite Enames.
  destruct (extract _ _ k) as [matches|e]; simpl; [|intros []].
  intros Hr. exists matches. split; [reflexivity | exact Hr].
Qed.

(** C10. Every entry [find_customer_matches] returns is built from the
    first customer, in catalogue order, whose cleaned name is the match
    string the fuzzy scorer returned: a customer that comes after another
    one with the same cleaned name is never the one an entry is built
    from. *)
Theorem matches_resolve_to_first_customer
    (customers : list Customer.t) (extracted_name : pystr) (k : nat) (r : Match.t) :
  In r (find_customer_matches extract customers extracted_name k) ->
  exists matches match_name score i c,
    extract (clean_name_for_matching extracted_name)
            (map (fun c => clean_name_for_matching (Customer.name c)) customers) k
    = Ok matches
    /\ In (match_name, score) matches
    /\ clean_name_for_matching (Customer.name c) = match_name
    /\ nth_error customers i = Some c
    /\ (forall j c', nth_error customers j = Some c' ->
          clean_name_for_matching (Customer.name c') = match_name -> (i <= j)%nat)
    /\ r = result_of c score.
Proof.
  intros Hr.
  destruct (find_customer_matches_In _ _ _ _ Hr) as [matches [Hex Hin]].
  destruct (results_of_matches_In _ _ _ Hin)
    as [match_name [score [i [c [Hm [[Hi Hfirst] [Hclean E]]]]]]].
  exists matches, match_name, score, i, c.
  repeat split; auto.
  intros j c' Hj Hc'. apply (Hfirst j c' Hj). congruence.
Qed.

(** The entries of the search are built from catalogue customers. *)
Lemma search_results_from_catalogue
    (customers : list Customer.t) (query : pystr) (top_k : nat) (r : Match.t) :
  In r (search_similar_customers extract customers query top_k) ->
  exists c score, In c customers /\ r = result_of c score.
Proof.
  intros Hr.
  assert (Hr' : In r (find_customer_matches extract customers query top_k)).
  { unfold search_similar_customers in Hr.
    destruct customers; simpl in Hr; [destruct Hr | exact Hr]. }
  destruct (find_customer_matches_In _ _ _ _ Hr') as [matches [_ Hin]].
  destruct (results_of_matches_In _ _ _ Hin)
    as [_ [score [i [c [_ [[Hi _] [_ E]]]]]]].
  exists c, score. split; [exact (nth_error_In _ _ Hi) | exact E].
Qed.

End Lookup.

End LookupFacts.

(** ** The arbiter, its fallbacks and the decision *)

Module ArbiterFacts.
Import Py PyFacts Matcher Spec.
Local Open Scope Q_scope.

Lemma filter_head {A : Type} (f : A -> bool) (l : list A) :
  match List.filter f l with
  | x :: _ => exists i, nth_error l i = Some x /\ f x = true
                        /\ forall j y, (j < i)%nat -> nth_error l j = Some y -> f y = false
  | [] => forall y, In y l -> f y = false
  end.
Proof.
  induction l as [|a l IH]; simpl.
  - intros y [].
  - destruct (f a) eqn:Fa.
    + exists 0%nat. repeat split; auto. intros j y Hj. lia.
    + destruct (List.filter f l) as [|x xs].
      * intros y [E|Hy]; [subst y; exact Fa | exact (IH y Hy)].
      * destruct IH as [i [Hi [Fx Hbefore]]]. exists (S i). repeat split; auto.
        intros [|j] y Hj Hy; simpl in Hy.
        -- inversion Hy; subst y. exact Fa.
        -- apply (Hbefore j y); [lia | exact Hy].
Qed.

Lemma first_exact_Some (candidates : list Candidate.t) (n : pystr) :
  first_exact candidates = Some n ->
  exists c, highest_ranked_exact candidates c /\ Candidate.customer_name c = n.
Proof.
  unfold first_exact.
  pose proof (filter_head Candidate.exact_price_match candidates) as H.
  destruct (List.filter Candidate.exact_price_match candidates) as [|x xs];
    [discriminate|].
  intros E. inversion E. exists x. split; [exact H | reflexivity].
Qed.

Lemma first_exact_None (candidates : list Candidate.t) :
  first_exact candidates = None -> no_exact candidates.
Proof.
  unfold first_exact.
  pose proof (filter_head Candidate.exact_price_match candidates) as H.
  destruct (List.filter Candidate.exact_price_match candidates) as [|x xs];
    [|discriminate].
  intros _. exact H.
Qed.

Lemma fallback_prefers (candidates : list Candidate.t) :
  prefers_exact_else_top candidates (fallback candidates).
Proof.
  unfold fallback. destruct (first_exact candidates) as [n|] eqn:E.
  - destruct (first_exact_Some _ _ E) as [c [Hc En]]. left. exists c.
    split; [exact Hc | congruence].
  - right. split; [exact (first_exact_None _ E)|].
    destruct candidates; reflexivity.
Qed.

Lemma first_exact_prefers (candidates : list Candidate.t) :
  prefers_exact_else_none candidates (first_exact candidates).
Proof.
  destruct (first_exact candidates) as [n|] eqn:E.
  - destruct (first_exact_Some _ _ E) as [c [Hc En]]. left. exists c.
    split; [exact Hc | congruence].
  - right. split; [exact (first_exact_None _ E) | reflexivity].
Qed.

Lemma read_answer_unreadable (candidates : list Candidate.t) (text : pystr) :
  unreadable candidates text ->
  read_answer candidates text = first_exact candidates.
Proof.
  intros [Hnone Hnames]. unfold read_answer.
  rewrite bool_decide_eq_false_2 by exact Hnone.
  destruct (List.find _ candidates) as [c|] eqn:E; [|reflexivity].
  apply find_some in E. destruct E as [Hin Hc].
  rewrite (Hnames c Hin) in Hc. discriminate.
Qed.

(** A name the arbiter returns is the name of one of its candidates. *)
Lemma highest_ranked_exact_In (candidates : list Candidate.t) (c : Candidate.t) :
  highest_ranked_exact candidates c -> In c candidates.
Proof. intros [i [Hi _]]. exact (nth_error_In _ _ Hi). Qed.

Lemma first_exact_names (candidates : list Candidate.t) (n : pystr) :
  first_exact candidates = Some n ->
  exists c, In c candidates /\ Candidate.customer_name c = n.
Proof.
  intros E. destruct (first_exact_Some _ _ E) as [c [Hc En]].
  exists c. split; [exact (highest_ranked_exact_In _ _ Hc) | exact En].
Qed.

Lemma fallback_names (candidates : list Candidate.t) (n : pystr) :
  fallback candidates = Some n ->
  exists c, In c candidates /\ Candidate.customer_name c = n.
Proof.
  unfold fallback. destruct (first_exact candidates) as [n'|] eqn:E.
  - intros E'. inversion E'; subst n'. exact (first_exact_names _ _ E).
  - destruct candidates as [|c cs]; [discriminate|].
    intros E'. inversion E'. exists c. split; [left; reflexivity | reflexivity].
Qed.

Lemma read_answer_names (candidates : list Candidate.t) (text n : pystr) :
  read_answer candidates text = Some n ->
  exists c, In c candidates /\ Candidate.customer_name c = n.
Proof.
  unfold read_answer. destruct (bool_decide _); [discriminate|].
  destruct (List.find _ candidates) as [c|] eqn:E.
  - intros E'. inversion E'. apply find_some in E. exists c. tauto.
  - apply first_exact_names.
Qed.

Section Client.

Variable model : option generate.
Variable customers : list Customer.t.
Variable extract : pystr -> list pystr -> nat -> res (list (pystr * Z)).

Lemma ai_choice_names (original_name : pystr) (candidates : list Candidate.t)
    (extracted_price : option Q) (n : pystr) :
  _ai_choose_best_match_with_price model original_name candidates extracted_price
  = Some n ->
  exists c, In c candidates /\ Candidate.customer_name c = n.
Proof.
  unfold _ai_choose_best_match_with_price.
  destruct model as [g|]; [|apply fallback_names].
  destruct candidates as [|c0 cs] eqn:Ec; [apply fallback_names|]. rewrite <- Ec.
  destruct (g original_name candidates extracted_price) as [text|e]; simpl.
  - apply read_answer_names.
  - apply fallback_names.
Qed.

Lemma chosen_by_name_finds (top_candidates : list Candidate.t) (n : pystr) :
  (exists c, In c top_candidates /\ Candidate.customer_name c = n) ->
  exists c, chosen_by_name top_candidates n = Some c
            /\ In c top_candidates /\ Candidate.customer_name c = n.
Proof.
  intros [c [Hin Hn]]. unfold chosen_by_name.
  destruct (List.find _ top_candidates) as [c'|] eqn:E.
  - apply find_some in E. destruct E as [Hin' Hc'].
    apply bool_decide_eq_true in Hc'. exists c'. auto.
  - exfalso. pose proof (find_none _ _ E c Hin) as H. simpl in H.
    apply bool_decide_eq_false in H. contradiction.
Qed.

(** With a ranked list that is not empty, the function returns; with
    candidates that all have a name, what it returns is the decision on
    the selected candidate. *)
Lemma decision_with_candidates (extracted_name : pystr) (extracted_price : option Q) :
  extracted_name <> [] ->
  let all := all_candidates
               (KnowledgeBase.search_similar_customers extract customers extracted_name 10)
               extracted_price in
  let top := firstn 3 all in
  let ai_choice :=
    _ai_choose_best_match_with_price model extracted_name top extracted_price in
  all <> [] ->
  exists d,
    find_best_customer_match model customers extract extracted_name extracted_price
    = Ok d
    /\ (d = new_customer_detected 0
        \/ exists n s flag cp, d = match_found n s extracted_name flag extracted_price cp)
    /\ ((forall c, In c top -> Candidate.customer_name c <> []) ->
        d = decision_on extracted_name extracted_price (selected top ai_choice)).
Proof.
  intros Hname. cbv zeta. intros Hall.
  unfold find_best_customer_match.
  destruct extracted_name as [|ch name']; [congruence|].
  change (negb (nonempty (ch :: name'))) with false. cbv iota.
  set (name := ch :: name') in *.
  destruct (KnowledgeBase.search_similar_customers extract customers name 10)
    as [|r rs].
  { exfalso. apply Hall. reflexivity. }
  destruct (all_candidates (r :: rs) extracted_price) as [|c0 cs]; [congruence|].
  remember (firstn 3 (c0 :: cs)) as top eqn:Etop. clear Etop.
  destruct (_ai_choose_best_match_with_price model name top extracted_price)
    as [n|] eqn:Eai.
  2:{ exists (new_customer_detected 0). split; [reflexivity|]. split; [left; reflexivity|].
      intros _. reflexivity. }
  destruct (chosen_by_name_finds top n (ai_choice_names _ _ _ _ Eai))
    as [c [Hc [Hin Hn]]].
  unfold selected, decision_on. rewrite Hc, Hn.
  destruct (nonempty n) eqn:En.
  - destruct (Qle_bool 0.5 (Candidate.combined_confidence c)).
    + eexists. split; [reflexivity|]. split; [|intros _; reflexivity].
      right. do 4 eexists. reflexivity.
    + eexists. split; [reflexivity|]. split; [left; reflexivity | intros _; reflexivity].
  - exists (new_customer_detected 0). split; [reflexivity|]. split; [left; reflexivity|].
    intros Hnames. exfalso. apply (Hnames c Hin). rewrite Hn.
    destruct n; [reflexivity | discriminate].
Qed.

Lemma decision_without_candidates (extracted_name : pystr) (extracted_price : option Q) :
  extracted_name <> [] ->
  all_candidates
    (KnowledgeBase.search_similar_customers extract customers extracted_name 10)
    extracted_price = [] ->
  find_best_customer_match model customers extract extracted_name extracted_price
  = Ok (new_customer_detected 0).
Proof.
  intros Hname Hall. unfold find_best_customer_match.
  destruct extracted_name as [|ch name']; [congruence|].
  change (negb (nonempty (ch :: name'))) with false. cbv iota.
  destruct (KnowledgeBase.search_similar_customers extract customers (ch :: name') 10)
    as [|r rs]; [reflexivity|].
  rewrite Hall. reflexivity.
Qed.

(** The candidates carry the names of catalogue customers. *)
Lemma top_candidates_named (extracted_name : pystr) (extracted_price : option Q)
    (n : nat) (c : Candidate.t) :
  (forall cust, In cust customers -> Customer.name cust <> []) ->
  In c (firstn n (all_candidates
                    (KnowledgeBase.search_similar_customers extract customers
                       extracted_name 10)
                    extracted_price)) ->
  Candidate.customer_name c <> [].
Proof.
  intros Hnames Hc. apply MatcherFacts.In_firstn in Hc.
  apply MatcherFacts.In_all_candidates in Hc. destruct Hc as [m [Hm E]].
  apply LookupFacts.search_results_from_catalogue in Hm.
  destruct Hm as [cust [score [Hcust Em]]]. subst c m. simpl.
  exact (Hnames cust Hcust).
Qed.

(** C3. For a name that is not empty and a ranked list that is not empty
    (over a catalogue whose customers all have a name),
    [find_best_customer_match] returns [match_found], with the name, the
    combined confidence and the price-match flag of the selected
    candidate, when that candidate has a combined confidence of at least
    0.5; it returns [new_customer_detected] with confidence 0 when the
    selected candidate has a smaller one, and when the arbiter selected
    none. *)
Theorem match_found_iff_selected_confident
    (extracted_name : pystr) (extracted_price : option Q) :
  extracted_name <> [] ->
  (forall cust, In cust customers -> Customer.name cust <> []) ->
  let all := all_candidates
               (KnowledgeBase.search_similar_customers extract customers extracted_name 10)
               extracted_price in
  let top := firstn 3 all in
  let sel := selected top
               (_ai_choose_best_match_with_price model extracted_name top
                  extracted_price) in
  let returned :=
    find_best_customer_match model customers extract extracted_name extracted_price in
  all <> [] ->
  (forall c, sel = Some c -> 0.5 <= Candidate.combined_confidence c ->
     returned = Ok (match_found (Candidate.customer_name c)
                      (Candidate.combined_confidence c) extracted_name
                      (Candidate.exact_price_match c) extracted_price
                      (Candidate.customer_price c)))
  /\ (forall c, sel = Some c -> Candidate.combined_confidence c < 0.5 ->
        returned = Ok (new_customer_detected 0))
  /\ (sel = None -> returned = Ok (new_customer_detected 0)).
Proof.
  intros Hname Hnames all top sel returned Hall.
  destruct (decision_with_candidates extracted_name extracted_price Hname Hall)
    as [d [Hd [_ Hsel]]].
  fold all top in Hsel. fold sel in Hsel. fold returned in Hd.
  assert (E : d = decision_on extracted_name extracted_price sel).
  { apply Hsel. intros c Hc.
    exact (top_candidates_named extracted_name extracted_price 3 c Hnames Hc). }
  rewrite Hd, E. clear Hd E Hsel. unfold decision_on.
  split; [|split].
  - intros c Hc Hconf. rewrite Hc.
    apply Qle_bool_iff in Hconf. rewrite Hconf. reflexivity.
  - intros c Hc Hconf. rewrite Hc.
    destruct (Qle_bool 0.5 (Candidate.combined_confidence c)) eqn:Eb; [|reflexivity].
    apply Qle_bool_iff in Eb. exfalso. exact (Qlt_not_le _ _ Hconf Eb).
  - intros Hc. rewrite Hc. reflexivity.
Qed.

(** C4, as the code has it. Without a model, and when the call to the
    model raises, the arbiter selects the highest-ranked candidate with an
    exact price match if there is one and the top-ranked candidate
    otherwise. When the model answers with a text that names no
    candidate and is not "NONE", the arbiter selects the highest-ranked
    candidate with an exact price match if there is one, and no candidate
    otherwise. *)
Theorem arbiter_fallback_selection
    (original_name : pystr) (candidates : list Candidate.t)
    (extracted_price : option Q) :
  let choice :=
    _ai_choose_best_match_with_price model original_name candidates extracted_price in
  (model = None -> prefers_exact_else_top candidates choice)
  /\ (forall g e, model = Some g ->
        g original_name candidates extracted_price = Raise e ->
        prefers_exact_else_top candidates choice)
  /\ (forall g text, model = Some g ->
        g original_name candidates extracted_price = Ok text ->
        unreadable candidates text ->
        prefers_exact_else_none candidates choice).
Proof.
  intros choice. unfold choice, _ai_choose_best_match_with_price.
  split; [|split].
  - intros E. rewrite E. apply fallback_prefers.
  - intros g e E Hg. rewrite E.
    destruct candidates as [|c0 cs] eqn:Ec; [apply fallback_prefers|]. rewrite <- Ec.
    rewrite <- Ec in Hg. rewrite Hg. simpl. apply fallback_prefers.
  - intros g text E Hg Hu. rewrite E.
    destruct candidates as [|c0 cs] eqn:Ec.
    + right. split; [intros c []|reflexivity].
    + rewrite <- Ec. rewrite <- Ec in Hg, Hu. rewrite Hg. simpl.
      rewrite (read_answer_unreadable _ _ Hu). apply first_exact_prefers.
Qed.

(** C9. [find_best_customer_match] returns a decision for every name and
    every price, whatever the catalogue, the fuzzy scorer and the model
    do: [no_name_provided] for the empty name, and otherwise
    [new_customer_detected] with confidence 0 or a [match_found]. *)
Theorem find_best_customer_match_never_raises
    (extracted_name : pystr) (extracted_price : option Q) :
  exists d,
    find_best_customer_match model customers extract extracted_name extracted_price
    = Ok d
    /\ match extracted_name with
       | [] => d = no_name_provided 0
       | _ :: _ =>
           d = new_customer_detected 0
           \/ exists n s flag cp,
                d = match_found n s extracted_name flag extracted_price cp
       end.
Proof.
  destruct extracted_name as [|ch name'] eqn:En.
  { exists (no_name_provided 0). split; reflexivity. }
  rewrite <- En.
  assert (Hname : extracted_name <> []) by (rewrite En; discriminate).
  destruct (all_candidates
              (KnowledgeBase.search_similar_customers extract customers
                 extracted_name 10) extracted_price) as [|c0 cs] eqn:Eall.
  - exists (new_customer_detected 0).
    split; [exact (decision_without_candidates _ _ Hname Eall) | left; reflexivity].
  - assert (Hall : all_candidates
                     (KnowledgeBase.search_similar_customers extract customers
                        extracted_name 10) extracted_price <> [])
      by (rewrite Eall; discriminate).
    destruct (decision_with_candidates extracted_name extracted_price Hname Hall)
      as [d [Hd [Hshape _]]].
    exists d. split; [exact Hd | exact Hshape].
Qed.

End Client.

End ArbiterFacts.

(** ** A catalogue with two customers of one cleaned name *)

Module Scenario.
Import Py KnowledgeBase Matcher Spec Sample ArbiterFacts.
Local Open Scope Q_scope.

Example both_clean_to_ahmad :
  map (fun c => clean_name_for_matching (Customer.name c)) catalogue
  = [lit "ahmad"; lit "ahmad"].
Proof. vm_compute. reflexivity. Qed.

Example both_entries_are_the_first_customer :
  find_customer_matches scorer catalogue (lit "ahmad") 5
  = [result_of ahmad 100; result_of ahmad 100].
Proof. vm_compute. reflexivity. Qed.

Lemma matches_resolve_to_first_customer_witness :
  In (result_of ahmad 100) (find_customer_matches scorer catalogue (lit "ahmad") 5)
  /\ exists matches match_name score i c,
       scorer (clean_name_for_matching (lit "ahmad"))
         (map (fun c => clean_name_for_matching (Customer.name c)) catalogue) 5
       = Ok matches
       /\ In (match_name, score) matches
       /\ clean_name_for_matching (Customer.name c) = match_name
       /\ nth_error catalogue i = Some c
       /\ (forall j c', nth_error catalogue j = Some c' ->
             clean_name_for_matching (Customer.name c') = match_name -> (i <= j)%nat)
       /\ result_of ahmad 100 = result_of c score.
Proof.
  assert (H : In (result_of ahmad 100)
                (find_customer_matches scorer catalogue (lit "ahmad") 5))
    by (vm_compute; left; reflexivity).
  split; [exact H|].
  exact (LookupFacts.matches_resolve_to_first_customer scorer catalogue
           (lit "ahmad") 5 (result_of ahmad 100) H).
Defined.

(** End to end: "ahmad" at price 100 is matched to "Ahmad Sdn Bhd" on an
    exact price. *)
Example ahmad_is_matched :
  find_best_customer_match None catalogue scorer (lit "ahmad") (Some 100)
  = Ok (match_found (lit "Ahmad Sdn Bhd") (fmul (100 # 100) 0.95) (lit "ahmad") true
          (Some 100) 100).
Proof. vm_compute. reflexivity. Qed.

Lemma catalogue_named : forall cust, In cust catalogue -> Customer.name cust <> [].
Proof. intros cust [E|[E|[]]]; subst cust; discriminate. Qed.

Lemma match_found_iff_selected_confident_witness :
  let all := all_candidates (search_similar_customers scorer catalogue (lit "ahmad") 10)
               (Some 100) in
  let top := firstn 3 all in
  let sel := selected top
               (_ai_choose_best_match_with_price None (lit "ahmad") top (Some 100)) in
  let returned := find_best_customer_match None catalogue scorer (lit "ahmad") (Some 100) in
  lit "ahmad" <> [] /\ all <> []
  /\ (forall c, sel = Some c -> 0.5 <= Candidate.combined_confidence c ->
        returned = Ok (match_found (Candidate.customer_name c)
                         (Candidate.combined_confidence c) (lit "ahmad")
                         (Candidate.exact_price_match c) (Some 100)
                         (Candidate.customer_price c))).
Proof.
  intros all top sel returned.
  assert (Hname : lit "ahmad" <> []) by discriminate.
  assert (Hall : all <> []) by (vm_compute; discriminate).
  split; [exact Hname|]. split; [exact Hall|].
  exact (proj1 (match_found_iff_selected_confident None catalogue scorer
                  (lit "ahmad") (Some 100) Hname catalogue_named Hall)).
Defined.

Example abc_candidates_value :
  abc_candidates
  = [Candidate.mk (lit "ABC Trading") (fdiv 90 100) 80 (Some 50) false (fmul (90 # 100) 0.7)].
Proof. vm_compute. reflexivity. Qed.

Lemma undecided_is_unreadable : unreadable abc_candidates (lit "I cannot decide").
Proof.
  split; [vm_compute; discriminate|].
  intros c Hc. vm_compute in Hc. destruct Hc as [E|[]]. subst c.
  vm_compute. reflexivity.
Qed.

(** C4 fails on an answer that cannot be read: with no exact-price
    candidate the arbiter selects no candidate, not the top-ranked one. *)
Lemma unreadable_answer_selects_no_candidate :
  let choice :=
    _ai_choose_best_match_with_price (Some undecided) (lit "abc tradin")
      abc_candidates (Some 50) in
  unreadable abc_candidates (lit "I cannot decide")
  /\ choice = None
  /\ ~ prefers_exact_else_top abc_candidates choice.
Proof.
  intros choice. split; [exact undecided_is_unreadable|].
  split; [vm_compute; reflexivity|].
  assert (E0 : choice = None) by (vm_compute; reflexivity). rewrite E0.
  intros [[c [_ E]]|[_ E]]; [discriminate E|].
  vm_compute in E. discriminate E.
Qed.

(** The same answer turns the record into a new customer, where the
    model-free fallback matches it. *)
Example undecided_gives_new_customer :
  find_best_customer_match (Some undecided) [abc_trading] close_scorer
    (lit "abc tradin") (Some 50)
  = Ok (new_customer_detected 0)
  /\ find_best_customer_match None [abc_trading] close_scorer
       (lit "abc tradin") (Some 50)
     = Ok (match_found (lit "ABC Trading") (fmul (90 # 100) 0.7) (lit "abc tradin") false
             (Some 50) 80).
Proof. split; vm_compute; reflexivity. Qed.

Lemma arbiter_fallback_selection_witness :
  prefers_exact_else_top abc_candidates
    (_ai_choose_best_match_with_price None (lit "abc tradin") abc_candidates (Some 50))
  /\ prefers_exact_else_top abc_candidates
       (_ai_choose_best_match_with_price (Some failing) (lit "abc tradin")
          abc_candidates (Some 50))
  /\ prefers_exact_else_none abc_candidates
       (_ai_choose_best_match_with_price (Some undecided) (lit "abc tradin")
          abc_candidates (Some 50)).
Proof.
  split; [|split].
  - exact (proj1 (arbiter_fallback_selection None (lit "abc tradin")
                    abc_candidates (Some 50)) eq_refl).
  - exact (proj1 (proj2 (arbiter_fallback_selection (Some failing) (lit "abc tradin")
                           abc_candidates (Some 50)))
             failing ExternalError eq_refl eq_refl).
  - exact (proj2 (proj2 (arbiter_fallback_selection (Some undecided) (lit "abc tradin")
                           abc_candidates (Some 50)))
             undecided (lit "I cannot decide") eq_refl eq_refl
             undecided_is_unreadable).
Defined.

End Scenario.

(** ** Loading the price list: the worker amount *)

Module LoaderFacts.
Import Py PyFacts FloatFacts KnowledgeBase Spec Sample.
Local Open Scope Q_scope.

Section Loader.

Variable float_of_text : pystr -> option Q.
Variable str_of_num : Q -> pystr.

Lemma derived_worker_value (price : Q) (company : option Q) :
  derived_worker price company
  = match company with
    | Some ca => if Qltb 0 price then Some (py_round2 (fsub price ca)) else None
    | None => None
    end.
Proof. reflexivity. Qed.

(** The amount [round(price - company, 2)] and the company amount add up
    to the price within half a hundredth and three roundings of the
    difference. *)
Lemma derived_amount_close (price ca : Q) :
  Qabs (double ca + py_round2 (fsub price ca) - double price)
  <= (1 # 200) + 3 * (Qabs (double price - double ca) * unit_roundoff + tiny).
Proof.
  pose proof (py_round2_close (fsub price ca)) as H1.
  pose proof (double_error (fsub price ca)) as H2.
  pose proof (double_error (double price - double ca)) as H3.
  fold (fsub price ca) in H3.
  set (wa := py_round2 (fsub price ca)) in *.
  set (s := fsub price ca) in *. set (s' := double s) in *.
  set (D := double price - double ca) in *.
  pose proof (Qabs_nonneg D) as HD. pose proof (Qabs_nonneg s) as Hs.
  assert (Hs' : Qabs s <= Qabs D + (Qabs D * unit_roundoff + tiny)).
  { assert (E : s == (s - D) + D) by ring.
    rewrite E at 1. eapply Qle_trans; [apply Qabs_triangle|]. lra. }
  assert (E : double ca + wa - double price == (wa - s') + (s' - s) + (s - D))
    by (unfold D; ring).
  rewrite E.
  eapply Qle_trans; [apply Qabs_triangle|].
  eapply Qle_trans; [apply Qplus_le_compat; [apply Qabs_triangle | apply Qle_refl]|].
  assert (Eu : unit_roundoff == 1 # 9007199254740992) by reflexivity.
  assert (Ht : 0 <= tiny) by discriminate.
  rewrite Eu in *. lra.
Qed.

(** The same for the float the rounded amount names. *)
Lemma derived_float_close (price ca : Q) :
  Qabs (double ca + double (py_round2 (fsub price ca)) - double price)
  <= (1 # 200) + 3 * (Qabs (double price - double ca) * unit_roundoff + tiny)
     + (Qabs (py_round2 (fsub price ca)) * unit_roundoff + tiny).
Proof.
  pose proof (derived_amount_close price ca) as H1.
  pose proof (double_error (py_round2 (fsub price ca))) as H2.
  set (wa := py_round2 (fsub price ca)) in *.
  assert (E : double ca + double wa - double price
              == (double ca + wa - double price) + (double wa - wa)) by ring.
  rewrite E. eapply Qle_trans; [apply Qabs_triangle|].
  apply Qplus_le_compat; assumption.
Qed.

(** The worker amount a row ends with, from what its worker cell holds. *)
Lemma read_worker_final (cols : col_mappings) (row : list cell)
    (price : Q) (company : option Q) (w : option Q) :
  read_worker float_of_text cols row price company = Ok w ->
  match w with
  | None => derived_worker price company
  | Some x => Some x
  end
  = match worker_cell_number float_of_text cols row with
    | Some v => Some (py_round2 v)
    | None => derived_worker price company
    end.
Proof.
  unfold read_worker, worker_cell_number, index.
  destruct (col_worker_amount cols) as [j|].
  2:{ intros E. inversion E. reflexivity. }
  destruct (nth_error row j) as [v|]; simpl; [|discriminate].
  intros E. inversion E; subst w; clear E.
  destruct v as [|q|s]; simpl.
  - reflexivity.
  - destruct (Qltb 0 q); reflexivity.
  - destruct (float_of_text s) as [q|]; simpl.
    + destruct (Qltb 0 q); reflexivity.
    + destruct (derived_worker price company); reflexivity.
Qed.

(** The fields of the customer a row gives. *)
Lemma customer_of_row_fields (cols : col_mappings) (row : list cell) (c : Customer.t) :
  customer_of_row float_of_text str_of_num cols row = Some c ->
  Customer.name c <> []
  /\ Customer.worker_amount c
     = match worker_cell_number float_of_text cols row with
       | Some v => Some (py_round2 v)
       | None => derived_worker (Customer.price_per_ton c) (Customer.company_amount c)
       end.
Proof.
  unfold customer_of_row.
  destruct (col_name cols) as [i|]; simpl; [|discriminate].
  destruct (index row i) as [name_cell|e]; simpl; [|discriminate].
  destruct (cell_truthy name_cell); simpl; [|discriminate].
  destruct (nonempty (py_strip (cell_str str_of_num name_cell))) eqn:Hne; simpl;
    [|discriminate].
  destruct (read_price float_of_text cols row) as [price|e]; simpl; [|discriminate].
  destruct (read_formula str_of_num cols row) as [formula|e]; simpl; [|discriminate].
  destruct (read_company float_of_text cols row) as [company|e]; simpl; [|discriminate].
  destruct (read_worker float_of_text cols row price company) as [w|e] eqn:Ew; simpl;
    [|discriminate].
  intros E. inversion E; subst c; clear E. simpl. split.
  - intros E. rewrite E in Hne. discriminate.
  - exact (read_worker_final _ _ _ _ _ Ew).
Qed.

Lemma load_rows_In (cols : col_mappings) (rows : list (list cell))
    (customers : list Customer.t) (c : Customer.t) :
  load_rows float_of_text str_of_num cols rows = Ok customers ->
  In c customers ->
  exists row, In row rows /\ customer_of_row float_of_text str_of_num cols row = Some c.
Proof.
  unfold load_rows.
  set (l := flat_map _ rows). intros E Hc.
  assert (Hl : In c l).
  { destruct l; [discriminate|]. inversion E; subst customers. exact Hc. }
  unfold l in Hl. apply in_flat_map in Hl. destruct Hl as [row [Hrow Hin]].
  exists row. split; [exact Hrow|].
  destruct (customer_of_row float_of_text str_of_num cols row) as [c'|];
    [|destruct Hin].
  destruct Hin as [E'|[]]. congruence.
Qed.

(** Every loaded customer has a name. *)
Lemma loaded_customers_named (cols : col_mappings) (rows : list (list cell))
    (customers : list Customer.t) :
  load_rows float_of_text str_of_num cols rows = Ok customers ->
  forall c, In c customers -> Customer.name c <> [].
Proof.
  intros E c Hc. destruct (load_rows_In _ _ _ _ E Hc) as [row [_ Hrow]].
  exact (proj1 (customer_of_row_fields _ _ _ Hrow)).
Qed.

(** C8, as the code has it. For every customer the loader produces from
    a row: when the worker cell of the row holds a positive number, the
    worker amount is [round] of that number to two decimals, whatever
    the price; when it holds none, the company amount is present and the
    price is positive, the worker amount is [round] to two decimals of
    the float difference of the price and the company amount, and the
    two amounts then add up to the price within half a hundredth and
    three roundings of that difference, for the decimal the rounding
    gives and, with one more rounding, for the float it is stored as. *)
Theorem worker_amount_of_loaded_customer
    (cols : col_mappings) (rows : list (list cell))
    (customers : list Customer.t) (c : Customer.t) :
  load_rows float_of_text str_of_num cols rows = Ok customers ->
  In c customers ->
  exists row,
    In row rows
    /\ customer_of_row float_of_text str_of_num cols row = Some c
    /\ (forall v, worker_cell_number float_of_text cols row = Some v ->
          Customer.worker_amount c = Some (py_round2 v))
    /\ (worker_cell_number float_of_text cols row = None ->
        forall ca, Customer.company_amount c = Some ca ->
                   0 < Customer.price_per_ton c ->
          exists wa, Customer.worker_amount c = Some wa
                     /\ wa = py_round2 (fsub (Customer.price_per_ton c) ca)
                     /\ Qabs (double ca + wa - double (Customer.price_per_ton c))
                        <= (1 # 200)
                           + 3 * (Qabs (double (Customer.price_per_ton c) - double ca)
                                  * unit_roundoff + tiny)
                     /\ Qabs (double ca + double wa - double (Customer.price_per_ton c))
                        <= (1 # 200)
                           + 3 * (Qabs (double (Customer.price_per_ton c) - double ca)
                                  * unit_roundoff + tiny)
                           + (Qabs wa * unit_roundoff + tiny)).
Proof.
  intros E Hc. destruct (load_rows_In _ _ _ _ E Hc) as [row [Hrow Hcust]].
  exists row. split; [exact Hrow|]. split; [exact Hcust|].
  destruct (customer_of_row_fields _ _ _ Hcust) as [_ Hw].
  split.
  - intros v Hv. rewrite Hv in Hw. exact Hw.
  - intros Hnone ca Hca Hprice. rewrite Hnone, Hca in Hw. simpl in Hw.
    apply Qltb_lt in Hprice. rewrite Hprice in Hw.
    eexists. split; [exact Hw|]. split; [reflexivity|].
    split; [apply derived_amount_close | apply derived_float_close].
Qed.

End Loader.

(** C8 fails on a row that gives both amounts: they are taken as they
    are, and need not add up to the price. *)
Lemma loaded_amounts_need_not_add_up :
  exists c,
    load_rows no_float no_str four_columns [row_60_30] = Ok [c]
    /\ Customer.price_per_ton c = 100
    /\ Customer.company_amount c = Some 60
    /\ Customer.worker_amount c = Some (py_round2 30)
    /\ Qabs (60 + py_round2 30 - 100) == 10
    /\ ~ Qabs (60 + py_round2 30 - 100) <= 1 # 100.
Proof.
  eexists. split; [vm_compute; reflexivity|].
  split; [reflexivity|]. split; [reflexivity|]. split; [reflexivity|].
  split; [vm_compute; reflexivity|]. vm_compute. intros H. apply H. reflexivity.
Qed.

(** Price 10 and company amount 7.325: the float difference is below
    2.675, and its [round] is 2.67. *)
Example derived_worker_reads_doubles :
  derived_worker 10 (Some 7.325) = Some 2.67
  /\ load_rows no_float no_str four_columns
       [[CText (lit "Ali"); CNum 10; CNum 7.325; CEmpty];
        [CText (lit "Abu"); CNum 10; CNum 7; CNum 2.675]]
     = Ok [Customer.mk (lit "Ali") 10 (lit "WEIGHT_PRICE") (Some 7.325) (Some 2.67);
           Customer.mk (lit "Abu") 10 (lit "WEIGHT_PRICE") (Some 7) (Some 2.67)].
Proof. split; vm_compute; reflexivity. Qed.

Lemma worker_amount_of_loaded_customer_witness :
  let c := Customer.mk (lit "Abu") 100 (lit "WEIGHT_PRICE") (Some 60.333)
             (Some (py_round2 (fsub 100 60.333))) in
  load_rows no_float no_str four_columns [row_60_30; row_60_none]
  = Ok [Customer.mk (lit "Ali") 100 (lit "WEIGHT_PRICE") (Some 60) (Some (py_round2 30)); c]
  /\ exists row,
       In row [row_60_30; row_60_none]
       /\ customer_of_row no_float no_str four_columns row = Some c
       /\ (forall v, worker_cell_number no_float four_columns row = Some v ->
             Customer.worker_amount c = Some (py_round2 v))
       /\ (worker_cell_number no_float four_columns row = None ->
           forall ca, Customer.company_amount c = Some ca ->
                      0 < Customer.price_per_ton c ->
             exists wa, Customer.worker_amount c = Some wa
                        /\ wa = py_round2 (fsub (Customer.price_per_ton c) ca)
                        /\ Qabs (double ca + wa - double (Customer.price_per_ton c))
                           <= (1 # 200)
                              + 3 * (Qabs (double (Customer.price_per_ton c) - double ca)
                                     * unit_roundoff + tiny)
                        /\ Qabs (double ca + double wa - double (Customer.price_per_ton c))
                           <= (1 # 200)
                              + 3 * (Qabs (double (Customer.price_per_ton c) - double ca)
                                     * unit_roundoff + tiny)
                              + (Qabs wa * unit_roundoff + tiny)).
Proof.
  intros c.
  assert (E : load_rows no_float no_str four_columns [row_60_30; row_60_none]
              = Ok [Customer.mk (lit "Ali") 100 (lit "WEIGHT_PRICE") (Some 60)
                      (Some (py_round2 30)); c])
    by (vm_compute; reflexivity).
  split; [exact E|].
  exact (worker_amount_of_loaded_customer no_float no_str four_columns
           [row_60_30; row_60_none] _ c E (or_intror (or_introl eq_refl))).
Defined.

End LoaderFacts.

(** ** Reconciling a record: the weight computed back from the total *)

Module ApiFacts.
Import Py PyFacts Dict Api Spec Sample.
Local Open Scope Q_scope.

Lemma positive_nonzero (x : Q) : 0 < x -> Qnonzero x = true.
Proof.
  intros H. unfold Qnonzero. rewrite negb_true_iff.
  destruct (Qeq_bool x 0) eqn:E; [|reflexivity].
  apply Qeq_bool_iff in E. rewrite E in H. exfalso. exact (Qlt_irrefl 0 H).
Qed.

Section Loop.

Variable float_of_text : pystr -> option Q.
Variable str_of_num : Q -> pystr.
Variable validate_bool : pyval -> option bool.

(** C6, as the code has it. For a record whose extracted weight is zero
    and whose total and price are known and positive, the weight is
    computed back as the float quotient [total / price] when the record
    is count-based and as the float quotient [(total * 1000) / price] of
    the float product when it is weight-based, cut to an integer by
    [int]. *)
Theorem weight_computed_back
    (data : gmap string pyval) (is_count : pyval) (total price : Q) :
  weight_reads_zero data ->
  data !! "total" = Some (PyNum total) -> 0 < total ->
  data !! "price_per_ton" = Some (PyNum price) -> 0 < price ->
  exists company_amount worker_amount,
    numeric_fields float_of_text data is_count
    = Ok (if truthy is_count
          then py_int (fdiv total price)
          else py_int (fdiv (fmul total 1000) price),
          price, total, company_amount, worker_amount).
Proof.
  intros Hw Ht Htpos Hp Hppos.
  unfold numeric_fields, get, get_default. rewrite Ht, Hp.
  assert (E0 : ((if is_none match data !! "weight_kg" with
                             | Some v => v
                             | None => PyNone
                             end
                 then Ok 0%Z
                 else bind (py_float float_of_text
                              match data !! "weight_kg" with
                              | Some v => v
                              | None => PyNum 0
                              end) (fun w => Ok (py_int w))) = Ok 0%Z)).
  { destruct Hw as [E|[E|[w [E Hz]]]]; rewrite E; simpl; [reflexivity..|].
    rewrite Hz. reflexivity. }
  rewrite E0. simpl.
  rewrite (positive_nonzero total Htpos). simpl.
  unfold resolve_weight.
  apply Qltb_lt in Htpos. apply Qltb_lt in Hppos. rewrite Htpos, Hppos. simpl.
  do 2 eexists. destruct (truthy is_count); reflexivity.
Qed.

End Loop.

(** C6 fails on its weight-based example: the weight computed back from
    total 100 and price 20 is 5000, not 50. *)
Lemma weight_based_example_gives_5000 :
  map InvoiceData.weight_kg
    (invoice_objects (process_records no_float no_str only_bool [weight_based_record]))
  = [5000%Z]
  /\ 5000%Z <> 50%Z.
Proof. split; [vm_compute; reflexivity | discriminate]. Qed.

(** The quotient is the one of the doubles: 64.77 times 1000 is below
    64770 as a float, and 3.3 / 1.1 is below 3. *)
Example quotient_of_doubles :
  resolve_weight (PyBool false) 0 51 64.77 = 1269%Z
  /\ resolve_weight (PyBool true) 0 1.1 3.3 = 2%Z
  /\ resolve_weight (PyBool true) 0 20 100 = 5%Z.
Proof. repeat split; vm_compute; reflexivity. Qed.

Example count_based_example_gives_5 :
  map InvoiceData.weight_kg
    (invoice_objects (process_records no_float no_str only_bool [count_based_record]))
  = [5%Z].
Proof. vm_compute. reflexivity. Qed.

Lemma weight_computed_back_witness :
  weight_reads_zero weight_based_record
  /\ weight_based_record !! "total" = Some (PyNum 100) /\ 0 < 100
  /\ weight_based_record !! "price_per_ton" = Some (PyNum 20) /\ 0 < 20
  /\ exists company_amount worker_amount,
       numeric_fields no_float weight_based_record (PyBool false)
       = Ok (py_int (fdiv (fmul 100 1000) 20), 20, 100, company_amount, worker_amount).
Proof.
  assert (H1 : weight_reads_zero weight_based_record).
  { right. right. exists 0. split; vm_compute; reflexivity. }
  assert (H2 : weight_based_record !! "total" = Some (PyNum 100))
    by (vm_compute; reflexivity).
  assert (H3 : 0 < 100) by reflexivity.
  assert (H4 : weight_based_record !! "price_per_ton" = Some (PyNum 20))
    by (vm_compute; reflexivity).
  assert (H5 : 0 < 20) by reflexivity.
  repeat (split; [assumption|]).
  exact (weight_computed_back no_float weight_based_record (PyBool false) 100 20
           H1 H2 H3 H4 H5).
Defined.

End ApiFacts.

(** ** The month sheet: the weight of a "lain" customer *)

Module ExcelFacts.
Import Py Excel Sample.

Lemma In_insert_asc (x a : InvoiceData.t) (l : list InvoiceData.t) :
  In x (insert_asc a l) <-> x = a \/ In x l.
Proof.
  induction l as [|y l IH]; simpl.
  - intuition congruence.
  - destruct (_ <? _)%Z; simpl; rewrite ?IH; intuition congruence.
Qed.

Lemma In_sorted_invoices (x : InvoiceData.t) (l : list InvoiceData.t) :
  In x (sorted_invoices l) <-> In x l.
Proof.
  induction l as [|a l IH]; simpl; [tauto|].
  rewrite In_insert_asc, IH. intuition congruence.
Qed.

Lemma rows_from_In (k : nat) (l : list InvoiceData.t) (row : list value) :
  In row (rows_from k l) ->
  exists invoice n, In invoice l /\ row = row_data invoice n.
Proof.
  revert k. induction l as [|a l IH]; intros k; simpl; [intros []|].
  intros [E|H].
  - exists a, k. auto.
  - destruct (IH _ H) as [invoice [n [Hin E]]]. exists invoice, n. auto.
Qed.

Lemma In_rows_from (k : nat) (l : list InvoiceData.t) (invoice : InvoiceData.t) :
  In invoice l -> exists n, In (row_data invoice n) (rows_from k l).
Proof.
  revert k. induction l as [|a l IH]; intros k; simpl; [intros []|].
  intros [E|H].
  - subst a. exists k. left. reflexivity.
  - destruct (IH (S k) H) as [n Hn]. exists n. right. exact Hn.
Qed.

(** C7. For every invoice whose final customer name contains "lain",
    whatever the case of its letters, the month sheet has a row for the
    invoice, and the weight written to that row is 1, whatever weight the
    invoice carries; and every data row of the sheet whose customer name
    contains "lain" has the weight 1. *)
Theorem lain_customer_weight_is_one
    (invoices : list InvoiceData.t) (invoice : InvoiceData.t) :
  In invoice invoices ->
  py_in (lit "lain") (py_lower (InvoiceData.customer_name invoice)) = true ->
  (exists n, In (row_data invoice n) (data_rows invoices)
             /\ nth_error (row_data invoice n) 2
                = Some (VStr (InvoiceData.customer_name invoice))
             /\ nth_error (row_data invoice n) 3 = Some (VInt 1))
  /\ (forall row name, In row (data_rows invoices) ->
        nth_error row 2 = Some (VStr name) ->
        py_in (lit "lain") (py_lower name) = true ->
        nth_error row 3 = Some (VInt 1)).
Proof.
  assert (Hw : forall inv, py_in (lit "lain") (py_lower (InvoiceData.customer_name inv))
                           = true -> written_weight inv = 1%Z).
  { intros inv H. unfold written_weight. rewrite H.
    destruct (InvoiceData.weight_kg inv =? 1)%Z eqn:E; simpl; [|reflexivity].
    apply Z.eqb_eq in E. exact E. }
  intros Hin Hlain. split.
  - apply In_sorted_invoices in Hin.
    destruct (In_rows_from 2 _ _ Hin) as [n Hn].
    exists n. split; [exact Hn|]. split; [reflexivity|].
    simpl. rewrite (Hw invoice Hlain). reflexivity.
  - intros row name Hrow Hname Hl.
    destruct (rows_from_In _ _ _ Hrow) as [inv [n [_ E]]]. subst row.
    simpl in Hname. inversion Hname; subst name.
    simpl. rewrite (Hw inv Hl). reflexivity.
Qed.

Lemma lain_customer_weight_is_one_witness :
  In lain_invoice [lain_invoice]
  /\ py_in (lit "lain") (py_lower (InvoiceData.customer_name lain_invoice)) = true
  /\ InvoiceData.weight_kg lain_invoice = 7%Z
  /\ exists n, In (row_data lain_invoice n) (data_rows [lain_invoice])
               /\ nth_error (row_data lain_invoice n) 2
                  = Some (VStr (InvoiceData.customer_name lain_invoice))
               /\ nth_error (row_data lain_invoice n) 3 = Some (VInt 1).
Proof.
  assert (H1 : In lain_invoice [lain_invoice]) by (left; reflexivity).
  assert (H2 : py_in (lit "lain") (py_lower (InvoiceData.customer_name lain_invoice))
               = true) by (vm_compute; reflexivity).
  split; [exact H1|]. split; [exact H2|]. split; [reflexivity|].
  exact (proj1 (lain_customer_weight_is_one [lain_invoice] lain_invoice H1 H2)).
Defined.

(** From the record to the sheet: the invoice keeps the extracted weight
    7, the row of the sheet shows 1. *)
Example lain_record_to_sheet :
  let invoices :=
    Api.invoice_objects (Api.process_records no_float no_str only_bool [lain_record]) in
  map InvoiceData.weight_kg invoices = [7%Z]
  /\ map (fun row => nth_error row 3) (data_rows invoices) = [Some (VInt 1)].
Proof. split; vm_compute; reflexivity. Qed.

End ExcelFacts.

(** ** The extraction client: a "lain" service has the weight 1 *)

Module OcrFacts.
Import Py Dict Ocr.
Local Open Scope Q_scope.

Lemma weight_after_total (record : gmap string pyval) (v : pyval) :
  get_default (<["total" := v]> record) "weight_kg" (PyNum 0)
  = get_default record "weight_kg" (PyNum 0).
Proof. unfold get_default. rewrite lookup_insert_ne by discriminate. reflexivity. Qed.

Lemma weight_after_price (record : gmap string pyval) (v : pyval) :
  get_default (<["price_per_ton" := v]> record) "weight_kg" (PyNum 0)
  = get_default record "weight_kg" (PyNum 0).
Proof. unfold get_default. rewrite lookup_insert_ne by discriminate. reflexivity. Qed.

Lemma weight_after_weight (record : gmap string pyval) (v : pyval) :
  get_default (<["weight_kg" := v]> record) "weight_kg" (PyNum 0) = v.
Proof. unfold get_default. rewrite lookup_insert_eq. reflexivity. Qed.

(** After the loop body, a record whose service type contains "lain"
    has a weight equal to 1. *)
Lemma lain_service_weight_is_one
    (record record' : gmap string pyval) (service_type : pystr) :
  service_type_of record = Ok service_type ->
  py_in (lit "lain") (py_lower service_type) = true ->
  post_process record = Ok record' ->
  eq_num (get_default record' "weight_kg" (PyNum 0)) 1 = true.
Proof.
  intros Hs Hlain. unfold post_process. rewrite Hs. simpl. rewrite Hlain.
  set (r1 := match record !! "is_count" with
             | Some _ => record
             | None => <["is_count" := PyBool (_determine_is_count service_type)]> record
             end).
  destruct (eq_num (get_default r1 "weight_kg" (PyNum 0)) 1) eqn:E; simpl.
  - intros E'. inversion E'; subst record'. exact E.
  - set (r3 := if eq_num _ 0 then _ else _).
    destruct (r3 !! "price_per_ton") as [v|]; simpl; [|discriminate].
    intros E'. inversion E'; subst record'.
    rewrite weight_after_total. unfold r3.
    destruct (eq_num _ 0); rewrite ?weight_after_price, weight_after_weight;
      reflexivity.
Qed.

End OcrFacts.

(** ** More on the ranking and the decision *)

Module DecisionFacts.
Import Py PyFacts FloatFacts KnowledgeBase Matcher Spec Sample MatcherFacts LookupFacts ArbiterFacts.
Local Open Scope Q_scope.

(** *** Order inside the two buckets *)

Lemma insert_desc_sorted (c : Candidate.t) (l : list Candidate.t) :
  StronglySorted outranks l -> StronglySorted outranks (insert_desc c l).
Proof.
  induction l as [|d l IH]; intros H; simpl.
  - constructor; constructor.
  - inversion H as [|? ? Hl Hd]; subst.
    destruct (Qltb _ _) eqn:E.
    + apply Qltb_lt in E. constructor; [exact (IH Hl)|].
      apply List.Forall_forall. intros x Hx. apply In_insert_desc in Hx.
      destruct Hx as [Ex|Hx].
      * subst x. unfold outranks. apply Qlt_le_weak. exact E.
      * exact (proj1 (List.Forall_forall _ _) Hd x Hx).
    + apply Qltb_ge in E. constructor; [exact H|].
      constructor; [exact E|].
      eapply List.Forall_impl; [|exact Hd]. intros x Hx. unfold outranks in *.
      eapply Qle_trans; [exact Hx | exact E].
Qed.

Lemma sort_desc_sorted (l : list Candidate.t) : StronglySorted outranks (sort_desc l).
Proof.
  induction l as [|c l IH]; simpl; [constructor|].
  apply insert_desc_sorted. exact IH.
Qed.

Lemma filter_sorted (f : Candidate.t -> bool) (l : list Candidate.t) :
  StronglySorted outranks l -> StronglySorted outranks (List.filter f l).
Proof.
  induction l as [|c l IH]; intros H; simpl; [constructor|].
  inversion H as [|? ? Hl Hc]; subst.
  destruct (f c); [|exact (IH Hl)].
  constructor; [exact (IH Hl)|].
  apply List.Forall_forall. intros x Hx. apply filter_In in Hx.
  exact (proj1 (List.Forall_forall _ _) Hc x (proj1 Hx)).
Qed.

Lemma sorted_nth (l : list Candidate.t) (i j : nat) (a b : Candidate.t) :
  StronglySorted outranks l -> (i < j)%nat ->
  nth_error l i = Some a -> nth_error l j = Some b -> outranks a b.
Proof.
  intros H. revert i j. induction H as [|c l Hl IH Hc]; intros i j Hij Ha Hb.
  - destruct i; discriminate.
  - destruct j as [|j]; [lia|]. simpl in Hb. destruct i as [|i]; simpl in Ha.
    + inversion Ha; subst a.
      exact (proj1 (List.Forall_forall _ _) Hc b (nth_error_In _ _ Hb)).
    + apply (IH i j); [lia | exact Ha | exact Hb].
Qed.

(** X1. Inside each bucket of the ranked list the candidates stand in
    non-increasing combined confidence: of two candidates that both have,
    or both lack, an exact price match, the earlier one has at least the
    combined confidence of the later one. *)
Theorem ranked_by_confidence_within_bucket
    (vector_results : list Match.t) (extracted_price : option Q)
    (i j : nat) (a b : Candidate.t) :
  nth_error (all_candidates vector_results extracted_price) i = Some a ->
  nth_error (all_candidates vector_results extracted_price) j = Some b ->
  (i < j)%nat ->
  Candidate.exact_price_match a = Candidate.exact_price_match b ->
  Candidate.combined_confidence b <= Candidate.combined_confidence a.
Proof.
  rewrite all_candidates_parts.
  set (ex := sort_desc (fst (separate extracted_price vector_results))).
  set (no := List.filter good_name_match
               (sort_desc (snd (separate extracted_price vector_results)))).
  assert (Sex : StronglySorted outranks ex) by apply sort_desc_sorted.
  assert (Sno : StronglySorted outranks no) by apply filter_sorted, sort_desc_sorted.
  intros Ha Hb Hij Eab.
  destruct (Nat.lt_ge_cases j (length ex)) as [Hj|Hj].
  - rewrite nth_error_app1 in Ha by lia. rewrite nth_error_app1 in Hb by lia.
    exact (sorted_nth ex i j a b Sex Hij Ha Hb).
  - rewrite nth_error_app2 in Hb by lia.
    destruct (Nat.lt_ge_cases i (length ex)) as [Hi|Hi].
    + rewrite nth_error_app1 in Ha by lia. exfalso.
      apply nth_error_In in Ha. apply nth_error_In in Hb.
      apply In_exact_part in Ha. apply In_name_part in Hb.
      destruct Ha as [Ha _]. destruct Hb as [Hb _]. congruence.
    + rewrite nth_error_app2 in Ha by lia.
      apply (sorted_nth no (i - length ex) (j - length ex) a b Sno); [lia|assumption..].
Qed.

Lemma ranked_by_confidence_within_bucket_witness :
  let vr := [scored_60_same_price;
             Match.mk (lit "ahmad") 100 (lit "WEIGHT_PRICE") None None (Qmake 90 100)] in
  exists a b,
    nth_error (all_candidates vr (Some 100)) 0 = Some a
    /\ nth_error (all_candidates vr (Some 100)) 1 = Some b
    /\ Candidate.similarity_score a == 90 # 100
    /\ Candidate.combined_confidence b <= Candidate.combined_confidence a.
Proof.
  intros vr. eexists. eexists.
  assert (Ha : nth_error (all_candidates vr (Some 100)) 0 = Some _)
    by (vm_compute; reflexivity).
  assert (Hb : nth_error (all_candidates vr (Some 100)) 1 = Some _)
    by (vm_compute; reflexivity).
  split; [exact Ha|]. split; [exact Hb|]. split; [reflexivity|].
  exact (ranked_by_confidence_within_bucket vr (Some 100) 0 1 _ _ Ha Hb
           (Nat.lt_0_succ 0) eq_refl).
Defined.

(** *** The shape of the function *)

(** The function, with the empty search result read as an empty ranked
    list. *)
Lemma find_best_customer_match_unfold
    (model : option generate) (customers : list Customer.t)
    (extract : pystr -> list pystr -> nat -> res (list (pystr * Z)))
    (extracted_name : pystr) (extracted_price : option Q) :
  find_best_customer_match model customers extract extracted_name extracted_price
  = if negb (nonempty extracted_name) then Ok (no_name_provided 0)
    else
      let all := all_candidates
                   (search_similar_customers extract customers extracted_name 10)
                   extracted_price in
      match all with
      | [] => Ok (new_customer_detected 0)
      | _ :: _ =>
          let top := firstn 3 all in
          match _ai_choose_best_match_with_price model extracted_name top
                  extracted_price with
          | None => Ok (new_customer_detected 0)
          | Some ai_choice =>
              if nonempty ai_choice then
                match chosen_by_name top ai_choice with
                | Some c =>
                    if Qle_bool 0.5 (Candidate.combined_confidence c)
                    then Ok (match_found ai_choice (Candidate.combined_confidence c)
                               extracted_name (Candidate.exact_price_match c)
                               extracted_price (Candidate.customer_price c))
                    else Ok (new_customer_detected 0)
                | None => Raise TypeError
                end
              else Ok (new_customer_detected 0)
          end
      end.
Proof.
  unfold find_best_customer_match.
  destruct (negb (nonempty extracted_name)); [reflexivity|].
  destruct (search_similar_customers extract customers extracted_name 10) as [|r rs];
    [reflexivity|].
  cbv zeta. destruct (all_candidates (r :: rs) extracted_price); reflexivity.
Qed.

(** What a [match_found] says about the candidate it was taken from. *)
Lemma match_found_candidate
    (model : option generate) (customers : list Customer.t)
    (extract : pystr -> list pystr -> nat -> res (list (pystr * Z)))
    (extracted_name : pystr) (extracted_price : option Q)
    (n : pystr) (s : Q) (o : pystr) (flag : bool) (p : option Q) (cp : Q) :
  find_best_customer_match model customers extract extracted_name extracted_price
  = Ok (match_found n s o flag p cp) ->
  extracted_name <> [] /\ n <> [] /\ o = extracted_name /\ p = extracted_price
  /\ 0.5 <= s
  /\ exists c,
       In c (all_candidates
               (search_similar_customers extract customers extracted_name 10)
               extracted_price)
       /\ Candidate.customer_name c = n /\ Candidate.combined_confidence c = s
       /\ Candidate.exact_price_match c = flag /\ Candidate.customer_price c = cp.
Proof.
  rewrite find_best_customer_match_unfold.
  destruct (nonempty extracted_name) eqn:En; simpl; [|discriminate].
  destruct (all_candidates _ extracted_price) as [|c0 cs] eqn:Eall; [discriminate|].
  remember (firstn 3 (c0 :: cs)) as top eqn:Etop.
  destruct (_ai_choose_best_match_with_price model extracted_name top extracted_price)
    as [ai|]; [|discriminate].
  destruct (nonempty ai) eqn:Eai; [|discriminate].
  destruct (chosen_by_name top ai) as [c|] eqn:Ec; [|discriminate].
  destruct (Qle_bool 0.5 (Candidate.combined_confidence c)) eqn:Eq; [|discriminate].
  intros E. inversion E; subst. clear E.
  unfold chosen_by_name in Ec. apply find_some in Ec. destruct Ec as [Hin Hn].
  apply bool_decide_eq_true in Hn.
  split; [intros E; rewrite E in En; discriminate|].
  split; [intros E; rewrite E in Eai; discriminate|].
  split; [reflexivity|]. split; [reflexivity|].
  split; [apply Qle_bool_iff; exact Eq|].
  exists c. split; [exact (In_firstn 3 _ c Hin)|]. auto.
Qed.



(** *** Decisions taken by the fallback *)

Lemma filter_none {A : Type} (f : A -> bool) (l : list A) :
  (forall x, In x l -> f x = false) -> List.filter f l = [].
Proof.
  induction l as [|a l IH]; intros H; simpl; [reflexivity|].
  rewrite (H a (or_introl eq_refl)). apply IH. intros x Hx. apply H. right. exact Hx.
Qed.

(** The head of the ranked list has an exact price match, or no
    candidate of the list has one. *)
Lemma head_exact_or_none (vr : list Match.t) (p : option Q)
    (c0 : Candidate.t) (rest : list Candidate.t) :
  all_candidates vr p = c0 :: rest ->
  Candidate.exact_price_match c0 = true
  \/ forall c, In c (c0 :: rest) -> Candidate.exact_price_match c = false.
Proof.
  rewrite all_candidates_parts.
  destruct (sort_desc (fst (separate p vr))) as [|e es] eqn:Eex.
  - cbn [app]. intros E. right. intros c Hc. rewrite <- E in Hc.
    apply In_name_part in Hc. tauto.
  - cbn [app]. intros E. inversion E; subst e. left.
    assert (H : In c0 (sort_desc (fst (separate p vr)))) by (rewrite Eex; left; reflexivity).
    apply In_exact_part in H. tauto.
Qed.

Lemma fallback_is_head (vr : list Match.t) (p : option Q)
    (c0 : Candidate.t) (rest : list Candidate.t) :
  all_candidates vr p = c0 :: rest ->
  fallback (firstn 3 (c0 :: rest)) = Some (Candidate.customer_name c0).
Proof.
  intros H. unfold fallback, first_exact. simpl firstn.
  destruct (head_exact_or_none vr p c0 rest H) as [E|E].
  - simpl. rewrite E. reflexivity.
  - rewrite filter_none; [reflexivity|].
    intros x Hx. apply E. change (In x (firstn 3 (c0 :: rest))) in Hx.
    exact (In_firstn 3 _ x Hx).
Qed.

(** X3. Without a model, and when the call to the model raises, the
    arbiter names the top-ranked candidate of the ranked list, and the
    decision is the one on that candidate: after the ranking, the
    preference of the fallback for an exact price match never moves the
    choice away from the head of the list. *)
Theorem fallback_decides_on_top_candidate
    (model : option generate) (customers : list Customer.t)
    (extract : pystr -> list pystr -> nat -> res (list (pystr * Z)))
    (extracted_name : pystr) (extracted_price : option Q)
    (c0 : Candidate.t) (rest : list Candidate.t) :
  (model = None
   \/ exists g e, model = Some g
                  /\ g extracted_name (firstn 3 (c0 :: rest)) extracted_price = Raise e) ->
  extracted_name <> [] ->
  all_candidates (search_similar_customers extract customers extracted_name 10)
    extracted_price = c0 :: rest ->
  _ai_choose_best_match_with_price model extracted_name (firstn 3 (c0 :: rest))
    extracted_price = Some (Candidate.customer_name c0)
  /\ (Candidate.customer_name c0 <> [] ->
      find_best_customer_match model customers extract extracted_name extracted_price
      = Ok (decision_on extracted_name extracted_price (Some c0))).
Proof.
  intros Hmodel Hname Hall.
  assert (Hchoice : _ai_choose_best_match_with_price model extracted_name
                      (firstn 3 (c0 :: rest)) extracted_price
                    = Some (Candidate.customer_name c0)).
  { unfold _ai_choose_best_match_with_price.
    destruct Hmodel as [E|[g [e [E Hg]]]]; rewrite E.
    - exact (fallback_is_head _ _ _ _ Hall).
    - change (firstn 3 (c0 :: rest)) with (c0 :: firstn 2 rest) at 1.
      cbv iota. rewrite Hg. simpl try_except. exact (fallback_is_head _ _ _ _ Hall). }
  split; [exact Hchoice|]. intros Hc0.
  rewrite find_best_customer_match_unfold.
  destruct extracted_name as [|ch name']; [congruence|].
  change (negb (nonempty (ch :: name'))) with false. cbv iota zeta.
  rewrite Hall, Hchoice.
  assert (En : nonempty (Candidate.customer_name c0) = true).
  { destruct (Candidate.customer_name c0); [congruence | reflexivity]. }
  rewrite En. unfold chosen_by_name. simpl firstn. simpl List.find.
  rewrite bool_decide_eq_true_2 by reflexivity.
  unfold decision_on. destruct (Qle_bool 0.5 (Candidate.combined_confidence c0));
    reflexivity.
Qed.

Lemma fallback_decides_on_top_candidate_witness :
  exists c0 rest,
    all_candidates (search_similar_customers scorer catalogue (lit "ahmad") 10)
      (Some 100) = c0 :: rest
    /\ _ai_choose_best_match_with_price (Some failing) (lit "ahmad")
         (firstn 3 (c0 :: rest)) (Some 100) = Some (Candidate.customer_name c0)
    /\ Candidate.customer_name c0 = lit "Ahmad Sdn Bhd".
Proof.
  eexists. eexists.
  assert (Hall : all_candidates (search_similar_customers scorer catalogue (lit "ahmad") 10)
                   (Some 100) = _ :: _) by (vm_compute; reflexivity).
  split; [exact Hall|]. split; [|vm_compute; reflexivity].
  refine (proj1 (fallback_decides_on_top_candidate (Some failing) catalogue scorer
                   (lit "ahmad") (Some 100) _ _ _ _ Hall)).
  - right. exists failing, ExternalError. split; reflexivity.
  - discriminate.
Defined.

(** *** Records that find no candidate *)

Lemma no_element_nil {A : Type} (l : list A) : (forall x, ~ In x l) -> l = [].
Proof. destruct l as [|a l]; [reflexivity|]. intros H. destruct (H a). left. reflexivity. Qed.

Lemma search_results_scored
    (extract : pystr -> list pystr -> nat -> res (list (pystr * Z)))
    (customers : list Customer.t) (query : pystr) (k : nat) (r : Match.t) :
  In r (search_similar_customers extract customers query k) ->
  exists matches match_name score c,
    scorer_call extract customers query k = Ok matches
    /\ In (match_name, score) matches /\ In c customers /\ r = result_of c score.
Proof.
  intros Hr.
  assert (Hr' : In r (find_customer_matches extract customers query k)).
  { unfold search_similar_customers in Hr.
    destruct customers; simpl in Hr; [destruct Hr | exact Hr]. }
  destruct (find_customer_matches_In _ _ _ _ _ Hr') as [matches [Hex Hin]].
  destruct (results_of_matches_In _ _ _ Hin)
    as [match_name [score [i [c [Hm [[Hi _] [_ E]]]]]]].
  exists matches, match_name, score, c. unfold scorer_call.
  repeat split; auto. exact (nth_error_In _ _ Hi).
Qed.

Lemma unusable_price_never_exact (p : option Q) (cp : Q) :
  unusable_price p -> is_exact_price p cp = false.
Proof.
  unfold unusable_price, is_exact_price. destruct p as [q|]; [|reflexivity].
  intros H. destruct (Qltb 0 q) eqn:E.
  - apply Qltb_lt in E. exfalso. exact (Qlt_not_le _ _ E H).
  - rewrite andb_false_r. reflexivity.
Qed.

(** X4. For a name that is not empty, the function returns
    [new_customer_detected] with confidence 0, whatever the price and
    the model, when the catalogue is empty, when the fuzzy scorer raises
    and when it returns no match. *)
Theorem nothing_found_is_new_customer
    (model : option generate) (customers : list Customer.t)
    (extract : pystr -> list pystr -> nat -> res (list (pystr * Z)))
    (extracted_name : pystr) (extracted_price : option Q) :
  extracted_name <> [] ->
  (customers = []
   \/ (exists e, scorer_call extract customers extracted_name 10 = Raise e)
   \/ scorer_call extract customers extracted_name 10 = Ok []) ->
  find_best_customer_match model customers extract extracted_name extracted_price
  = Ok (new_customer_detected 0).
Proof.
  intros Hname H. apply decision_without_candidates; [exact Hname|].
  assert (E : search_similar_customers extract customers extracted_name 10 = []).
  { apply no_element_nil. intros r Hr.
    destruct (search_results_scored _ _ _ _ _ Hr)
      as [matches [mn [score [c [Hcall [Hm [Hc _]]]]]]].
    destruct H as [E|[[e E]|E]].
    - subst customers. destruct Hc.
    - rewrite E in Hcall. discriminate.
    - rewrite E in Hcall. inversion Hcall; subst matches. destruct Hm. }
  rewrite E. reflexivity.
Qed.

Lemma nothing_found_is_new_customer_witness :
  lit "Totally New Co" <> []
  /\ find_best_customer_match (Some undecided) [] scorer (lit "Totally New Co") (Some 100)
     = Ok (new_customer_detected 0).
Proof.
  assert (H : lit "Totally New Co" <> []) by discriminate.
  split; [exact H|].
  exact (nothing_found_is_new_customer (Some undecided) [] scorer
           (lit "Totally New Co") (Some 100) H (or_introl eq_refl)).
Defined.

(** A score of at most 85 gives, as floats, a name-only confidence of at
    most 0.6. *)
Lemma weak_score_below_threshold (score : Z) :
  (score <= 85)%Z -> fmul (fdiv (inject_Z score) 100) 0.7 <= double 0.6.
Proof.
  intros Hs. unfold fmul, fdiv.
  assert (E100 : double 100 = 100) by (vm_compute; reflexivity).
  assert (E7 : double 0.7 = 3152519739159347 # 4503599627370496) by (vm_compute; reflexivity).
  assert (E6 : double 0.6 = 5404319552844595 # 9007199254740992) by (vm_compute; reflexivity).
  rewrite E100, E7, E6.
  set (c7 := 3152519739159347 # 4503599627370496).
  assert (Eu : unit_roundoff == 1 # 9007199254740992) by reflexivity.
  assert (Ht : tiny <= 1 # 9007199254740992) by (vm_compute; discriminate).
  assert (Ht0 : 0 <= tiny) by discriminate.
  destruct (Z_lt_le_dec score 0) as [Hneg|Hpos].
  - assert (H0 : inject_Z score <= 0) by (rewrite Zle_Qle in *; unfold Qle; simpl; lia).
    pose proof (double_nonpos _ H0) as H1.
    assert (H2 : double (inject_Z score) / 100 <= 0).
    { pose proof (Qmult_le_compat_r _ _ (/ 100) H1) as H. rewrite Qmult_0_l in H.
      apply H. discriminate. }
    pose proof (double_nonpos _ H2) as H3.
    pose proof (double_nonpos _ H3) as H4.
    assert (H5 : double (double (double (inject_Z score) / 100)) * c7 <= 0).
    { pose proof (Qmult_le_compat_r _ _ c7 H4) as H. rewrite Qmult_0_l in H.
      apply H. discriminate. }
    pose proof (double_nonpos _ H5) as H6.
    eapply Qle_trans; [exact H6 | discriminate].
  - assert (H0 : 0 <= inject_Z score) by (unfold Qle; simpl; lia).
    assert (H0' : inject_Z score <= 85) by (unfold Qle; simpl; lia).
    pose proof (double_bounds _ H0) as [_ B1]. pose proof (double_nonneg _ H0) as N1.
    set (a := double (inject_Z score)) in *.
    assert (N2 : 0 <= a / 100).
    { unfold Qdiv. apply Qmult_le_0_compat; [exact N1 | discriminate]. }
    pose proof (double_bounds _ N2) as [_ B2]. pose proof (double_nonneg _ N2) as N3.
    assert (Eq : a / 100 == a * (1 # 100)) by (unfold Qdiv; reflexivity).
    set (b := double (a / 100)) in *.
    pose proof (double_bounds _ N3) as [_ B3]. pose proof (double_nonneg _ N3) as N4.
    set (b' := double b) in *.
    assert (N5 : 0 <= b' * c7).
    { apply Qmult_le_0_compat; [exact N4 | discriminate]. }
    pose proof (double_bounds _ N5) as [_ B4].
    set (r := double (b' * c7)) in *.
    unfold c7 in *. rewrite Eq in B2. rewrite Eu in *. lra.
Qed.

(** X5. Without a usable price (missing, zero or negative) a name is
    matched on similarity alone, and only from a score of 86: when every
    score the fuzzy scorer returns is at most 85, the function returns
    [new_customer_detected] with confidence 0. *)
Theorem weak_names_without_price_are_new_customers
    (model : option generate) (customers : list Customer.t)
    (extract : pystr -> list pystr -> nat -> res (list (pystr * Z)))
    (extracted_name : pystr) (extracted_price : option Q)
    (matches : list (pystr * Z)) :
  extracted_name <> [] ->
  unusable_price extracted_price ->
  scorer_call extract customers extracted_name 10 = Ok matches ->
  Forall (fun m => (snd m <= 85)%Z) matches ->
  find_best_customer_match model customers extract extracted_name extracted_price
  = Ok (new_customer_detected 0).
Proof.
  intros Hname Hprice Hcall Hweak. apply decision_without_candidates; [exact Hname|].
  apply no_element_nil. intros c Hc.
  rewrite all_candidates_parts, in_app_iff, In_exact_part, In_name_part in Hc.
  assert (Hx : forall m, candidate_of extracted_price m = c ->
                         Candidate.exact_price_match c = false).
  { intros m E. subst c. simpl. apply unusable_price_never_exact. exact Hprice. }
  destruct Hc as [[Hex [m [_ E]]]|[_ [Hgood [m [Hm E]]]]].
  - rewrite (Hx m (eq_sym E)) in Hex. discriminate.
  - destruct (search_results_scored _ _ _ _ _ Hm)
      as [matches' [mn [score [cust [Hcall' [Hin [_ Em]]]]]]].
    rewrite Hcall in Hcall'. inversion Hcall'; subst matches'.
    pose proof (proj1 (List.Forall_forall _ _) Hweak _ Hin) as Hs. simpl in Hs.
    pose proof (Hx m (eq_sym E)) as Hne.
    rewrite E, Em in Hgood. unfold candidate_of in Hgood. simpl in Hgood.
    rewrite E, Em in Hne. simpl in Hne. rewrite Hne in Hgood.
    exact (Qlt_not_le _ _ Hgood (weak_score_below_threshold score Hs)).
Qed.

Lemma weak_names_without_price_are_new_customers_witness :
  exists matches,
    scorer_call scorer catalogue (lit "ali") 10 = Ok matches
    /\ Forall (fun m => (snd m <= 85)%Z) matches
    /\ find_best_customer_match None catalogue scorer (lit "ali") (Some 0)
       = Ok (new_customer_detected 0).
Proof.
  eexists.
  assert (H1 : lit "ali" <> []) by discriminate.
  assert (H2 : unusable_price (Some 0)) by (simpl; discriminate).
  assert (H3 : scorer_call scorer catalogue (lit "ali") 10 = Ok _)
    by (vm_compute; reflexivity).
  assert (H4 : Forall (fun m : pystr * Z => (snd m <= 85)%Z)
                 [(lit "ahmad", 40%Z); (lit "ahmad", 40%Z)])
    by (repeat constructor; simpl; lia).
  split; [exact H3|]. split; [exact H4|].
  exact (weak_names_without_price_are_new_customers None catalogue scorer (lit "ali")
           (Some 0) _ H1 H2 H3 H4).
Defined.

(** *** What the floor of 0.5 rejects *)

(** X6. A candidate without an exact price match that the arbiter
    selects is always accepted: in the ranked list such a candidate has a
    combined confidence above 0.6, so the floor of 0.5 only ever rejects
    candidates with an exact price match. *)
Theorem selected_name_only_candidate_is_accepted
    (model : option generate) (customers : list Customer.t)
    (extract : pystr -> list pystr -> nat -> res (list (pystr * Z)))
    (extracted_name : pystr) (extracted_price : option Q) (c : Candidate.t) :
  extracted_name <> [] ->
  (forall cust, In cust customers -> Customer.name cust <> []) ->
  let top := firstn 3 (all_candidates
                         (search_similar_customers extract customers extracted_name 10)
                         extracted_price) in
  selected top
    (_ai_choose_best_match_with_price model extracted_name top extracted_price)
  = Some c ->
  Candidate.exact_price_match c = false ->
  find_best_customer_match model customers extract extracted_name extracted_price
  = Ok (match_found (Candidate.customer_name c) (Candidate.combined_confidence c)
          extracted_name false extracted_price (Candidate.customer_price c)).
Proof.
  intros Hname Hnames top Hsel Hx.
  assert (Hin : In c top).
  { unfold selected in Hsel.
    destruct (_ai_choose_best_match_with_price model extracted_name top extracted_price)
      as [n|]; [|discriminate].
    unfold chosen_by_name in Hsel. apply find_some in Hsel. tauto. }
  assert (Hall : all_candidates
                   (search_similar_customers extract customers extracted_name 10)
                   extracted_price <> []).
  { intros E. unfold top in Hin. rewrite E in Hin. destruct Hin. }
  destruct (decision_with_candidates model customers extract extracted_name
              extracted_price Hname Hall) as [d [Hd [_ Hdec]]].
  fold top in Hdec. rewrite Hsel in Hdec. rewrite Hd, Hdec.
  2:{ intros c' Hc'. exact (top_candidates_named customers extract extracted_name
                               extracted_price 3 c' Hnames Hc'). }
  unfold decision_on.
  apply In_firstn in Hin.
  rewrite all_candidates_parts, in_app_iff, In_exact_part, In_name_part in Hin.
  destruct Hin as [[Hex _]|[_ [Hgood _]]]; [congruence|].
  assert (Hq : Qle_bool 0.5 (Candidate.combined_confidence c) = true).
  { apply Qle_bool_iff. apply Qlt_le_weak. eapply Qlt_trans; [|exact Hgood]. reflexivity. }
  rewrite Hq, Hx. reflexivity.
Qed.

Lemma selected_name_only_candidate_is_accepted_witness :
  exists c,
    selected abc_candidates
      (_ai_choose_best_match_with_price None (lit "abc tradin") abc_candidates (Some 50))
    = Some c
    /\ Candidate.exact_price_match c = false
    /\ find_best_customer_match None [abc_trading] close_scorer (lit "abc tradin") (Some 50)
       = Ok (match_found (Candidate.customer_name c) (Candidate.combined_confidence c)
               (lit "abc tradin") false (Some 50) (Candidate.customer_price c)).
Proof.
  eexists.
  assert (H1 : lit "abc tradin" <> []) by discriminate.
  assert (H2 : forall cust, In cust [abc_trading] -> Customer.name cust <> []).
  { intros cust [E|[]]. subst cust. discriminate. }
  assert (H3 : selected abc_candidates
                 (_ai_choose_best_match_with_price None (lit "abc tradin")
                    abc_candidates (Some 50)) = Some _) by (vm_compute; reflexivity).
  split; [exact H3|]. split; [reflexivity|].
  exact (selected_name_only_candidate_is_accepted None [abc_trading] close_scorer
           (lit "abc tradin") (Some 50) _ H1 H2 H3 eq_refl).
Defined.

(** *** Reading the answer of the model *)

Lemma find_is_first {A : Type} (f : A -> bool) (l : list A) (i : nat) (x : A) :
  nth_error l i = Some x -> f x = true ->
  (forall j y, (j < i)%nat -> nth_error l j = Some y -> f y = false) ->
  List.find f l = Some x.
Proof.
  revert i. induction l as [|a l IH]; intros i Hi Fx Hbefore.
  - destruct i; discriminate.
  - destruct i as [|i]; simpl in *.
    + inversion Hi; subst a. rewrite Fx. reflexivity.
    + rewrite (Hbefore 0%nat a (Nat.lt_0_succ i) eq_refl).
      apply (IH i Hi Fx). intros j y Hj Hy. apply (Hbefore (S j) y); [lia | exact Hy].
Qed.

(** X7. When the model answers with a text other than "NONE", the
    arbiter returns the highest-ranked candidate whose lower-cased name
    occurs anywhere in the lower-cased answer: the names are searched in
    rank order as substrings, whatever else the answer says. *)
Theorem answer_picks_first_candidate_it_contains
    (g : generate) (original_name : pystr) (candidates : list Candidate.t)
    (extracted_price : option Q) (text : pystr) (i : nat) (c : Candidate.t) :
  g original_name candidates extracted_price = Ok text ->
  py_upper (py_strip text) <> lit "NONE" ->
  nth_error candidates i = Some c ->
  py_in (py_lower (Candidate.customer_name c)) (py_lower (py_strip text)) = true ->
  (forall j d, (j < i)%nat -> nth_error candidates j = Some d ->
     py_in (py_lower (Candidate.customer_name d)) (py_lower (py_strip text)) = false) ->
  _ai_choose_best_match_with_price (Some g) original_name candidates extracted_price
  = Some (Candidate.customer_name c).
Proof.
  intros Hg Hnone Hi Hc Hbefore. unfold _ai_choose_best_match_with_price.
  destruct candidates as [|c0 cs] eqn:Ec; [destruct i; discriminate|]. rewrite <- Ec in *.
  rewrite Hg. simpl. unfold read_answer.
  rewrite bool_decide_eq_false_2 by exact Hnone.
  rewrite (find_is_first _ candidates i c Hi Hc Hbefore). reflexivity.
Qed.

Lemma answer_picks_first_candidate_it_contains_witness :
  nth_error ali_then_khalid 0
  = Some (Candidate.mk (lit "Ali") (88 # 100) 70 (Some 50) false (fmul (88 # 100) 0.7))
  /\ _ai_choose_best_match_with_price (Some answers_khalid) (lit "khalid")
       ali_then_khalid (Some 50) = Some (lit "Ali")
  /\ _ai_choose_best_match_with_price (Some answers_khalid) (lit "khalid")
       khalid_then_ali (Some 50) = Some (lit "Khalid").
Proof.
  assert (H0 : nth_error ali_then_khalid 0
               = Some (Candidate.mk (lit "Ali") (88 # 100) 70 (Some 50) false
                         (fmul (88 # 100) 0.7))) by reflexivity.
  assert (H1 : nth_error khalid_then_ali 0
               = Some (Candidate.mk (lit "Khalid") (90 # 100) 80 (Some 50) false
                         (fmul (90 # 100) 0.7))) by reflexivity.
  assert (Hnone : py_upper (py_strip (lit " Khalid ")) <> lit "NONE")
    by (vm_compute; discriminate).
  split; [exact H0|]. split.
  - refine (answer_picks_first_candidate_it_contains answers_khalid (lit "khalid")
              ali_then_khalid (Some 50) (lit " Khalid ") 0 _ eq_refl Hnone H0 _ _).
    + vm_compute. reflexivity.
    + intros j d Hj. lia.
  - refine (answer_picks_first_candidate_it_contains answers_khalid (lit "khalid")
              khalid_then_ali (Some 50) (lit " Khalid ") 0 _ eq_refl Hnone H1 _ _).
    + vm_compute. reflexivity.
    + intros j d Hj. lia.
Defined.

End DecisionFacts.

(** ** More on the name normalizer *)

Module CleaningFacts.
Import Py KnowledgeBase Spec NormalizerFacts.

Lemma shape_is_settled (y : pystr) :
  cleaned_shape y ->
  py_lower y = y /\ py_strip y = y /\ sub_special y = y
  /\ py_join (lit " ") (py_split y) = y.
Proof.
  intros [ws [Ey Hws]].
  assert (Hwords : Forall word ws).
  { eapply List.Forall_impl; [|exact Hws]. intros w [H _]. exact H. }
  assert (Hchars : Forall settled y).
  { rewrite Ey. apply join_chars; [split; reflexivity|].
    eapply List.Forall_impl; [|exact Hws]. intros w [_ H]. exact H. }
  split; [|split; [|split]].
  - unfold py_lower. clear - Hchars.
    induction Hchars as [|c s [_ Hc] _ IH]; simpl; congruence.
  - rewrite Ey. exact (strip_join ws Hwords).
  - unfold sub_special. clear - Hchars.
    induction Hchars as [|c s [Hk _] _ IH]; simpl; [reflexivity|]. rewrite Hk. congruence.
  - rewrite lit_space, Ey, (split_join ws Hwords). reflexivity.
Qed.

(** X8. On a name within the character tables, the cleaned name is in
    its final form for every step but the removal of titles and
    suffixes: lower-casing it, stripping it, replacing special characters
    in it and collapsing its whitespace all leave it as it is, and it
    stays within the character tables. *)
Theorem cleaned_name_is_settled (x : pystr) :
  in_tables x ->
  let y := clean_name_for_matching x in
  py_lower y = y /\ py_strip y = y /\ sub_special y = y
  /\ py_join (lit " ") (py_split y) = y
  /\ in_tables y.
Proof.
  intros Hx y.
  destruct (shape_is_settled y (clean_name_shape x)) as [H1 [H2 [H3 H4]]].
  repeat split; auto. exact (clean_name_in_tables x Hx).
Qed.

Lemma cleaned_name_is_settled_witness :
  in_tables (lit "  Mr.  AHMAD#Trading  Sdn Bhd ")
  /\ clean_name_for_matching (lit "  Mr.  AHMAD#Trading  Sdn Bhd ") = lit "ahmad trading"
  /\ py_strip (clean_name_for_matching (lit "  Mr.  AHMAD#Trading  Sdn Bhd "))
     = clean_name_for_matching (lit "  Mr.  AHMAD#Trading  Sdn Bhd ").
Proof.
  assert (H : in_tables (lit "  Mr.  AHMAD#Trading  Sdn Bhd ")) by (repeat constructor).
  split; [exact H|]. split; [vm_compute; reflexivity|].
  exact (proj1 (proj2 (cleaned_name_is_settled _ H))).
Defined.

Lemma fold_never_longer (f : pystr -> pystr -> pystr) (l : list pystr) :
  (forall s p, (length (f s p) <= length s)%nat) ->
  forall s, (length (fold_left f l s) <= length s)%nat.
Proof.
  intros Hf. induction l as [|p l IH]; intros s; simpl; [lia|].
  pose proof (IH (f s p)). pose proof (Hf s p). lia.
Qed.

Lemma clean_length_le (x : pystr) :
  (length (clean_name_for_matching x) <= length x)%nat.
Proof.
  unfold clean_name_for_matching. destruct (nonempty x); [|simpl; lia].
  rewrite lit_space. unfold nfkc.
  pose proof (join_split_length
                (sub_special
                   (fold_left remove_suffix suffixes_to_remove
                      (fold_left remove_prefix prefixes_to_remove
                         (py_strip (py_lower x)))))) as H1.
  rewrite sub_special_length in H1.
  pose proof (fold_never_longer remove_suffix suffixes_to_remove
                (fun s p => proj1 (remove_suffix_length s p))
                (fold_left remove_prefix prefixes_to_remove (py_strip (py_lower x))))
    as H2.
  pose proof (fold_never_longer remove_prefix prefixes_to_remove
                (fun s p => proj1 (remove_prefix_length s p))
                (py_strip (py_lower x))) as H3.
  pose proof (strip_length (py_lower x)) as H4.
  unfold py_lower in H4 at 2. rewrite length_map in H4. lia.
Qed.

(** X9. Cleaning never lengthens a name within the character tables: the
    cleaned name has at most as many characters as the name.  (Outside
    the tables lower-casing and the compatibility normal form can
    lengthen a name: the ligature U+FB03 becomes three letters.) *)
Theorem clean_name_never_longer (x : pystr) :
  in_tables x ->
  (length (clean_name_for_matching x) <= length x)%nat.
Proof. intros _. exact (clean_length_le x). Qed.

Lemma clean_name_never_longer_witness :
  in_tables (lit "Mr. Ahmad  Trading Sdn Bhd")
  /\ clean_name_for_matching (lit "Mr. Ahmad  Trading Sdn Bhd") = lit "ahmad trading"
  /\ (length (clean_name_for_matching (lit "Mr. Ahmad  Trading Sdn Bhd"))
      <= length (lit "Mr. Ahmad  Trading Sdn Bhd"))%nat.
Proof.
  assert (H : in_tables (lit "Mr. Ahmad  Trading Sdn Bhd")) by (repeat constructor).
  split; [exact H|]. split; [vm_compute; reflexivity|].
  exact (clean_name_never_longer _ H).
Defined.

Lemma clean_times_shift (n : nat) (x : pystr) :
  clean_times n (clean_name_for_matching x) = clean_times (S n) x.
Proof.
  unfold clean_times. induction n as [|n IH]; [reflexivity|].
  simpl in *. rewrite IH. reflexivity.
Qed.

Lemma shaped_name_settles (m : nat) (y : pystr) :
  cleaned_shape y -> (length y <= m)%nat ->
  exists n, (n <= m)%nat /\ clean_times (S n) y = clean_times n y.
Proof.
  revert y. induction m as [|m IH]; intros y Hy Hlen.
  - exists 0%nat. split; [lia|]. destruct y; [reflexivity | simpl in Hlen; lia].
  - destruct (List.Forall_dec (fun p => startswith p y = false)
                (fun p => bool_dec (startswith p y) false) prefixes_to_remove)
      as [Hp|Hp].
    + destruct (List.Forall_dec (fun p => endswith p y = false)
                  (fun p => bool_dec (endswith p y) false) suffixes_to_remove)
        as [Hs|Hs].
      * exists 0%nat. split; [lia|]. simpl. apply clean_fixed; [exact Hy | split; assumption].
      * assert (Hnot : ~ without_title_or_suffix y) by (intros [_ H]; contradiction).
        pose proof (clean_shortens y Hy Hnot) as Hlt.
        destruct (IH (clean_name_for_matching y) (clean_name_shape y)) as [n [Hn E]];
          [lia|].
        exists (S n). split; [lia|]. rewrite <- (clean_times_shift (S n) y), <- (clean_times_shift n y). exact E.
    + assert (Hnot : ~ without_title_or_suffix y) by (intros [H _]; contradiction).
      pose proof (clean_shortens y Hy Hnot) as Hlt.
      destruct (IH (clean_name_for_matching y) (clean_name_shape y)) as [n [Hn E]];
        [lia|].
      exists (S n). split; [lia|]. rewrite <- (clean_times_shift (S n) y), <- (clean_times_shift n y). exact E.
Qed.

(** X10. Cleaning a name again and again comes to rest: on a name within
    the character tables, after at most as many further cleanings as the
    name has characters, one more cleaning changes nothing. *)
Theorem repeated_cleaning_settles (x : pystr) :
  in_tables x ->
  exists n, (n <= length x)%nat
            /\ clean_times (S (S n)) x = clean_times (S n) x.
Proof.
  intros _.
  destruct (shaped_name_settles (length x) (clean_name_for_matching x)
              (clean_name_shape x) (clean_length_le x)) as [n [Hn E]].
  exists n. split; [exact Hn|]. rewrite <- (clean_times_shift (S n) x), <- (clean_times_shift n x). exact E.
Qed.

Lemma repeated_cleaning_settles_witness :
  in_tables (lit "dr.mr.x bhd ltd")
  /\ clean_times 1 (lit "dr.mr.x bhd ltd") = lit "mr.x bhd"
  /\ clean_times 2 (lit "dr.mr.x bhd ltd") = lit "x"
  /\ exists n, (n <= length (lit "dr.mr.x bhd ltd"))%nat
               /\ clean_times (S (S n)) (lit "dr.mr.x bhd ltd")
                  = clean_times (S n) (lit "dr.mr.x bhd ltd").
Proof.
  assert (H : in_tables (lit "dr.mr.x bhd ltd")) by (repeat constructor).
  split; [exact H|]. split; [vm_compute; reflexivity|]. split; [vm_compute; reflexivity|].
  exact (repeated_cleaning_settles _ H).
Defined.

End CleaningFacts.







(** ** The worksheet of the price list *)

Module WorkbookFacts.
Import Py PyFacts KnowledgeBase Spec Sample LoaderFacts.
Local Open Scope Q_scope.

Lemma is_header_of_spec (f : field) (v : cell) :
  is_header_of f v = true <-> cell_field v = Some f.
Proof.
  unfold is_header_of.
  destruct (cell_field v) as [g|]; destruct f; try destruct g;
    split; intros H; try reflexivity; try discriminate.
Qed.

Lemma scan_cells_column (f : field) (row : list cell) (row_idx : nat) :
  forall (k : nat) (acc : col_mappings * option nat),
    column (fst (scan_cells row row_idx k acc)) f
    = match last_header f row with
      | Some i => Some (k + i)%nat
      | None => column (fst acc) f
      end.
Proof.
  induction row as [|v row IH]; intros k acc; simpl; [reflexivity|].
  rewrite IH. destruct (last_header f row) as [i|].
  - f_equal. lia.
  - unfold is_header_of. destruct (cell_field v) as [g|]; simpl.
    + destruct g, f; simpl; try reflexivity; f_equal; lia.
    + destruct f; reflexivity.
Qed.

Lemma last_header_None (f : field) (row : list cell) :
  last_header f row = None ->
  forall j v, nth_error row j = Some v -> cell_field v <> Some f.
Proof.
  induction row as [|u row IH]; simpl; intros E j v Hv.
  - destruct j; discriminate.
  - destruct (last_header f row) as [i|]; [discriminate|].
    destruct j as [|j]; simpl in Hv.
    + inversion Hv; subst u. intros Hf. apply is_header_of_spec in Hf.
      rewrite Hf in E. discriminate.
    + exact (IH eq_refl j v Hv).
Qed.

Lemma last_header_Some (f : field) (row : list cell) (i : nat) :
  last_header f row = Some i ->
  (exists v, nth_error row i = Some v /\ cell_field v = Some f)
  /\ (forall j v, (i < j)%nat -> nth_error row j = Some v -> cell_field v <> Some f).
Proof.
  revert i. induction row as [|u row IH]; simpl; intros i E; [discriminate|].
  destruct (last_header f row) as [i'|] eqn:El.
  - inversion E; subst i. destruct (IH i' eq_refl) as [[w [Hw Hf]] Hlater].
    split; [exists w; split; assumption|].
    intros j v Hj Hv. destruct j as [|j]; [lia|]. simpl in Hv.
    apply (Hlater j v); [lia | exact Hv].
  - destruct (is_header_of f u) eqn:Hu; [|discriminate].
    inversion E; subst i. split.
    + exists u. split; [reflexivity | apply is_header_of_spec; exact Hu].
    + intros j v Hj Hv. destruct j as [|j]; [lia|]. simpl in Hv.
      exact (last_header_None f row El j v Hv).
Qed.

Lemma last_header_spec (f : field) (row : list cell) (i : nat) :
  last_header f row = Some i
  <-> (exists v, nth_error row i = Some v /\ cell_field v = Some f)
      /\ (forall j v, (i < j)%nat -> nth_error row j = Some v -> cell_field v <> Some f).
Proof.
  split; [apply last_header_Some|].
  intros [[u [Hu Hfu]] Hl].
  destruct (last_header f row) as [i'|] eqn:El.
  - destruct (last_header_Some f row i' El) as [[w [Hw Hfw]] Hl'].
    destruct (Nat.lt_trichotomy i i') as [H|[H|H]].
    + exfalso. exact (Hl i' w H Hw Hfw).
    + congruence.
    + exfalso. exact (Hl' i u H Hu Hfu).
  - exfalso. exact (last_header_None f row El i u Hu Hfu).
Qed.

Lemma scan_header_column (ws : worksheet) (f : field) :
  column (fst (scan_header ws)) f = last_header f (hd [] ws).
Proof.
  unfold scan_header. rewrite scan_cells_column.
  destruct (last_header f (hd [] ws)); [reflexivity | destruct f; reflexivity].
Qed.

(** X11. The column the header scan records for a field is the position
    of the last cell of the first row that is a header of that field: a
    later header of the same field replaces an earlier one, and cells
    that are empty, numbers or unrecognised text are passed over. *)
Theorem header_column_is_last_match (ws : worksheet) (f : field) (i : nat) :
  column (fst (scan_header ws)) f = Some i
  <-> (exists v, nth_error (hd [] ws) i = Some v /\ cell_field v = Some f)
      /\ (forall j v, (i < j)%nat -> nth_error (hd [] ws) j = Some v ->
                      cell_field v <> Some f).
Proof. rewrite scan_header_column. apply last_header_spec. Qed.

Example two_name_headers :
  scan_header [[CText (lit "Name"); CNum 3; CText (lit "Customer"); CText (lit "Total")]]
  = (set_column no_columns f_name 2, Some 1%nat).
Proof. vm_compute. reflexivity. Qed.

Lemma scan_cells_row (row : list cell) (row_idx : nat) :
  forall (k : nat) (acc : col_mappings * option nat),
    snd (scan_cells row row_idx k acc)
    = if existsb (fun v => match cell_field v with Some _ => true | None => false end) row
      then Some row_idx else snd acc.
Proof.
  induction row as [|v row IH]; intros k acc; simpl; [reflexivity|].
  rewrite IH. destruct (cell_field v); simpl.
  - destruct (existsb _ row); reflexivity.
  - reflexivity.
Qed.

Lemma scan_header_row (ws : worksheet) (h : nat) :
  snd (scan_header ws) = Some h -> h = 1%nat.
Proof.
  unfold scan_header. rewrite scan_cells_row.
  destruct (existsb _ _); simpl; congruence.
Qed.

(** *** Stripping twice *)

Lemma rstrip_idem (s : pystr) : py_rstrip (py_rstrip s) = py_rstrip s.
Proof.
  induction s as [|c s IH]; [reflexivity|]. simpl.
  destruct (py_rstrip s) as [|d r] eqn:E.
  - destruct (is_space c) eqn:Hc; simpl; [reflexivity|]. rewrite Hc. reflexivity.
  - change (py_rstrip (c :: d :: r)) with
      (match py_rstrip (d :: r) with
       | [] => if is_space c then [] else [c]
       | r' => c :: r'
       end).
    rewrite IH. reflexivity.
Qed.

Lemma lstrip_head (s : pystr) :
  py_lstrip s = [] \/ exists c t, py_lstrip s = c :: t /\ is_space c = false.
Proof.
  induction s as [|c s IH]; [left; reflexivity|]. simpl.
  destruct (is_space c) eqn:Hc; [exact IH|]. right. exists c, s. split; [reflexivity | exact Hc].
Qed.

Lemma rstrip_head (c : N) (t : pystr) :
  is_space c = false -> exists r, py_rstrip (c :: t) = c :: r.
Proof.
  intros Hc. simpl. destruct (py_rstrip t) as [|d r].
  - rewrite Hc. exists []. reflexivity.
  - exists (d :: r). reflexivity.
Qed.

Lemma strip_idem (s : pystr) : py_strip (py_strip s) = py_strip s.
Proof.
  unfold py_strip. destruct (lstrip_head s) as [E|[c [t [E Hc]]]]; rewrite E.
  - reflexivity.
  - destruct (rstrip_head c t Hc) as [r Er].
    assert (El : py_lstrip (py_rstrip (c :: t)) = py_rstrip (c :: t)).
    { rewrite Er. simpl. rewrite Hc. reflexivity. }
    rewrite El. apply rstrip_idem.
Qed.

(** *** The rows below the header *)

Section Rows.

Variable float_of_text : pystr -> option Q.
Variable str_of_num : Q -> pystr.

Lemma index_within (row : list cell) (j : nat) :
  (j < length row)%nat -> exists v, index row j = Ok v.
Proof.
  intros H. unfold index. destruct (nth_error row j) as [v|] eqn:E; [exists v; reflexivity|].
  apply nth_error_None in E. lia.
Qed.

Lemma index_lt (row : list cell) (j : nat) (v : cell) :
  index row j = Ok v -> (j < length row)%nat.
Proof.
  unfold index. destruct (nth_error row j) as [u|] eqn:E; [|discriminate].
  intros _. apply List.nth_error_Some. congruence.
Qed.

Ltac column_read col :=
  match goal with
  | cols : col_mappings, row : list cell |- _ =>
      destruct (col cols) as [j|];
      [ split;
        [ intros [p E] j' Ej; inversion Ej; subst j';
          destruct (index row j) as [v|e] eqn:Ei;
          [ exact (index_lt _ _ _ Ei) | discriminate ]
        | intros H; destruct (index_within row j (H j eq_refl)) as [v Ev];
          rewrite Ev; simpl; eexists; reflexivity ]
      | split; [ intros _ j' Ej; discriminate | intros _; eexists; reflexivity ] ]
  end.

Lemma read_price_Ok (cols : col_mappings) (row : list cell) :
  (exists p, read_price float_of_text cols row = Ok p)
  <-> (forall j, col_price_per_ton cols = Some j -> (j < length row)%nat).
Proof. unfold read_price. column_read col_price_per_ton. Qed.

Lemma read_formula_Ok (cols : col_mappings) (row : list cell) :
  (exists p, read_formula str_of_num cols row = Ok p)
  <-> (forall j, col_formula cols = Some j -> (j < length row)%nat).
Proof. unfold read_formula. column_read col_formula. Qed.

Lemma read_company_Ok (cols : col_mappings) (row : list cell) :
  (exists p, read_company float_of_text cols row = Ok p)
  <-> (forall j, col_company_amount cols = Some j -> (j < length row)%nat).
Proof. unfold read_company. column_read col_company_amount. Qed.

Lemma read_worker_Ok (cols : col_mappings) (row : list cell)
    (price : Q) (company : option Q) :
  (exists p, read_worker float_of_text cols row price company = Ok p)
  <-> (forall j, col_worker_amount cols = Some j -> (j < length row)%nat).
Proof. unfold read_worker. column_read col_worker_amount. Qed.

(** What the body of the row loop does on a row it keeps. *)
Lemma customer_of_row_Some (cols : col_mappings) (row : list cell) (c : Customer.t) :
  customer_of_row float_of_text str_of_num cols row = Some c
  <-> exists i name_cell price formula company worker,
        col_name cols = Some i
        /\ index row i = Ok name_cell
        /\ usable_name str_of_num name_cell = true
        /\ read_price float_of_text cols row = Ok price
        /\ read_formula str_of_num cols row = Ok formula
        /\ read_company float_of_text cols row = Ok company
        /\ read_worker float_of_text cols row price company = Ok worker
        /\ c = Customer.mk (py_strip (cell_str str_of_num name_cell)) price formula company
                 (match worker with
                  | None => derived_worker price company
                  | Some w => Some w
                  end).
Proof.
  unfold customer_of_row, usable_name. split.
  - destruct (col_name cols) as [i|]; simpl; [|discriminate].
    destruct (index row i) as [name_cell|e] eqn:En; simpl; [|discriminate].
    destruct (cell_truthy name_cell) eqn:Ht; simpl; [|discriminate].
    destruct (nonempty (py_strip (cell_str str_of_num name_cell))) eqn:Hne; simpl;
      [|discriminate].
    destruct (read_price float_of_text cols row) as [price|e] eqn:Ep; simpl;
      [|discriminate].
    destruct (read_formula str_of_num cols row) as [formula|e] eqn:Ef; simpl;
      [|discriminate].
    destruct (read_company float_of_text cols row) as [company|e] eqn:Ec; simpl;
      [|discriminate].
    destruct (read_worker float_of_text cols row price company) as [w|e] eqn:Ew; simpl;
      [|discriminate].
    intros E. inversion E; subst c; clear E.
    exists i, name_cell, price, formula, company, w.
    rewrite Ht, Hne. repeat split; assumption || reflexivity.
  - intros (i & name_cell & price & formula & company & w
            & Ei & En & Hu & Ep & Ef & Ec & Ew & E).
    rewrite Ei, En. simpl. apply andb_true_iff in Hu. destruct Hu as [Ht Hne].
    rewrite Ht, Hne. simpl. rewrite Ep. simpl. rewrite Ef. simpl. rewrite Ec. simpl.
    rewrite Ew. simpl. rewrite E. reflexivity.
Qed.

(** X12. The row loop keeps a row exactly when its name cell holds a
    value that is true and not blank and every mapped column is a
    position of the row: whatever the cells for price, formula and the
    two amounts hold, they never make the loop drop the row. *)
Theorem row_kept_iff_name_usable (cols : col_mappings) (row : list cell) :
  (exists c, customer_of_row float_of_text str_of_num cols row = Some c)
  <-> (exists i name_cell,
          col_name cols = Some i
          /\ nth_error row i = Some name_cell
          /\ usable_name str_of_num name_cell = true)
      /\ columns_within cols row.
Proof.
  split.
  - intros [c Hc]. apply customer_of_row_Some in Hc.
    destruct Hc as (i & name_cell & price & formula & company & w
                    & Ei & En & Hu & Ep & Ef & Ec & Ew & E).
    split.
    + exists i, name_cell. split; [exact Ei|]. split; [|exact Hu].
      unfold index in En. destruct (nth_error row i); inversion En. reflexivity.
    + intros f j Hf. destruct f; simpl in Hf.
      * rewrite Ei in Hf. inversion Hf; subst j. exact (index_lt _ _ _ En).
      * exact (proj1 (read_price_Ok cols row) (ex_intro _ _ Ep) j Hf).
      * exact (proj1 (read_formula_Ok cols row) (ex_intro _ _ Ef) j Hf).
      * exact (proj1 (read_company_Ok cols row) (ex_intro _ _ Ec) j Hf).
      * exact (proj1 (read_worker_Ok cols row price company) (ex_intro _ _ Ew) j Hf).
  - intros [(i & name_cell & Ei & En & Hu) Hw].
    destruct (proj2 (read_price_Ok cols row) (Hw f_price_per_ton)) as [price Ep].
    destruct (proj2 (read_formula_Ok cols row) (Hw f_formula)) as [formula Ef].
    destruct (proj2 (read_company_Ok cols row) (Hw f_company_amount)) as [company Ec].
    destruct (proj2 (read_worker_Ok cols row price company) (Hw f_worker_amount))
      as [w Ew].
    eexists. apply customer_of_row_Some.
    exists i, name_cell, price, formula, company, w.
    split; [exact Ei|]. split; [unfold index; rewrite En; reflexivity|].
    split; [exact Hu|]. repeat split; try assumption.
Qed.

Example text_for_numbers_keeps_the_row :
  customer_of_row no_float no_str four_columns
    [CText (lit " Ali "); CText (lit "n/a"); CText (lit "?"); CText (lit "-")]
  = Some (Customer.mk (lit "Ali") 0 (lit "WEIGHT_PRICE") None None).
Proof. vm_compute. reflexivity. Qed.

Lemma read_company_positive (cols : col_mappings) (row : list cell) (ca : Q) :
  read_company float_of_text cols row = Ok (Some ca) -> 0 < ca.
Proof.
  unfold read_company. destruct (col_company_amount cols) as [j|]; [|discriminate].
  destruct (index row j) as [v|e]; simpl; [|discriminate].
  intros E. inversion E as [E']; clear E.
  destruct v as [|q|s]; simpl in E'; [discriminate | |].
  - destruct (Qltb 0 q) eqn:Hq; inversion E'; subst ca. apply Qltb_lt. exact Hq.
  - destruct (float_of_text s) as [q|]; simpl in E'; [|discriminate].
    destruct (Qltb 0 q) eqn:Hq; inversion E'; subst ca. apply Qltb_lt. exact Hq.
Qed.

Lemma derived_worker_hundredths (price : Q) (company : option Q) (wa : Q) :
  derived_worker price company = Some wa -> hundredths wa.
Proof.
  unfold derived_worker. destruct company as [ca|]; [|discriminate].
  destruct (Qltb 0 price); [|discriminate].
  intros E. inversion E. eexists. reflexivity.
Qed.

Lemma read_worker_hundredths (cols : col_mappings) (row : list cell)
    (price : Q) (company : option Q) (wa : Q) :
  read_worker float_of_text cols row price company = Ok (Some wa) -> hundredths wa.
Proof.
  unfold read_worker. destruct (col_worker_amount cols) as [j|]; [|discriminate].
  destruct (index row j) as [v|e]; simpl; [|discriminate].
  intros E. inversion E as [E']; clear E.
  destruct v as [|q|s]; simpl in E'; [discriminate | |].
  - destruct (Qltb 0 q); inversion E'. eexists. reflexivity.
  - destruct (float_of_text s) as [q|]; simpl in E'.
    + destruct (Qltb 0 q); inversion E'. eexists. reflexivity.
    + exact (derived_worker_hundredths _ _ _ E').
Qed.

Lemma customer_of_row_invariants (cols : col_mappings) (row : list cell) (c : Customer.t) :
  customer_of_row float_of_text str_of_num cols row = Some c ->
  Customer.name c <> []
  /\ py_strip (Customer.name c) = Customer.name c
  /\ (forall ca, Customer.company_amount c = Some ca -> 0 < ca)
  /\ (forall wa, Customer.worker_amount c = Some wa -> hundredths wa).
Proof.
  intros Hc. apply customer_of_row_Some in Hc.
  destruct Hc as (i & name_cell & price & formula & company & w
                  & Ei & En & Hu & Ep & Ef & Ec & Ew & E).
  subst c. simpl. split; [|split; [|split]].
  - unfold usable_name in Hu. apply andb_true_iff in Hu. destruct Hu as [_ Hne].
    intros E. rewrite E in Hne. discriminate.
  - apply strip_idem.
  - intros ca Hca. subst company. exact (read_company_positive _ _ _ Ec).
  - intros wa Hwa. destruct w as [w|].
    + inversion Hwa; subst w. exact (read_worker_hundredths _ _ _ _ _ Ew).
    + exact (derived_worker_hundredths _ _ _ Hwa).
Qed.

(** X13. Every customer the row loop loads has a name that is not empty
    and has no white space at either end, a company amount that, when
    present, is positive, and a worker amount that, when present, has at
    most two decimals. *)
Theorem loaded_customers_are_well_formed
    (cols : col_mappings) (rows : list (list cell))
    (customers : list Customer.t) (c : Customer.t) :
  load_rows float_of_text str_of_num cols rows = Ok customers ->
  In c customers ->
  Customer.name c <> []
  /\ py_strip (Customer.name c) = Customer.name c
  /\ (forall ca, Customer.company_amount c = Some ca -> 0 < ca)
  /\ (forall wa, Customer.worker_amount c = Some wa -> hundredths wa).
Proof.
  intros E Hc. destruct (load_rows_In _ _ _ _ _ _ E Hc) as [row [_ Hrow]].
  exact (customer_of_row_invariants _ _ _ Hrow).
Qed.

End Rows.

Lemma loaded_customers_are_well_formed_witness :
  let c := Customer.mk (lit "Abu") 100 (lit "WEIGHT_PRICE") (Some 60.333)
             (Some (py_round2 (fsub 100 60.333))) in
  Customer.name c <> []
  /\ py_strip (Customer.name c) = Customer.name c
  /\ (forall ca, Customer.company_amount c = Some ca -> 0 < ca)
  /\ (forall wa, Customer.worker_amount c = Some wa -> hundredths wa).
Proof.
  intros c.
  assert (E : load_rows no_float no_str four_columns [row_60_30; row_60_none]
              = Ok [Customer.mk (lit "Ali") 100 (lit "WEIGHT_PRICE") (Some 60)
                      (Some (py_round2 30)); c])
    by (vm_compute; reflexivity).
  exact (loaded_customers_are_well_formed no_float no_str four_columns
           [row_60_30; row_60_none] _ c E (or_intror (or_introl eq_refl))).
Defined.

(** *** The whole load *)

Section Load.

Variable float_of_text : pystr -> option Q.
Variable str_of_num : Q -> pystr.

Lemma load_rows_raises (cols : col_mappings) (rows : list (list cell)) (e : exn) :
  load_rows float_of_text str_of_num cols rows = Raise e ->
  e = ValueError
  /\ forall row, In row rows -> customer_of_row float_of_text str_of_num cols row = None.
Proof.
  unfold load_rows.
  destruct (flat_map _ rows) as [|c l] eqn:E; [|discriminate].
  intros H. inversion H. split; [reflexivity|].
  intros row Hrow.
  destruct (customer_of_row float_of_text str_of_num cols row) as [c|] eqn:Ec;
    [|reflexivity].
  assert (Hin : In c []).
  { rewrite <- E. apply in_flat_map. exists row. split; [exact Hrow|].
    rewrite Ec. left. reflexivity. }
  destruct Hin.
Qed.

Lemma load_rows_nonempty (cols : col_mappings) (rows : list (list cell))
    (customers : list Customer.t) :
  load_rows float_of_text str_of_num cols rows = Ok customers -> customers <> [].
Proof.
  unfold load_rows. destruct (flat_map _ rows) as [|c l]; [discriminate|].
  intros H. inversion H. discriminate.
Qed.

Lemma skipn_one {A : Type} (l : list A) : skipn 1 l = tl l.
Proof. destruct l; reflexivity. Qed.

(** X14. When loading ends normally, the catalogue is not empty, the
    first row of the chosen sheet has a header for the name, and every
    customer of the catalogue comes from a row below the first: the
    customers from before are gone. *)
Theorem successful_load_has_name_header
    (wb : workbook) (before after : list Customer.t) :
  load_from_workbook float_of_text str_of_num wb before = (after, Loaded) ->
  after <> []
  /\ exists ws,
       find_worksheet wb = Some ws
       /\ (exists i v, nth_error (hd [] ws) i = Some v /\ cell_field v = Some f_name)
       /\ forall c, In c after ->
            exists row, In row (tl ws)
                        /\ customer_of_row float_of_text str_of_num
                             (fst (scan_header ws)) row = Some c.
Proof.
  unfold load_from_workbook.
  destruct (find_worksheet wb) as [ws|]; [|intros H; inversion H].
  destruct (scan_header ws) as [cols header_row] eqn:Es.
  destruct header_row as [h|]; [|intros H; inversion H].
  assert (Hh : h = 1%nat) by (apply (scan_header_row ws); rewrite Es; reflexivity).
  subst h. rewrite skipn_one.
  destruct (load_rows float_of_text str_of_num cols (tl ws)) as [loaded|e] eqn:El;
    intros H; inversion H; subst loaded.
  split; [exact (load_rows_nonempty _ _ _ El)|].
  exists ws. split; [reflexivity|].
  assert (Hrows : forall c, In c after ->
            exists row, In row (tl ws)
                        /\ customer_of_row float_of_text str_of_num cols row = Some c)
    by (intros c Hc; exact (load_rows_In _ _ _ _ _ _ El Hc)).
  split; [|rewrite Es; exact Hrows].
  destruct after as [|c rest]; [exfalso; exact (load_rows_nonempty _ _ _ El eq_refl)|].
  destruct (Hrows c (or_introl eq_refl)) as [row [_ Hrow]].
  apply customer_of_row_Some in Hrow.
  destruct Hrow as (i & name_cell & _ & _ & _ & _ & Ei & _).
  assert (Hcol : column (fst (scan_header ws)) f_name = Some i)
    by (rewrite Es; exact Ei).
  rewrite scan_header_column in Hcol.
  destruct (last_header_Some _ _ _ Hcol) as [[v [Hv Hf]] _].
  exists i, v. split; assumption.
Qed.

(** X15. When loading fails on an opened workbook, the error raised
    inside is a [ValueError], which leaves [load_from_excel] wrapped as
    [Exception("Error loading Excel: ...")], and the catalogue is either
    left as it was, when no sheet is chosen or its first row has no
    recognised header, or emptied, when the header row was found but no
    row below it gives a customer. *)
Theorem failed_load_keeps_or_empties_catalogue
    (wb : workbook) (before after : list Customer.t) (e : exn) :
  load_from_workbook float_of_text str_of_num wb before = (after, Error_loading_Excel e) ->
  e = ValueError
  /\ ((after = before
       /\ (find_worksheet wb = None
           \/ exists ws, find_worksheet wb = Some ws /\ snd (scan_header ws) = None))
      \/ (after = []
          /\ exists ws,
               find_worksheet wb = Some ws
               /\ snd (scan_header ws) = Some 1%nat
               /\ forall row, In row (tl ws) ->
                    customer_of_row float_of_text str_of_num
                      (fst (scan_header ws)) row = None)).
Proof.
  unfold load_from_workbook.
  destruct (find_worksheet wb) as [ws|].
  2:{ intros H. inversion H. split; [reflexivity|]. left. split; [reflexivity|].
      left. reflexivity. }
  destruct (scan_header ws) as [cols header_row] eqn:Es.
  destruct header_row as [h|].
  2:{ intros H. inversion H. split; [reflexivity|]. left. split; [reflexivity|].
      right. exists ws. rewrite Es. split; reflexivity. }
  assert (Hh : h = 1%nat) by (apply (scan_header_row ws); rewrite Es; reflexivity).
  subst h. rewrite skipn_one.
  destruct (load_rows float_of_text str_of_num cols (tl ws)) as [loaded|e'] eqn:El;
    intros H; inversion H; subst.
  destruct (load_rows_raises _ _ _ El) as [He Hrows].
  split; [exact He|]. right. split; [reflexivity|].
  exists ws. rewrite Es. split; [reflexivity|]. split; [reflexivity|]. exact Hrows.
Qed.

End Load.

Lemma successful_load_has_name_header_witness :
  load_from_workbook no_float no_str price_list [abc_trading]
  = ([Customer.mk (lit "Ali") 100 (lit "WEIGHT_PRICE") (Some 60) (Some (py_round2 30));
      Customer.mk (lit "Abu") 100 (lit "WEIGHT_PRICE") (Some 60.333)
        (Some (py_round2 (fsub 100 60.333)))], Loaded)
  /\ exists ws,
       find_worksheet price_list = Some ws
       /\ (exists i v, nth_error (hd [] ws) i = Some v /\ cell_field v = Some f_name)
       /\ forall c,
            In c [Customer.mk (lit "Ali") 100 (lit "WEIGHT_PRICE") (Some 60)
                    (Some (py_round2 30));
                  Customer.mk (lit "Abu") 100 (lit "WEIGHT_PRICE") (Some 60.333)
                    (Some (py_round2 (fsub 100 60.333)))] ->
            exists row, In row (tl ws)
                        /\ customer_of_row no_float no_str (fst (scan_header ws)) row
                           = Some c.
Proof.
  assert (E : load_from_workbook no_float no_str price_list [abc_trading]
              = ([Customer.mk (lit "Ali") 100 (lit "WEIGHT_PRICE") (Some 60)
                    (Some (py_round2 30));
                  Customer.mk (lit "Abu") 100 (lit "WEIGHT_PRICE") (Some 60.333)
                    (Some (py_round2 (fsub 100 60.333)))], Loaded))
    by (vm_compute; reflexivity).
  split; [exact E|].
  exact (proj2 (successful_load_has_name_header no_float no_str price_list
                  [abc_trading] _ E)).
Defined.

Lemma failed_load_keeps_or_empties_catalogue_witness :
  load_from_workbook no_float no_str nameless_price_list [abc_trading]
  = ([], Error_loading_Excel ValueError)
  /\ load_from_workbook no_float no_str [] [abc_trading]
     = ([abc_trading], Error_loading_Excel ValueError)
  /\ ValueError = ValueError
  /\ (([] = [abc_trading]
       /\ (find_worksheet nameless_price_list = None
           \/ exists ws, find_worksheet nameless_price_list = Some ws
                         /\ snd (scan_header ws) = None))
      \/ ([] = @nil Customer.t
          /\ exists ws,
               find_worksheet nameless_price_list = Some ws
               /\ snd (scan_header ws) = Some 1%nat
               /\ forall row, In row (tl ws) ->
                    customer_of_row no_float no_str (fst (scan_header ws)) row = None)).
Proof.
  assert (E : load_from_workbook no_float no_str nameless_price_list [abc_trading]
              = ([], Error_loading_Excel ValueError))
    by (vm_compute; reflexivity).
  split; [exact E|]. split; [vm_compute; reflexivity|].
  exact (failed_load_keeps_or_empties_catalogue no_float no_str nameless_price_list
           [abc_trading] [] ValueError E).
Defined.

End WorkbookFacts.




(** ** Customers by name and added variants *)

Module CatalogueFacts.
Import Py KnowledgeBase Spec Sample LookupFacts.
Local Open Scope Q_scope.

Lemma get_customer_by_name_Some (customers : list Customer.t) (n : pystr) (c : Customer.t) :
  get_customer_by_name customers n = Some c -> In c customers /\ Customer.name c = n.
Proof.
  unfold get_customer_by_name. intros H. apply List.find_some in H.
  destruct H as [Hin Hn]. apply bool_decide_eq_true in Hn. split; assumption.
Qed.

Lemma get_customer_by_name_None (customers : list Customer.t) (n : pystr) :
  get_customer_by_name customers n = None
  <-> ~ In n (map Customer.name customers).
Proof.
  unfold get_customer_by_name. split.
  - intros H Hin. apply in_map_iff in Hin. destruct Hin as [c [Hc Hin]].
    pose proof (List.find_none _ _ H c Hin) as Hf.
    apply bool_decide_eq_false in Hf. contradiction.
  - intros H.
    destruct (List.find _ customers) as [c|] eqn:E; [|reflexivity].
    apply List.find_some in E. destruct E as [Hin Hn].
    apply bool_decide_eq_true in Hn. exfalso. apply H.
    apply in_map_iff. exists c. split; assumption.
Qed.

Lemma get_customer_by_name_app (customers : list Customer.t) (c : Customer.t) (m : pystr) :
  get_customer_by_name (customers ++ [c]) m
  = match get_customer_by_name customers m with
    | Some x => Some x
    | None => if bool_decide (Customer.name c = m) then Some c else None
    end.
Proof.
  unfold get_customer_by_name.
  induction customers as [|a l IH]; simpl; [reflexivity|].
  destruct (bool_decide (Customer.name a = m)); [reflexivity | exact IH].
Qed.

Lemma add_customer_variant_cases
    (customers : list Customer.t) (n : pystr) (p : Q) (f : pystr) :
  (get_customer_by_name customers n = None
   /\ add_customer_variant customers n p f
      = (customers ++ [Customer.mk n p f None None], true))
  \/ ((exists c, get_customer_by_name customers n = Some c)
      /\ add_customer_variant customers n p f = (customers, false)).
Proof.
  unfold add_customer_variant.
  destruct (get_customer_by_name customers n) as [c|].
  - right. split; [exists c; reflexivity | reflexivity].
  - left. split; reflexivity.
Qed.

(** X16. After a variant is added under a name, looking that name up
    finds a customer: the new one, with the given price and formula and
    no amounts, when the call answers true, and the customer that was
    already there when it answers false; the call answers true exactly
    when the name was not in the catalogue; and looking up any other name
    gives what it gave before. *)
Theorem added_variant_is_found_by_name
    (customers : list Customer.t) (n : pystr) (p : Q) (f : pystr) :
  let after := fst (add_customer_variant customers n p f) in
  let added := snd (add_customer_variant customers n p f) in
  (added = true <-> get_customer_by_name customers n = None)
  /\ get_customer_by_name after n
     = (if added then Some (Customer.mk n p f None None)
        else get_customer_by_name customers n)
  /\ (exists c, get_customer_by_name after n = Some c)
  /\ (forall m, m <> n -> get_customer_by_name after m = get_customer_by_name customers m).
Proof.
  destruct (add_customer_variant_cases customers n p f) as [[Hn E]|[[c Hc] E]];
    rewrite E; simpl.
  - assert (Hget : get_customer_by_name (customers ++ [Customer.mk n p f None None]) n
                   = Some (Customer.mk n p f None None)).
    { rewrite get_customer_by_name_app, Hn. simpl.
      rewrite bool_decide_eq_true_2; reflexivity. }
    split; [split; auto|]. split; [exact Hget|].
    split; [eexists; exact Hget|].
    intros m Hm. rewrite get_customer_by_name_app.
    destruct (get_customer_by_name customers m); [reflexivity|]. simpl.
    rewrite bool_decide_eq_false_2; [reflexivity|]. congruence.
  - split; [split; intros H; [discriminate | congruence]|].
    split; [reflexivity|]. split; [exists c; exact Hc|]. reflexivity.
Qed.

(** X17. A second variant under the same name is refused, whatever its
    price and formula: the call answers false and the catalogue, with the
    price stored under that name, stays as the first call left it. *)
Theorem second_variant_of_a_name_is_refused
    (customers : list Customer.t) (n : pystr) (p p' : Q) (f f' : pystr) :
  add_customer_variant (fst (add_customer_variant customers n p f)) n p' f'
  = (fst (add_customer_variant customers n p f), false).
Proof.
  destruct (add_customer_variant_cases customers n p f) as [[Hn E]|[[c Hc] E]];
    rewrite E; simpl; unfold add_customer_variant.
  - rewrite get_customer_by_name_app, Hn. simpl.
    rewrite bool_decide_eq_true_2; reflexivity.
  - rewrite Hc. reflexivity.
Qed.

(** X18. Adding variants keeps the names of the catalogue distinct: when
    no two customers share a name before the call, none do after it. *)
Theorem added_variants_keep_names_distinct
    (customers : list Customer.t) (n : pystr) (p : Q) (f : pystr) :
  NoDup (map Customer.name customers) ->
  NoDup (map Customer.name (fst (add_customer_variant customers n p f))).
Proof.
  intros Hnd.
  destruct (add_customer_variant_cases customers n p f) as [[Hn E]|[_ E]];
    rewrite E; simpl; [|exact Hnd].
  rewrite map_app. simpl. apply get_customer_by_name_None in Hn.
  apply NoDup_app. split; [exact Hnd|]. split.
  - intros x Hx Hin. apply list_elem_of_singleton in Hin. subst x.
    apply Hn. apply list_elem_of_In. exact Hx.
  - apply NoDup_singleton.
Qed.

Lemma added_variants_keep_names_distinct_witness :
  NoDup (map Customer.name [ahmad])
  /\ fst (add_customer_variant [ahmad] (lit "Ahmad Bhd") 120 (lit "WEIGHT_PRICE"))
     = catalogue
  /\ NoDup (map Customer.name
              (fst (add_customer_variant [ahmad] (lit "Ahmad Bhd") 120
                      (lit "WEIGHT_PRICE")))).
Proof.
  assert (H : NoDup (map Customer.name [ahmad])).
  { simpl. apply NoDup_singleton. }
  split; [exact H|]. split; [vm_compute; reflexivity|].
  exact (added_variants_keep_names_distinct [ahmad] (lit "Ahmad Bhd") 120
           (lit "WEIGHT_PRICE") H).
Defined.

Section Lookup.

Variable extract : pystr -> list pystr -> nat -> res (list (pystr * Z)).

(** X19. A variant whose cleaned name is that of a customer already in
    the catalogue is stored but never found by the fuzzy lookup: every
    entry [find_customer_matches] returns afterwards is built from a
    customer that was there before, so none carries the name of the
    variant or its price. *)
Theorem shadowed_variant_is_never_matched
    (customers : list Customer.t) (n : pystr) (p : Q) (f : pystr)
    (c0 : Customer.t) (query : pystr) (k : nat) (r : Match.t) :
  In c0 customers ->
  clean_name_for_matching (Customer.name c0) = clean_name_for_matching n ->
  get_customer_by_name customers n = None ->
  In r (find_customer_matches extract
          (fst (add_customer_variant customers n p f)) query k) ->
  snd (add_customer_variant customers n p f) = true
  /\ Match.customer_name r <> n
  /\ exists c score, In c customers /\ r = result_of c score.
Proof.
  intros Hc0 Hclean Hn Hr.
  destruct (add_customer_variant_cases customers n p f) as [[_ E]|[[c Hc] _]];
    [|congruence].
  rewrite E in *. simpl in *. split; [reflexivity|].
  destruct (find_customer_matches_In _ _ _ _ _ Hr) as [matches [_ Hin]].
  destruct (results_of_matches_In _ _ _ Hin)
    as [match_name [score [i [c [_ [[Hi Hfirst] [_ Er]]]]]]].
  assert (Hc : In c customers).
  { destruct (Nat.lt_ge_cases i (length customers)) as [Hlt|Hge].
    - rewrite nth_error_app1 in Hi by exact Hlt. exact (nth_error_In _ _ Hi).
    - exfalso. apply In_nth_error in Hc0. destruct Hc0 as [j Hj].
      assert (Hjlt : (j < length customers)%nat)
        by (apply List.nth_error_Some; congruence).
      assert (Hj' : nth_error (customers ++ [Customer.mk n p f None None]) j = Some c0)
        by (rewrite nth_error_app1 by exact Hjlt; exact Hj).
      rewrite nth_error_app2 in Hi by exact Hge.
      destruct (i - length customers)%nat as [|d]; simpl in Hi.
      + inversion Hi; subst c. simpl in Hfirst.
        pose proof (Hfirst j c0 Hj' Hclean). lia.
      + destruct d; discriminate. }
  split.
  - subst r. simpl. intros En. apply get_customer_by_name_None in Hn. apply Hn.
    apply in_map_iff. exists c. split; assumption.
  - exists c, score. split; assumption.
Qed.

End Lookup.

Lemma shadowed_variant_is_never_matched_witness :
  find_customer_matches scorer
    (fst (add_customer_variant [ahmad] (lit "Ahmad Bhd") 120 (lit "WEIGHT_PRICE")))
    (lit "ahmad bhd") 10
  = [result_of ahmad 100; result_of ahmad 100]
  /\ snd (add_customer_variant [ahmad] (lit "Ahmad Bhd") 120 (lit "WEIGHT_PRICE")) = true
  /\ Match.customer_name (result_of ahmad 100) <> lit "Ahmad Bhd"
  /\ exists c score, In c [ahmad] /\ result_of ahmad 100 = result_of c score.
Proof.
  assert (E : find_customer_matches scorer
                (fst (add_customer_variant [ahmad] (lit "Ahmad Bhd") 120
                        (lit "WEIGHT_PRICE")))
                (lit "ahmad bhd") 10
              = [result_of ahmad 100; result_of ahmad 100])
    by (vm_compute; reflexivity).
  split; [exact E|].
  apply (shadowed_variant_is_never_matched scorer [ahmad] (lit "Ahmad Bhd") 120
           (lit "WEIGHT_PRICE") ahmad (lit "ahmad bhd") 10 (result_of ahmad 100)).
  - left. reflexivity.
  - vm_compute. reflexivity.
  - vm_compute. reflexivity.
  - rewrite E. left. reflexivity.
Defined.

End CatalogueFacts.





(** ** The record loop of the API *)

Module LoopFacts.
Import Py PyFacts FloatFacts Dict Api Spec Sample ApiFacts WorkbookFacts.
Local Open Scope Q_scope.

Section Loop.

Variable float_of_text : pystr -> option Q.
Variable str_of_num : Q -> pystr.
Variable validate_bool : pyval -> option bool.

(** What one round of the loop can do to the three lists. *)
Lemma process_record_shape (acc : lists) (data : gmap string pyval) :
  let acc' := process_record float_of_text str_of_num validate_bool acc data in
  let original := original_name_of str_of_num data in
  let matched := matched_name_of str_of_num data in
  let final := final_name_of str_of_num data in
  (invoice_objects acc' = invoice_objects acc
   \/ exists inv,
        invoice_objects acc' = invoice_objects acc ++ [inv]
        /\ InvoiceData.customer_name inv = final
        /\ InvoiceData.confidence inv = 0.95
        /\ final <> [] /\ final <> lit "Unknown")
  /\ (fuzzy_matches acc' = fuzzy_matches acc
      \/ exists confidence,
           fuzzy_matches acc' = fuzzy_matches acc ++ [(original, matched, confidence)]
           /\ matched <> [] /\ matched <> original /\ original <> [])
  /\ (new_customers acc' = new_customers acc
      \/ (new_customers acc' = new_customers acc ++ [original]
          /\ eq_str (get data "status") (lit "new_customer_detected") = true
          /\ final <> [] /\ final <> lit "Unknown")).
Proof.
  cbv zeta. unfold process_record, final_name_of.
  fold (original_name_of str_of_num data). fold (matched_name_of str_of_num data).
  set (original := original_name_of str_of_num data).
  set (matched := matched_name_of str_of_num data).
  set (final := final_customer_name_of original matched).
  destruct (nonempty final) eqn:Hne; simpl.
  2:{ repeat split; left; reflexivity. }
  destruct (bool_decide (final = lit "Unknown")) eqn:Hunk; simpl.
  1:{ repeat split; left; reflexivity. }
  apply bool_decide_eq_false in Hunk.
  assert (Hfin : final <> []) by (intros E; rewrite E in Hne; discriminate).
  set (trk := nonempty matched && negb (bool_decide (matched = original))
              && nonempty original).
  assert (Htrk : trk = true -> matched <> [] /\ matched <> original /\ original <> []).
  { unfold trk. intros H. apply andb_true_iff in H. destruct H as [H H3].
    apply andb_true_iff in H. destruct H as [H1 H2].
    apply negb_true_iff, bool_decide_eq_false in H2.
    repeat split; try assumption; intros E; rewrite E in *; discriminate. }
  set (nf := numeric_fields float_of_text data _).
  set (vb := validate_bool _).
  set (cf := py_float float_of_text _).
  destruct (eq_str (get data "status") (lit "new_customer_detected")) eqn:Hst;
    destruct trk eqn:Et;
    destruct cf as [c|e]; simpl;
    destruct nf as [[[[[w p] t] ca] wa]|e2]; simpl;
    destruct vb as [b|]; simpl;
    (split; [first [left; reflexivity
                   | right; eexists; repeat split; solve [reflexivity | assumption]]
            | split; [first [left; reflexivity
                            | right; eexists; split; [reflexivity | exact (Htrk eq_refl)]]
                     | first [left; reflexivity
                             | right; repeat split; solve [reflexivity | assumption]]]]).
Qed.

Lemma final_name_stripped (data : gmap string pyval) :
  py_strip (final_name_of str_of_num data) = final_name_of str_of_num data.
Proof.
  unfold final_name_of, final_customer_name_of.
  destruct (_ && _); [unfold matched_name_of | unfold original_name_of]; apply strip_idem.
Qed.

Lemma process_record_invariants (acc : lists) (data : gmap string pyval) :
  Forall valid_invoice (invoice_objects acc) ->
  Forall proper_match (fuzzy_matches acc) ->
  let acc' := process_record float_of_text str_of_num validate_bool acc data in
  Forall valid_invoice (invoice_objects acc')
  /\ Forall proper_match (fuzzy_matches acc')
  /\ (length (invoice_objects acc') <= S (length (invoice_objects acc)))%nat
  /\ (length (fuzzy_matches acc') <= S (length (fuzzy_matches acc)))%nat
  /\ (length (new_customers acc') <= S (length (new_customers acc)))%nat.
Proof.
  intros Hi Hf acc'.
  destruct (process_record_shape acc data) as [Si [Sf Sn]]. fold acc' in Si, Sf, Sn.
  repeat split.
  - destruct Si as [E|[inv [E [En [Ec [H1 H2]]]]]]; rewrite E; [exact Hi|].
    apply List.Forall_app. split; [exact Hi|]. constructor; [|constructor].
    unfold valid_invoice. rewrite En. repeat split; try assumption.
    apply final_name_stripped.
  - destruct Sf as [E|[c [E [H1 [H2 H3]]]]]; rewrite E; [exact Hf|].
    apply List.Forall_app. split; [exact Hf|]. constructor; [|constructor].
    unfold proper_match. simpl. repeat split; assumption.
  - destruct Si as [E|[inv [E _]]]; rewrite E; [lia|].
    rewrite length_app. simpl. lia.
  - destruct Sf as [E|[c [E _]]]; rewrite E; [lia|].
    rewrite length_app. simpl. lia.
  - destruct Sn as [E|[E _]]; rewrite E; [lia|].
    rewrite length_app. simpl. lia.
Qed.

Lemma fold_invariants (processed_data : list (gmap string pyval)) :
  forall acc : lists,
    Forall valid_invoice (invoice_objects acc) ->
    Forall proper_match (fuzzy_matches acc) ->
    let r := fold_left (process_record float_of_text str_of_num validate_bool)
               processed_data acc in
    Forall valid_invoice (invoice_objects r)
    /\ Forall proper_match (fuzzy_matches r)
    /\ (length (invoice_objects r)
        <= length (invoice_objects acc) + length processed_data)%nat
    /\ (length (fuzzy_matches r)
        <= length (fuzzy_matches acc) + length processed_data)%nat
    /\ (length (new_customers r)
        <= length (new_customers acc) + length processed_data)%nat.
Proof.
  induction processed_data as [|data rest IH]; intros acc Hi Hf; simpl.
  - repeat split; try assumption; lia.
  - destruct (process_record_invariants acc data Hi Hf) as [Hi' [Hf' [L1 [L2 L3]]]].
    destruct (IH _ Hi' Hf') as [Ri [Rf [M1 [M2 M3]]]].
    repeat split; try assumption; lia.
Qed.

(** X20. Whatever the records are, every invoice the record loop
    produces has a customer name that is not empty, is not "Unknown" and
    has no white space at either end, and the confidence 0.95; every
    tracked fuzzy match pairs two different names, neither of them empty;
    and none of the three lists has more entries than there are records. *)
Theorem record_loop_invariants (processed_data : list (gmap string pyval)) :
  let r := process_records float_of_text str_of_num validate_bool processed_data in
  Forall valid_invoice (invoice_objects r)
  /\ Forall proper_match (fuzzy_matches r)
  /\ (length (invoice_objects r) <= length processed_data)%nat
  /\ (length (fuzzy_matches r) <= length processed_data)%nat
  /\ (length (new_customers r) <= length processed_data)%nat.
Proof.
  unfold process_records.
  exact (fold_invariants processed_data
           {| invoice_objects := []; fuzzy_matches := []; new_customers := [] |}
           (List.Forall_nil _) (List.Forall_nil _)).
Qed.

(** [int] of a number that is not negative is its integer part. *)
Lemma py_int_bounds (x : Q) :
  0 <= x -> inject_Z (py_int x) <= x /\ x < inject_Z (py_int x) + 1.
Proof.
  intros Hx.
  assert (E : py_int x = Qfloor x).
  { unfold py_int, Qfloor. destruct x as [n d]. simpl.
    apply Z.quot_div_nonneg; [|reflexivity].
    unfold Qle in Hx. simpl in Hx. lia. }
  rewrite E. split; [apply Qfloor_le|].
  pose proof (Qlt_floor x) as H. rewrite inject_Z_plus in H. exact H.
Qed.

(** The integer part of a float quotient, against the exact quotient of
    its operands. *)
Lemma float_quotient_bounds (a p : Q) :
  0 <= a -> 0 < p ->
  let w := inject_Z (py_int (double (a / p))) in
  w * p <= a * (1 + unit_roundoff) + tiny * p
  /\ a * (1 - unit_roundoff) - tiny * p < (w + 1) * p.
Proof.
  intros Ha Hp w.
  assert (Hr : 0 <= a / p).
  { apply Qle_shift_div_l; [exact Hp|]. rewrite Qmult_0_l. exact Ha. }
  assert (E : a / p * p == a).
  { rewrite Qmult_comm. apply Qmult_div_r. intros E. rewrite E in Hp. inversion Hp. }
  destruct (double_bounds _ Hr) as [B1 B2].
  destruct (py_int_bounds _ (double_nonneg _ Hr)) as [I1 I2].
  fold w in I1, I2.
  assert (U : w * p <= (a / p * (1 + unit_roundoff) + tiny) * p).
  { apply Qmult_le_compat_r; [|apply Qlt_le_weak; exact Hp].
    eapply Qle_trans; [exact I1 | exact B2]. }
  assert (L : (a / p * (1 - unit_roundoff) - tiny) * p < (w + 1) * p).
  { apply Qmult_lt_compat_r; [exact Hp|].
    eapply Qle_lt_trans; [exact B1 | exact I2]. }
  clearbody w. clear I1 I2 B1 B2.
  set (r := a / p) in *. clearbody r.
  roundoff_constants. split; lra.
Qed.

(** X21. The weight the fallback computes back is the integer part of a
    float quotient, so it brackets the exact quotient only up to the
    roundings: with [T] and [P] the floats of a positive total and a
    positive price, [N] the amount divided ([T] for a count-based
    record, [1000 * T] for a weight-based one) and [w] the weight given
    to a record whose extracted weight is zero,
    [w * P <= N * (1 + 4u) + tiny * (P + 3)] and
    [N * (1 - 4u) - tiny * (P + 3) < (w + 1) * P], where [u] is the
    unit roundoff. *)
Theorem back_computed_weight_bounds (is_count : pyval) (price total : Q) :
  0 < total -> 0 < price -> 0 < double price ->
  let T := double total in
  let P := double price in
  let N := if truthy is_count then T else T * 1000 in
  let w := inject_Z (resolve_weight is_count 0 price total) in
  w * P <= N * (1 + 4 * unit_roundoff) + tiny * (P + 3)
  /\ N * (1 - 4 * unit_roundoff) - tiny * (P + 3) < (w + 1) * P.
Proof.
  intros Ht Hp HP T P N w.
  assert (HT : 0 <= T) by (apply double_nonneg, Qlt_le_weak, Ht).
  unfold w, resolve_weight.
  rewrite (proj2 (Qltb_lt 0 total) Ht), (proj2 (Qltb_lt 0 price) Hp).
  simpl.
  unfold N. destruct (truthy is_count).
  - unfold fdiv. fold T P.
    destruct (float_quotient_bounds T P HT HP) as [U L].
    set (v := inject_Z _) in *. clearbody v.
    roundoff_constants. split; lra.
  - unfold fdiv, fmul. fold T P.
    change (double 1000) with 1000.
    assert (HA0 : 0 <= T * 1000) by lra.
    pose proof (double_bounds _ HA0) as [A1 A2].
    pose proof (double_nonneg _ HA0) as HA.
    pose proof (double_bounds _ HA) as [D1 D2].
    pose proof (double_nonneg _ HA) as HD.
    destruct (float_quotient_bounds _ P HD HP) as [U L].
    set (v := inject_Z _) in *. clearbody v.
    set (d := double (double (T * 1000))) in *. clearbody d.
    set (a := double (T * 1000)) in *. clearbody a.
    roundoff_constants. split; lra.
Qed.

End Loop.

Lemma back_computed_weight_bounds_witness :
  resolve_weight (PyBool false) 0 30 10 = 333%Z
  /\ (let T := double 10 in
      let P := double 30 in
      let N := if truthy (PyBool false) then T else T * 1000 in
      let w := inject_Z (resolve_weight (PyBool false) 0 30 10) in
      w * P <= N * (1 + 4 * unit_roundoff) + tiny * (P + 3)
      /\ N * (1 - 4 * unit_roundoff) - tiny * (P + 3) < (w + 1) * P).
Proof.
  split; [vm_compute; reflexivity|].
  apply (back_computed_weight_bounds (PyBool false) 30 10);
    [reflexivity | reflexivity | vm_compute; reflexivity].
Defined.

Example loop_drops_unknown_and_unnamed :
  invoice_objects
    (process_records no_float no_str only_bool
       [ {[ "customer_name" := PyStr (lit "Unknown") ]};
         {[ "customer_name" := PyStr (lit "   ") ]};
         weight_based_record ])
  = invoice_objects (process_records no_float no_str only_bool [weight_based_record]).
Proof. vm_compute. reflexivity. Qed.


End LoopFacts.







(** ** The rows of the month sheet *)

Module SheetFacts.
Import Py Excel Spec Sample.

Lemma insert_asc_perm (x : InvoiceData.t) (l : list InvoiceData.t) :
  Permutation (insert_asc x l) (x :: l).
Proof.
  induction l as [|y l IH]; simpl; [apply Permutation_refl|].
  destruct (_get_invoice_no_value y <? _get_invoice_no_value x)%Z.
  - apply Permutation_trans with (y :: x :: l).
    + apply perm_skip. exact IH.
    + apply perm_swap.
  - apply Permutation_refl.
Qed.

Lemma insert_asc_sorted (x : InvoiceData.t) (l : list InvoiceData.t) :
  StronglySorted invoice_no_le l -> StronglySorted invoice_no_le (insert_asc x l).
Proof.
  induction l as [|y l IH]; intros Hs; simpl.
  - constructor; [constructor | constructor].
  - inversion Hs as [|y' l' Hl Hy]; subst.
    destruct (_get_invoice_no_value y <? _get_invoice_no_value x)%Z eqn:E.
    + apply Z.ltb_lt in E. constructor; [exact (IH Hl)|].
      eapply Permutation_Forall; [apply Permutation_sym; apply insert_asc_perm|].
      constructor; [unfold invoice_no_le; lia | exact Hy].
    + apply Z.ltb_ge in E. constructor; [exact Hs|].
      constructor; [exact E|].
      eapply List.Forall_impl; [|exact Hy].
      intros z Hz. unfold invoice_no_le in *. lia.
Qed.

Lemma insert_asc_same_value (k : Z) (x : InvoiceData.t) (l : list InvoiceData.t) :
  with_invoice_no_value k (insert_asc x l) = with_invoice_no_value k (x :: l).
Proof.
  unfold with_invoice_no_value.
  induction l as [|y l IH]; [reflexivity|]. simpl.
  destruct (_get_invoice_no_value y <? _get_invoice_no_value x)%Z eqn:E;
    [|reflexivity].
  apply Z.ltb_lt in E. simpl. rewrite IH. simpl.
  destruct (_get_invoice_no_value x =? k)%Z eqn:Ex; [|reflexivity].
  apply Z.eqb_eq in Ex.
  destruct (_get_invoice_no_value y =? k)%Z eqn:Ey; [|reflexivity].
  apply Z.eqb_eq in Ey. lia.
Qed.

Lemma sorted_invoices_facts (invoices : list InvoiceData.t) :
  Permutation (sorted_invoices invoices) invoices
  /\ StronglySorted invoice_no_le (sorted_invoices invoices)
  /\ forall k, with_invoice_no_value k (sorted_invoices invoices)
               = with_invoice_no_value k invoices.
Proof.
  unfold sorted_invoices. induction invoices as [|x l [IH1 [IH2 IH3]]]; simpl.
  - split; [apply Permutation_refl|]. split; [constructor | reflexivity].
  - split; [|split].
    + apply Permutation_trans with (x :: fold_right insert_asc [] l).
      * apply insert_asc_perm.
      * apply perm_skip. exact IH1.
    + apply insert_asc_sorted. exact IH2.
    + intros k. rewrite insert_asc_same_value.
      unfold with_invoice_no_value in *. simpl. rewrite IH3. reflexivity.
Qed.

(** X22. The invoices of the month sheet are those given, each as often
    as given, in the order of the numbers read from their invoice
    numbers, smallest first; invoices with the same number keep the order
    they were given in. *)
Theorem sheet_order_is_stable_sort (invoices : list InvoiceData.t) :
  Permutation (sorted_invoices invoices) invoices
  /\ StronglySorted invoice_no_le (sorted_invoices invoices)
  /\ forall k, with_invoice_no_value k (sorted_invoices invoices)
               = with_invoice_no_value k invoices.
Proof. exact (sorted_invoices_facts invoices). Qed.

Lemma rows_from_nth (invoices : list InvoiceData.t) :
  forall (k i : nat),
    nth_error (rows_from k invoices) i
    = option_map (fun invoice => row_data invoice (k + i)) (nth_error invoices i).
Proof.
  induction invoices as [|x l IH]; intros k i; simpl.
  - destruct i; reflexivity.
  - destruct i as [|i]; simpl.
    + rewrite Nat.add_0_r. reflexivity.
    + rewrite IH. replace (S k + i)%nat with (k + S i)%nat by lia. reflexivity.
Qed.

Lemma rows_from_length (invoices : list InvoiceData.t) (k : nat) :
  length (rows_from k invoices) = length invoices.
Proof.
  revert k. induction invoices as [|x l IH]; intros k; simpl; [reflexivity|].
  rewrite IH. reflexivity.
Qed.

(** X23. The month sheet has one data row for each invoice, and the row
    written for the invoice at position [i] of the sorted order is filled
    for row [i + 2] of the sheet: its formulas name the row they stand
    in. *)
Theorem data_rows_follow_sorted_order (invoices : list InvoiceData.t) (i : nat) :
  length (data_rows invoices) = length invoices
  /\ nth_error (data_rows invoices) i
     = option_map (fun invoice => row_data invoice (i + 2))
         (nth_error (sorted_invoices invoices) i).
Proof.
  unfold data_rows. split.
  - rewrite rows_from_length.
    apply Permutation_length. exact (proj1 (sorted_invoices_facts invoices)).
  - rewrite rows_from_nth. replace (2 + i)%nat with (i + 2)%nat by lia. reflexivity.
Qed.

(** *** The number read from an invoice number *)

Lemma read_digits_stops (acc : Z) (rest : pystr) :
  no_leading_digit rest -> read_digits acc rest = acc.
Proof.
  destruct rest as [|c rest]; simpl; [reflexivity|]. intros H. rewrite H. reflexivity.
Qed.

Lemma read_digits_decimal (d : Decimal.uint) (rest : pystr) :
  no_leading_digit rest ->
  forall acc : nat,
    read_digits (Z.of_nat acc) (lit (NilEmpty.string_of_uint d) ++ rest)
    = Z.of_nat (Nat.of_uint_acc d acc).
Proof.
  intros Hrest.
  induction d as [|d IH|d IH|d IH|d IH|d IH|d IH|d IH|d IH|d IH|d IH]; intros acc;
    [exact (read_digits_stops _ _ Hrest)|..];
    cbn [NilEmpty.string_of_uint Nat.of_uint_acc];
    rewrite <- IH, Nat.tail_mul_spec;
    change (lit (String ?a ?s)) with (N_of_ascii a :: lit s);
    cbn [app read_digits];
    match goal with
    | |- context [is_digit ?c] => change (is_digit c) with true
    end;
    cbv iota; f_equal;
    match goal with
    | |- context [Z.of_N (N_of_ascii ?a)] =>
        let v := eval vm_compute in (Z.of_N (N_of_ascii a)) in
        change (Z.of_N (N_of_ascii a)) with v
    end;
    lia.
Qed.

Lemma decimal_starts_with_digit (n : nat) :
  exists c s, str_of_row n = c :: s /\ is_digit c = true.
Proof.
  unfold str_of_row.
  destruct (Nat.to_uint n) as [|d|d|d|d|d|d|d|d|d|d] eqn:E;
    try (eexists; eexists; split; [reflexivity | reflexivity]).
  exfalso. pose proof (Unsigned.of_to n) as H. rewrite E in H. simpl in H. subst n.
  discriminate E.
Qed.

Lemma value_skips_prefix (p s : pystr) :
  Forall (fun c => is_digit c = false) p ->
  _get_invoice_no_value_of (p ++ s) = _get_invoice_no_value_of s.
Proof.
  induction 1 as [|c p Hc _ IH]; simpl; [reflexivity|]. rewrite Hc. exact IH.
Qed.

Lemma value_of_decimal (n : nat) (rest : pystr) :
  no_leading_digit rest ->
  _get_invoice_no_value_of (str_of_row n ++ rest) = Z.of_nat n.
Proof.
  intros Hrest.
  destruct (decimal_starts_with_digit n) as [c [s [E Hc]]].
  assert (Ev : _get_invoice_no_value_of (str_of_row n ++ rest)
               = read_digits 0 (str_of_row n ++ rest)).
  { rewrite E. simpl. rewrite Hc. reflexivity. }
  rewrite Ev. unfold str_of_row.
  pose proof (read_digits_decimal (Nat.to_uint n) rest Hrest 0) as H.
  change (Z.of_nat 0) with 0%Z in H. rewrite H.
  f_equal. exact (Unsigned.of_to n).
Qed.

(** X24. The number read from an invoice number is the number its first
    run of digits spells: for text without digits, then the decimal
    spelling of [n], then text that does not go on with a digit, all
    within the character tables, it is [n]. *)
Theorem invoice_no_value_reads_first_number (p rest : pystr) (n : nat) :
  in_tables p -> in_tables rest ->
  Forall (fun c => is_digit c = false) p ->
  no_leading_digit rest ->
  _get_invoice_no_value_of (p ++ str_of_row n ++ rest) = Z.of_nat n.
Proof.
  intros _ _ Hp Hrest. rewrite (value_skips_prefix _ _ Hp). exact (value_of_decimal n rest Hrest).
Qed.

Lemma invoice_no_value_reads_first_number_witness :
  InvoiceData.invoice_no invoice_10 = lit "INV-" ++ str_of_row 10 ++ lit "/A"
  /\ sorted_invoices [invoice_10; invoice_9] = [invoice_9; invoice_10]
  /\ _get_invoice_no_value_of (lit "INV-" ++ str_of_row 10 ++ lit "/A") = Z.of_nat 10.
Proof.
  split; [vm_compute; reflexivity|]. split; [vm_compute; reflexivity|].
  apply invoice_no_value_reads_first_number.
  - repeat constructor.
  - repeat constructor.
  - repeat constructor.
  - reflexivity.
Defined.

End SheetFacts.



(** ** The sheet "Price & Formula" *)

Module PriceSheetFacts.
Import Py PyFacts FloatFacts KnowledgeBase Excel Spec Sample LoaderFacts WorkbookFacts.
Local Open Scope Q_scope.

Lemma startswith_equals (c : N) (s : pystr) :
  startswith (lit "=") (c :: s) = (c =? 61)%N.
Proof.
  change (startswith (lit "=") (c :: s)) with ((61 =? c)%N && true).
  rewrite andb_true_r. apply N.eqb_sym.
Qed.

Lemma lstrip_equals_plain (s : pystr) :
  startswith (lit "=") (lstrip_equals s) = false.
Proof.
  induction s as [|c s IH]; [reflexivity|]. cbn [lstrip_equals].
  destruct (c =? 61)%N eqn:E; [exact IH|].
  rewrite startswith_equals. exact E.
Qed.

Lemma lstrip_equals_fixed (s : pystr) :
  startswith (lit "=") s = false -> lstrip_equals s = s.
Proof.
  destruct s as [|c s]; [reflexivity|]. rewrite startswith_equals.
  intros E. cbn [lstrip_equals]. rewrite E. reflexivity.
Qed.

Lemma mapping_get_In (items : list (pystr * pystr)) (k v : pystr) :
  mapping_get items k = Some v -> In (k, v) items.
Proof.
  induction items as [|[k' v'] items IH]; [discriminate|]. cbn [mapping_get].
  destruct (bool_decide (k' = k)) eqn:E.
  - apply bool_decide_eq_true in E. intros H. inversion H; subst. left. reflexivity.
  - intros H. right. exact (IH H).
Qed.

(** Every display text of the mapping is plain and stands for itself. *)
Lemma formula_mapping_values (k v : pystr) :
  mapping_get formula_mapping k = Some v ->
  v <> [] /\ startswith (lit "=") v = false /\ mapping_get formula_mapping v = Some v.
Proof.
  intros H. apply mapping_get_In in H.
  assert (Hall : forallb (fun kv : pystr * pystr =>
                            nonempty (snd kv)
                            && negb (startswith (lit "=") (snd kv))
                            && match mapping_get formula_mapping (snd kv) with
                               | Some t => bool_decide (t = snd kv)
                               | None => false
                               end)
                   formula_mapping = true)
    by (vm_compute; reflexivity).
  pose proof (proj1 (forallb_forall _ _) Hall (k, v) H) as Hv. cbn [snd] in Hv.
  apply andb_true_iff in Hv. destruct Hv as [Hv H3].
  apply andb_true_iff in Hv. destruct Hv as [H1 H2].
  apply negb_true_iff in H2.
  split; [|split; [exact H2|]].
  - intros E. rewrite E in H1. discriminate.
  - destruct (mapping_get formula_mapping v) as [t|]; [|discriminate].
    apply bool_decide_eq_true in H3. congruence.
Qed.

Lemma display_cases (formula : pystr) :
  let text := _get_formula_display formula in
  text <> [] /\ startswith (lit "=") text = false
  /\ (mapping_get formula_mapping text = Some text
      \/ (mapping_get formula_mapping text = None /\ lstrip_equals text = text)).
Proof.
  cbv zeta. unfold _get_formula_display.
  set (clean_formula := if nonempty formula then lstrip_equals formula else []).
  assert (Hclean : startswith (lit "=") clean_formula = false).
  { unfold clean_formula. destruct (nonempty formula);
      [apply lstrip_equals_plain | reflexivity]. }
  destruct (mapping_get formula_mapping formula) as [v|] eqn:E1.
  { destruct (formula_mapping_values _ _ E1) as [H1 [H2 H3]]. rewrite H2.
    split; [exact H1|]. split; [exact H2|]. left. exact H3. }
  destruct (mapping_get formula_mapping clean_formula) as [v|] eqn:E2.
  { destruct (formula_mapping_values _ _ E2) as [H1 [H2 H3]]. rewrite H2.
    split; [exact H1|]. split; [exact H2|]. left. exact H3. }
  destruct (nonempty clean_formula) eqn:E3.
  - rewrite Hclean. split; [intros E; rewrite E in E3; discriminate|].
    split; [exact Hclean|]. right. split; [exact E2|].
    apply lstrip_equals_fixed. exact Hclean.
  - split; [discriminate|]. split; [reflexivity|]. left. vm_compute. reflexivity.
Qed.

Lemma display_idempotent (formula : pystr) :
  _get_formula_display (_get_formula_display formula) = _get_formula_display formula.
Proof.
  destruct (display_cases formula) as [Hne [Hplain Hcase]].
  set (text := _get_formula_display formula) in *.
  unfold _get_formula_display at 1.
  destruct Hcase as [E|[E El]].
  - rewrite E, Hplain. reflexivity.
  - rewrite E.
    assert (Hn : nonempty text = true) by (destruct text; [contradiction | reflexivity]).
    rewrite Hn, El, E, Hn, Hplain. reflexivity.
Qed.

(** X25. The display text of a formula is never empty and never starts
    with an equals sign, displaying it again gives the same text, and so
    the formula cell of a price-sheet row always holds the display text
    as it is: the apostrophe for text that starts with an equals sign is
    never written. *)
Theorem formula_display_is_plain_text (customer : Customer.t) :
  let text := _get_formula_display (Customer.formula customer) in
  text <> []
  /\ startswith (lit "=") text = false
  /\ _get_formula_display text = text
  /\ nth_error (price_formula_row customer) 2 = Some (CText text).
Proof.
  cbv zeta. destruct (display_cases (Customer.formula customer)) as [Hne [Hplain _]].
  split; [exact Hne|]. split; [exact Hplain|]. split; [apply display_idempotent|].
  unfold price_formula_row. cbn [nth_error]. rewrite Hplain. reflexivity.
Qed.

Example display_of_codes_and_formulas :
  map _get_formula_display [lit "WEIGHT_PRICE"; lit "==D2*E2"; []; lit "=UPAH"]
  = [lit "Weight x Price per ton/1000kg"; lit "D2*E2";
     lit "Weight x Price per ton/1000kg"; lit "Upah"].
Proof. vm_compute. reflexivity. Qed.

(** *** Loading the sheet back *)

Lemma price_sheet_header :
  scan_header (snd (_create_price_formula_sheet []))
  = ({| col_name := Some 0%nat; col_price_per_ton := Some 1%nat;
        col_formula := Some 2%nat; col_company_amount := Some 3%nat;
        col_worker_amount := Some 4%nat |}, Some 1%nat).
Proof. vm_compute. reflexivity. Qed.

Section Reload.

Variable float_of_text : pystr -> option Q.
Variable str_of_num : Q -> pystr.

Lemma price_row_loads (c : Customer.t) :
  well_formed_customer c ->
  exists c',
    customer_of_row float_of_text str_of_num
      (fst (scan_header (snd (_create_price_formula_sheet [])))) (price_formula_row c)
    = Some c'
    /\ read_back c c'.
Proof.
  intros [Hname [Hstrip Hcompany]]. rewrite price_sheet_header. cbn [fst].
  destruct (display_cases (Customer.formula c)) as [Hne [Hplain _]].
  set (text := _get_formula_display (Customer.formula c)) in *.
  assert (Hn : nonempty (Customer.name c) = true)
    by (destruct (Customer.name c); [contradiction | reflexivity]).
  assert (Ht : nonempty text = true)
    by (destruct text; [contradiction | reflexivity]).
  set (price := if Qnonzero (Customer.price_per_ton c)
                then Customer.price_per_ton c else 0).
  set (company := match Customer.company_amount c with
                  | Some q => if Qltb 0 q then Some q else None
                  | None => None
                  end).
  set (worker := match Customer.worker_amount c with
                 | Some q => if Qltb 0 q then Some (py_round2 q) else None
                 | None => None
                 end).
  exists (Customer.mk (Customer.name c) price (py_strip text) company
            (match worker with
             | None => derived_worker price company
             | Some w => Some w
             end)).
  split.
  - apply customer_of_row_Some.
    exists 0%nat, (CText (Customer.name c)), price, (py_strip text), company, worker.
    split; [reflexivity|]. split; [reflexivity|].
    split; [unfold usable_name; cbn [cell_truthy cell_str]; rewrite Hstrip, Hn; reflexivity|].
    split; [reflexivity|].
    split.
    { unfold read_formula, price_formula_row. cbn [col_formula index nth_error bind].
      fold text. rewrite Hplain. cbn [cell_truthy cell_str]. rewrite Ht. reflexivity. }
    split.
    { unfold read_company, price_formula_row, company.
      cbn [col_company_amount index nth_error bind].
      destruct (Customer.company_amount c) as [q|]; cbn [cell_float bind try_except];
        [reflexivity|].
      reflexivity. }
    split.
    { unfold read_worker, price_formula_row, worker.
      cbn [col_worker_amount index nth_error bind].
      destruct (Customer.worker_amount c) as [q|]; cbn [cell_float bind try_except];
        [reflexivity|].
      reflexivity. }
    cbn [cell_str]. rewrite Hstrip. reflexivity.
  - unfold read_back. cbn [Customer.name Customer.price_per_ton Customer.formula
                            Customer.company_amount Customer.worker_amount].
    split; [reflexivity|]. split.
    { unfold price, Qnonzero. destruct (Qeq_bool (Customer.price_per_ton c) 0) eqn:E;
        cbn [negb]; [|reflexivity].
      apply Qeq_bool_iff in E. symmetry. exact E. }
    split; [reflexivity|]. split.
    { unfold company. destruct (Customer.company_amount c) as [q|]; [|reflexivity].
      rewrite (proj2 (Qltb_lt 0 q) (Hcompany q eq_refl)). reflexivity. }
    intros w Hw Hpos. unfold worker. rewrite Hw.
    rewrite (proj2 (Qltb_lt 0 w) Hpos). exists (py_round2 w).
    split; [reflexivity|]. split; [reflexivity|].
    intros [z Hz]. subst w. destruct z as [|p|p]; try discriminate Hpos.
    split; [apply round2_same_float|].
    intros Hlt. apply round2_of_small_hundredths. exact Hlt.
Qed.

Lemma price_rows_load (customers : list Customer.t) :
  Forall well_formed_customer customers ->
  exists loaded,
    flat_map (fun row =>
                match customer_of_row float_of_text str_of_num
                        (fst (scan_header (snd (_create_price_formula_sheet [])))) row with
                | Some c => [c]
                | None => []
                end) (map price_formula_row customers) = loaded
    /\ Forall2 read_back customers loaded.
Proof.
  induction 1 as [|c l Hc _ [loaded [E IH]]].
  - exists []. split; [reflexivity | constructor].
  - destruct (price_row_loads c Hc) as [c' [Ec Hback]].
    exists (c' :: loaded). split.
    + cbn [map flat_map]. rewrite Ec, E. reflexivity.
    + constructor; assumption.
Qed.

(** X26. The price sheet of a report is a price list the loader reads
    back: for a catalogue that is not empty and whose customers have
    names without white space at either end and positive company
    amounts, as the loader leaves them, loading a workbook in which the
    written sheet is the one chosen ends normally and gives the customers
    in the same order, each with the same name, price and company amount,
    with the stripped display text of its formula, and with its worker
    amount, when that is positive, rounded to two decimals: for an
    amount of at most two decimals that is the same float, and below
    [2 ^ 46] the same decimal. *)
Theorem price_sheet_loads_back
    (wb : workbook) (customers before : list Customer.t) :
  customers <> [] ->
  Forall well_formed_customer customers ->
  find_worksheet wb = Some (snd (_create_price_formula_sheet customers)) ->
  exists after,
    load_from_workbook float_of_text str_of_num wb before = (after, Loaded)
    /\ Forall2 read_back customers after.
Proof.
  intros Hne Hwf Hfind. unfold load_from_workbook. rewrite Hfind.
  assert (Eh : scan_header (snd (_create_price_formula_sheet customers))
               = scan_header (snd (_create_price_formula_sheet []))) by reflexivity.
  rewrite Eh.
  destruct (price_rows_load customers Hwf) as [loaded [El Hback]].
  destruct (scan_header (snd (_create_price_formula_sheet []))) as [cols header_row] eqn:Es.
  assert (Ehr : header_row = Some 1%nat).
  { pose proof price_sheet_header as H. rewrite Es in H. inversion H. reflexivity. }
  subst header_row. cbn [fst] in El.
  assert (Erows : skipn 1 (snd (_create_price_formula_sheet customers))
                  = map price_formula_row customers) by reflexivity.
  rewrite Erows. unfold load_rows. rewrite El.
  destruct loaded as [|c' rest].
  - inversion Hback; subst. contradiction.
  - exists (c' :: rest). split; [reflexivity | exact Hback].
Qed.

End Reload.

Lemma price_sheet_loads_back_witness :
  let ali := Customer.mk (lit "Ali") 100 (lit "=UPAH") (Some 60) (Some (95 # 100)) in
  let wb := [(lit "November", [[CText (lit "Date")]]); _create_price_formula_sheet [ali]] in
  load_from_workbook no_float no_str wb []
  = ([Customer.mk (lit "Ali") 100 (lit "Upah") (Some 60) (Some (95 # 100))], Loaded)
  /\ exists after,
       load_from_workbook no_float no_str wb [] = (after, Loaded)
       /\ Forall2 read_back [ali] after.
Proof.
  intros ali wb. split; [vm_compute; reflexivity|].
  apply (price_sheet_loads_back no_float no_str wb [ali] []).
  - discriminate.
  - constructor; [|constructor]. split; [discriminate|].
    split; [vm_compute; reflexivity|].
    intros ca Hca. inversion Hca. reflexivity.
  - vm_compute. reflexivity.
Defined.

End PriceSheetFacts.

(** ** The records of an image after extraction *)

Module RecordFacts.
Import Py Dict Ocr Spec Sample OcrFacts.
Local Open Scope Q_scope.

(** The record the loop body is left with in each of its cases. *)
Lemma post_process_cases (record record' : gmap string pyval) :
  post_process record = Ok record' ->
  exists service_type,
    service_type_of record = Ok service_type
    /\ let r1 := match record !! "is_count" with
                 | Some _ => record
                 | None => <["is_count" := PyBool (_determine_is_count service_type)]> record
                 end in
       (record' = r1
        /\ (py_in (lit "lain") (py_lower service_type) = true ->
            eq_num (get_default r1 "weight_kg" (PyNum 0)) 1 = true))
       \/ (py_in (lit "lain") (py_lower service_type) = true
           /\ exists price r3,
                (r3 = <["weight_kg" := PyNum 1]> r1
                 \/ exists v, r3 = <["price_per_ton" := v]> (<["weight_kg" := PyNum 1]> r1))
                /\ r3 !! "price_per_ton" = Some price
                /\ record' = <["total" := price]> r3).
Proof.
  unfold post_process.
  destruct (service_type_of record) as [service_type|e]; [|discriminate].
  cbn [bind]. intros H. exists service_type. split; [reflexivity|]. cbv zeta.
  set (r1 := match record !! "is_count" with
             | Some _ => record
             | None => <["is_count" := PyBool (_determine_is_count service_type)]> record
             end) in *.
  destruct (py_in (lit "lain") (py_lower service_type)) eqn:Hlain.
  2:{ inversion H. left. split; [reflexivity | discriminate]. }
  destruct (eq_num (get_default r1 "weight_kg" (PyNum 0)) 1) eqn:Hw; cbn [negb] in H.
  { inversion H. left. split; [reflexivity | intros _; reflexivity]. }
  right. split; [reflexivity|].
  set (r2 := <["weight_kg" := PyNum 1]> r1) in *.
  set (r3 := if eq_num (get_default r2 "price_per_ton" (PyNum 0)) 0
             then <["price_per_ton" := get_default r1 "weight_kg" (PyNum 10)]> r2
             else r2) in *.
  destruct (r3 !! "price_per_ton") as [price|] eqn:Ep; cbn [bind] in H; [|discriminate].
  inversion H. exists price, r3. split; [|split; [exact Ep | reflexivity]].
  unfold r3. destruct (eq_num _ 0); [right; eexists; reflexivity | left; reflexivity].
Qed.

Lemma is_count_set (record : gmap string pyval) (service_type : pystr) :
  exists v,
    match record !! "is_count" with
    | Some _ => record
    | None => <["is_count" := PyBool (_determine_is_count service_type)]> record
    end !! "is_count" = Some v.
Proof.
  destruct (record !! "is_count") as [v|] eqn:E.
  - exists v. exact E.
  - eexists. apply lookup_insert_eq.
Qed.

Lemma post_process_frame (record record' : gmap string pyval) :
  post_process record = Ok record' ->
  (forall k : string,
      k <> "is_count"%string -> k <> "weight_kg"%string ->
      k <> "price_per_ton"%string -> k <> "total"%string ->
      record' !! k = record !! k)
  /\ (forall v, record !! "is_count" = Some v -> record' !! "is_count" = Some v)
  /\ (exists v, record' !! "is_count" = Some v).
Proof.
  intros H. destruct (post_process_cases _ _ H) as [st [_ Hc]]. cbv zeta in Hc.
  set (r1 := match record !! "is_count" with
             | Some _ => record
             | None => <["is_count" := PyBool (_determine_is_count st)]> record
             end) in *.
  assert (F1 : forall k : string, k <> "is_count"%string -> r1 !! k = record !! k).
  { intros k Hk. unfold r1. destruct (record !! "is_count"); [reflexivity|].
    apply lookup_insert_ne. congruence. }
  assert (K1 : forall v, record !! "is_count" = Some v -> r1 !! "is_count" = Some v).
  { intros v Hv. unfold r1. rewrite Hv. exact Hv. }
  destruct (is_count_set record st) as [v0 S1]. fold r1 in S1.
  destruct Hc as [[E _]|[_ [price [r3 [Hr3 [_ E]]]]]]; subst record'.
  - split; [intros k H1 _ _ _; exact (F1 k H1)|]. split; [exact K1|].
    exists v0. exact S1.
  - assert (F3 : forall k : string,
               k <> "weight_kg"%string -> k <> "price_per_ton"%string ->
               r3 !! k = r1 !! k).
    { intros k H2 H3. destruct Hr3 as [E|[v E]]; subst r3.
      - apply lookup_insert_ne. congruence.
      - rewrite lookup_insert_ne by congruence. apply lookup_insert_ne. congruence. }
    split; [|split].
    + intros k H1 H2 H3 H4. rewrite lookup_insert_ne by congruence.
      rewrite (F3 k H2 H3). exact (F1 k H1).
    + intros v Hv. rewrite lookup_insert_ne by discriminate.
      rewrite F3 by discriminate. exact (K1 v Hv).
    + exists v0. rewrite lookup_insert_ne by discriminate.
      rewrite F3 by discriminate. exact S1.
Qed.

(** X27. Post-processing an extracted record a second time changes
    nothing: when the loop body succeeds on a record, it succeeds on the
    result and leaves it as it is. *)
Theorem post_process_is_idempotent (record record' : gmap string pyval) :
  post_process record = Ok record' -> post_process record' = Ok record'.
Proof.
  intros H.
  destruct (post_process_frame _ _ H) as [Hframe [_ [v Hv]]].
  destruct (post_process_cases _ _ H) as [st [Hst Hc]]. cbv zeta in Hc.
  assert (Hst' : service_type_of record' = Ok st).
  { unfold service_type_of, get_default in *.
    rewrite (Hframe "service_type"%string) by discriminate. exact Hst. }
  assert (Hone : py_in (lit "lain") (py_lower st) = true ->
                 eq_num (get_default record' "weight_kg" (PyNum 0)) 1 = true).
  { intros Hlain. exact (lain_service_weight_is_one record record' st Hst Hlain H). }
  unfold post_process. rewrite Hst'. cbn [bind]. rewrite Hv.
  destruct (py_in (lit "lain") (py_lower st)); [|reflexivity].
  rewrite (Hone eq_refl). reflexivity.
Qed.

Lemma post_process_is_idempotent_witness :
  post_process lain_service_record = Ok lain_service_processed
  /\ post_process lain_service_processed = Ok lain_service_processed.
Proof.
  assert (E : post_process lain_service_record = Ok lain_service_processed)
    by (vm_cast_no_check (@eq_refl _ (Ok lain_service_processed))).
  split; [exact E|].
  exact (post_process_is_idempotent lain_service_record lain_service_processed E).
Defined.

(** X28. Post-processing touches four keys only: every key other than
    [is_count], [weight_kg], [price_per_ton] and [total] has afterwards
    the value it had before or is missing as before; an [is_count] that
    the record came with is kept; and afterwards [is_count] is always
    there. *)
Theorem post_process_touches_four_keys (record record' : gmap string pyval) :
  post_process record = Ok record' ->
  (forall k : string,
      k <> "is_count"%string -> k <> "weight_kg"%string ->
      k <> "price_per_ton"%string -> k <> "total"%string ->
      record' !! k = record !! k)
  /\ (forall v, record !! "is_count" = Some v -> record' !! "is_count" = Some v)
  /\ (exists v, record' !! "is_count" = Some v).
Proof. exact (post_process_frame record record'). Qed.

Lemma post_process_touches_four_keys_witness :
  post_process lain_service_record = Ok lain_service_processed
  /\ (forall k : string,
        k <> "is_count"%string -> k <> "weight_kg"%string ->
        k <> "price_per_ton"%string -> k <> "total"%string ->
        lain_service_processed !! k = lain_service_record !! k)
  /\ (forall v, lain_service_record !! "is_count" = Some v ->
                lain_service_processed !! "is_count" = Some v)
  /\ (exists v, lain_service_processed !! "is_count" = Some v).
Proof.
  assert (E : post_process lain_service_record = Ok lain_service_processed)
    by (vm_cast_no_check (@eq_refl _ (Ok lain_service_processed))).
  split; [exact E|].
  exact (post_process_touches_four_keys lain_service_record lain_service_processed E).
Defined.

End RecordFacts.

(** ** From the records of an image to the invoices *)

Module PipelineFacts.
Import Py PyFacts Dict KnowledgeBase Matcher Api Processor Spec Sample.
Import MatcherFacts LookupFacts DecisionFacts LoopFacts.
Local Open Scope Q_scope.

Section Image.

Variable float_of_text : pystr -> option Q.
Variable str_of_num : Q -> pystr.
Variable validate_bool : pyval -> option bool.
Variable model : option generate.
Variable customers : list Customer.t.
Variable extract : pystr -> list pystr -> nat -> res (list (pystr * Z)).
Variable source_file : pystr.

Lemma named_query_is_decided (name : pystr) (p : option Q) (c : Q) :
  find_best_customer_match model customers extract name p = Ok (no_name_provided c) ->
  name = [].
Proof.
  rewrite find_best_customer_match_unfold.
  destruct (nonempty name) eqn:E; cbn [negb].
  2:{ intros _. destruct name; [reflexivity | discriminate]. }
  cbv zeta.
  destruct (all_candidates _ p) as [|c0 l]; [discriminate|].
  destruct (_ai_choose_best_match_with_price _ _ _ _) as [ai|]; [|discriminate].
  destruct (nonempty ai); [|discriminate].
  destruct (chosen_by_name _ ai) as [ch|]; [|discriminate].
  destruct (Qle_bool _ _); discriminate.
Qed.

Lemma process_record_of_image_Some (i : nat) (record r' : gmap string pyval) :
  process_record_of_image float_of_text model customers extract source_file i record
  = Some r' ->
  exists s p d,
    record !! "customer_name" = Some (PyStr s)
    /\ py_strip s <> []
    /\ find_best_customer_match model customers extract (py_strip s) (Some p) = Ok d
    /\ r' = <["record_index" := PyNum (inject_Z (Z.of_nat i))]>
              (<["source_file" := PyStr source_file]> (match_result_of d ∪ record)).
Proof.
  unfold process_record_of_image, customer_name_of, get_default.
  destruct (record !! "customer_name") as [v|] eqn:En.
  2:{ cbn [bind]. destruct (price_per_ton_of float_of_text record); discriminate. }
  destruct v as [|b|q|s]; try discriminate. cbn [bind].
  destruct (price_per_ton_of float_of_text record) as [p|e]; [|discriminate]. cbn [bind].
  destruct (nonempty (py_strip s)) eqn:Hne; cbn [negb]; [|discriminate].
  destruct (find_best_customer_match model customers extract (py_strip s) (Some p))
    as [d|e] eqn:Ed; [|discriminate].
  cbn [bind try_except]. intros H. inversion H.
  exists s, p, d. split; [reflexivity|]. split; [|split; [exact Ed | reflexivity]].
  intros E. rewrite E in Hne. discriminate.
Qed.

Lemma merged_lookup (d : decision) (record : gmap string pyval) (i : nat) (k : string) :
  k <> "source_file"%string -> k <> "record_index"%string ->
  (<["record_index" := PyNum (inject_Z (Z.of_nat i))]>
     (<["source_file" := PyStr source_file]> (match_result_of d ∪ record))) !! k
  = match match_result_of d !! k with
    | Some v => Some v
    | None => record !! k
    end.
Proof.
  intros H1 H2. rewrite lookup_insert_ne by congruence.
  rewrite lookup_insert_ne by congruence.
  rewrite lookup_union. destruct (match_result_of d !! k), (record !! k); reflexivity.
Qed.

(** X29. A record of an image that is kept has a customer name that is
    text and not blank; the decision of the matcher on the stripped name
    is never [no_name_provided]; and the result is the record with the
    decision merged over it: the file name and the record number come
    first, then every key of the decision, and every other key has the
    value the extracted record gave it. *)
Theorem processed_record_merges_decision (i : nat) (record r' : gmap string pyval) :
  process_record_of_image float_of_text model customers extract source_file i record
  = Some r' ->
  exists s p d,
    record !! "customer_name" = Some (PyStr s)
    /\ py_strip s <> []
    /\ find_best_customer_match model customers extract (py_strip s) (Some p) = Ok d
    /\ (forall c, d <> no_name_provided c)
    /\ r' !! "source_file" = Some (PyStr source_file)
    /\ r' !! "record_index" = Some (PyNum (inject_Z (Z.of_nat i)))
    /\ forall k : string,
         k <> "source_file"%string -> k <> "record_index"%string ->
         r' !! k = match match_result_of d !! k with
                   | Some v => Some v
                   | None => record !! k
                   end.
Proof.
  intros H. destruct (process_record_of_image_Some _ _ _ H) as (s & p & d & Hn & Hs & Hd & E).
  exists s, p, d. split; [exact Hn|]. split; [exact Hs|]. split; [exact Hd|].
  split; [|split; [|split]].
  - intros c Ec. rewrite Ec in Hd. exact (Hs (named_query_is_decided _ _ _ Hd)).
  - subst r'. rewrite lookup_insert_ne by discriminate. apply lookup_insert_eq.
  - subst r'. apply lookup_insert_eq.
  - intros k H1 H2. subst r'. exact (merged_lookup d record i k H1 H2).
Qed.

Lemma match_found_names_customer
    (name : pystr) (p : option Q)
    (n : pystr) (s : Q) (o : pystr) (flag : bool) (q : option Q) (cp : Q) :
  find_best_customer_match model customers extract name p
  = Ok (match_found n s o flag q cp) ->
  exists c, In c customers /\ Customer.name c = n.
Proof.
  intros H.
  destruct (match_found_candidate _ _ _ _ _ _ _ _ _ _ _ H)
    as (_ & _ & _ & _ & _ & c & Hc & Hn & _).
  apply In_all_candidates in Hc. destruct Hc as [m [Hm E]].
  destruct (search_results_from_catalogue extract customers name 10 m Hm)
    as [cust [score [Hcust Em]]].
  exists cust. split; [exact Hcust|]. subst c m. exact Hn.
Qed.

(** X30. From the image to the invoice: for a catalogue whose customers
    have names without white space at either end, as the loader leaves
    them, a kept record whose status is [match_found] is invoiced under
    the name of a customer of the catalogue, whatever name was extracted:
    the record loop settles on that name, any invoice it appends for the
    record carries it, and the record is not listed as a new customer. *)
Theorem matched_record_is_invoiced_under_catalogue_name
    (i : nat) (record r' : gmap string pyval) :
  Forall well_formed_customer customers ->
  process_record_of_image float_of_text model customers extract source_file i record
  = Some r' ->
  get r' "status" = PyStr (lit "match_found") ->
  exists c,
    In c customers
    /\ final_name_of str_of_num r' = Customer.name c
    /\ forall acc,
         let acc' := process_record float_of_text str_of_num validate_bool acc r' in
         new_customers acc' = new_customers acc
         /\ (invoice_objects acc' = invoice_objects acc
             \/ exists inv,
                  invoice_objects acc' = invoice_objects acc ++ [inv]
                  /\ InvoiceData.customer_name inv = Customer.name c).
Proof.
  intros Hwf H Hstatus.
  destruct (process_record_of_image_Some _ _ _ H) as (s & p & d & Hn & Hs & Hd & E).
  assert (Hlook : forall k : string,
             k <> "source_file"%string -> k <> "record_index"%string ->
             r' !! k = match match_result_of d !! k with
                       | Some v => Some v
                       | None => record !! k
                       end)
    by (intros k H1 H2; subst r'; exact (merged_lookup d record i k H1 H2)).
  assert (Hst : r' !! "status" = Some (PyStr (lit "match_found"))).
  { unfold get in Hstatus. destruct (r' !! "status") as [v|]; [congruence | discriminate]. }
  destruct d as [c0|c0|n sc o flag q cp].
  - exfalso. rewrite Hlook in Hst by discriminate. cbn [match_result_of] in Hst.
    rewrite lookup_insert_eq in Hst. revert Hst. vm_compute. discriminate.
  - exfalso. rewrite Hlook in Hst by discriminate. cbn [match_result_of] in Hst.
    rewrite lookup_insert_eq in Hst. revert Hst. vm_compute. discriminate.
  - destruct (match_found_names_customer _ _ _ _ _ _ _ _ Hd) as [c [Hc Hcn]].
    exists c. split; [exact Hc|].
    destruct (proj1 (List.Forall_forall _ _) Hwf c Hc) as [Hne [Hstrip _]].
    assert (Hm : matched_name_of str_of_num r' = n).
    { unfold matched_name_of, get_default. rewrite Hlook by discriminate.
      cbn [match_result_of]. rewrite lookup_insert_ne by discriminate.
      rewrite lookup_insert_eq. cbn [py_str]. rewrite <- Hcn. exact Hstrip. }
    assert (Hfinal : final_name_of str_of_num r' = Customer.name c).
    { unfold final_name_of, final_customer_name_of. rewrite Hm, Hcn.
      destruct (nonempty n && negb (bool_decide (n = original_name_of str_of_num r')))
        eqn:Eb; [reflexivity|].
      apply andb_false_iff in Eb. destruct Eb as [Eb|Eb].
      - exfalso. rewrite <- Hcn in Eb. destruct (Customer.name c);
          [contradiction | discriminate].
      - apply negb_false_iff, bool_decide_eq_true in Eb. symmetry. exact Eb. }
    split; [exact Hfinal|].
    intros acc. cbv zeta.
    destruct (process_record_shape float_of_text str_of_num validate_bool acc r')
      as [Si [_ Sn]].
    split.
    + destruct Sn as [En|[_ [Est _]]]; [exact En|]. exfalso.
      unfold get in Est. rewrite Hst in Est. revert Est. vm_compute. discriminate.
    + destruct Si as [Ei|[inv [Ei [Einv _]]]]; [left; exact Ei|].
      right. exists inv. split; [exact Ei|]. rewrite Einv. exact Hfinal.
Qed.

End Image.

Lemma processed_record_merges_decision_witness :
  process_record_of_image no_float None [abc_trading] close_scorer (lit "scan1.jpg") 1
    abc_record = Some abc_processed
  /\ exists s p d,
       abc_record !! "customer_name" = Some (PyStr s)
       /\ py_strip s <> []
       /\ find_best_customer_match None [abc_trading] close_scorer (py_strip s) (Some p)
          = Ok d
       /\ (forall c, d <> no_name_provided c)
       /\ abc_processed !! "source_file" = Some (PyStr (lit "scan1.jpg"))
       /\ abc_processed !! "record_index" = Some (PyNum (inject_Z (Z.of_nat 1)))
       /\ forall k : string,
            k <> "source_file"%string -> k <> "record_index"%string ->
            abc_processed !! k = match match_result_of d !! k with
                                 | Some v => Some v
                                 | None => abc_record !! k
                                 end.
Proof.
  assert (E : process_record_of_image no_float None [abc_trading] close_scorer
                (lit "scan1.jpg") 1 abc_record = Some abc_processed)
    by (vm_cast_no_check (@eq_refl _ (Some abc_processed))).
  split; [exact E|].
  exact (processed_record_merges_decision no_float None [abc_trading] close_scorer
           (lit "scan1.jpg") 1 abc_record abc_processed E).
Defined.

Lemma matched_record_is_invoiced_under_catalogue_name_witness :
  map InvoiceData.customer_name
    (invoice_objects (process_records no_float no_str only_bool [abc_processed]))
  = [lit "ABC Trading"]
  /\ exists c,
       In c [abc_trading]
       /\ final_name_of no_str abc_processed = Customer.name c
       /\ forall acc,
            let acc' := process_record no_float no_str only_bool acc abc_processed in
            new_customers acc' = new_customers acc
            /\ (invoice_objects acc' = invoice_objects acc
                \/ exists inv,
                     invoice_objects acc' = invoice_objects acc ++ [inv]
                     /\ InvoiceData.customer_name inv = Customer.name c).
Proof.
  split; [vm_compute; reflexivity|].
  apply (matched_record_is_invoiced_under_catalogue_name no_float no_str only_bool
           None [abc_trading] close_scorer (lit "scan1.jpg") 1 abc_record abc_processed).
  - constructor; [|constructor]. split; [discriminate|].
    split; [vm_compute; reflexivity|]. discriminate.
  - vm_cast_no_check (@eq_refl _ (Some abc_processed)).
  - vm_compute. reflexivity.
Defined.

End PipelineFacts.
